(** * system_review: the bibliographic triage pipeline of [duplicados12.py]

    A shallow embedding of the record pipeline of [duplicados12.py] (and of
    its single-format predecessor [duplicados9.py]):

      filter_records / parse_ris / parse_bib   (Record Normalizer)
      the per-file loop and [pd.concat]        (Aggregator)
      find_duplicates / drop_duplicates        (Duplicate Resolver)
      check_similarity                         (Coherence Scorer)
      apply_selection_criteria                 (Selection Filter)

    Conventions of the model.
    - A Python [str] is a [string]; its characters are the code points
      U+0000..U+00FF (the 256 values of [ascii]).  On that range the
      behaviour of [int], [str.lower] and the regular expressions used by
      the program is reproduced exactly.  Column names and the texts
      written on the page are labels: they are kept as the source spells
      them and are only ever compared with themselves.
    - A Python exception is a constructor of [exn]; code that may raise
      returns a [result].
    - Streamlit calls ([st.write], [st.error], [st.dataframe]) append to an
      output log; the [ui] monad carries that log next to the result.  The
      model covers the block under [if uploaded_files:] up to the display
      of the selected records; the charts drawn afterwards are left out.
    - A pandas [DataFrame] is its list of column names together with its
      rows, each row paired with its index label.
    - A Python [float] is a binary64 [float] of the kernel.  The stop
      list of scikit-learn and the logarithm of numpy are parameters of
      the scorer; sums inside a sparse row are taken in the order in
      which the row stores its entries. *)

From Stdlib Require Import ZArith List String Ascii Bool Lia.
From Stdlib Require Import Floats Uint63 Sorted.
From stdpp Require Import gmap strings.
Import ListNotations.

Local Open Scope string_scope.
Local Open Scope list_scope.

(** ** Python values, exceptions and builtins *)

Module Py.

(** The exceptions that the program can meet. *)
Inductive exn : Type :=
| ValueError
| KeyError
| IndexingError
| UnicodeDecodeError
| ParserError.   (* whatever rispy.loads / bibtexparser.loads raise *)

Inductive result (A : Type) : Type :=
| Ok (a : A)
| Raise (e : exn).
Arguments Ok {A} a.
Arguments Raise {A} e.

Definition bind {A B} (m : result A) (f : A -> result B) : result B :=
  match m with
  | Ok a => f a
  | Raise e => Raise e
  end.

(** Truthiness of [d.get(key, None)] for a string-valued field:
    [None] and the empty string are falsy. *)
Definition truthy (v : option string) : bool :=
  match v with
  | Some (String _ _) => true
  | _ => false
  end.

(** Characters that [int] strips around the number: the ASCII white
    space and, in this range, U+0085 and U+00A0. *)
Definition is_space (c : ascii) : bool :=
  let n := nat_of_ascii c in
  ((9 <=? n)%nat && (n <=? 13)%nat) || (n =? 32)%nat || (n =? 133)%nat
  || (n =? 160)%nat.

Fixpoint lstrip (s : string) : string :=
  match s with
  | String c s' => if is_space c then lstrip s' else s
  | EmptyString => EmptyString
  end.

Definition rev_string (s : string) : string :=
  string_of_list_ascii (rev (list_ascii_of_string s)).

Definition strip (s : string) : string :=
  rev_string (lstrip (rev_string (lstrip s))).

Definition digit_of (c : ascii) : option Z :=
  let n := nat_of_ascii c in
  if ((48 <=? n)%nat && (n <=? 57)%nat) then Some (Z.of_nat (n - 48)) else None.

(** [sys.get_int_max_str_digits()], at its default. *)
Definition int_max_str_digits : nat := 4300.

(** Digits with single underscores between them.  [after_digit] tells
    whether the previous character was a digit; [acc] is the value and
    [n] the number of digits read so far. *)
Fixpoint digits (s : string) (after_digit : bool) (acc : Z) (n : nat)
  : option (Z * nat) :=
  match s with
  | EmptyString => if after_digit then Some (acc, n) else None
  | String c s' =>
      match digit_of c with
      | Some d => digits s' true (10 * acc + d)%Z (S n)
      | None =>
          if (Ascii.eqb c "_" && after_digit)%bool
          then digits s' false acc n
          else None
      end
  end.

(** [int(s)] for a [str] argument, base 10: [None] is [ValueError]. *)
Definition int (s : string) : option Z :=
  let body sign t :=
    match digits t false 0%Z 0%nat with
    | Some (z, n) =>
        if (n <=? int_max_str_digits)%nat then Some (sign * z)%Z else None
    | None => None
    end in
  match strip s with
  | String "+" t => body 1%Z t
  | String "-" t => body (-1)%Z t
  | t => body 1%Z t
  end.

End Py.

Import Py.

Notation "x <- m ;; k" := (Py.bind m (fun x => k))
  (at level 100, m at next level, right associativity, only parsing).

(** ** Raw records, rows and data frames *)

(** A RawRecord is the [dict] that [rispy] or [bibtexparser] builds for one
    entry.  Both parsers deliver the three fields read below as [str];
    list-valued fields (authors, keywords) are never looked at and are not
    part of the model. *)
Abbreviation RawRecord := (gmap string string).

(** One line of the table: the [dict] built by [filter_records], later a
    row of the frame.  [Similitud] is absent until [check_similarity] sets
    the column. *)
Record Row : Type := {
  Titulo : string;
  Resumen : string;
  Fecha : Z;
  Similitud : option float
}.

Definition new_row (title abstract : string) (year : Z) : Row :=
  {| Titulo := title; Resumen := abstract; Fecha := year; Similitud := None |}.

(** The value of a field known to be present. *)
Definition field (v : option string) : string := default "" v.

(** [filter_records], from the loop's state [valid_records],
    [invalid_records] onwards.  [int(year)] raises inside the loop. *)
Fixpoint filter_records_from (records : list RawRecord)
    (valid_records : list Row) (invalid_records : list RawRecord)
  : result (list Row * list RawRecord) :=
  match records with
  | [] => Ok (valid_records, invalid_records)
  | record :: rest =>
      let title := record !! "title" in
      let abstract := record !! "abstract" in
      let year := record !! "year" in
      if truthy title && truthy abstract && truthy year then
        match Py.int (field year) with
        | Some y =>
            filter_records_from rest
              (valid_records ++ [new_row (field title) (field abstract) y])
              invalid_records
        | None => Raise ValueError
        end
      else filter_records_from rest valid_records (invalid_records ++ [record])
  end.

Definition filter_records (records : list RawRecord)
  : result (list Row * list RawRecord) :=
  filter_records_from records [] [].

(** A frame: column names, and the rows with their index labels. *)
Record DataFrame : Type := {
  columns : list string;
  rows : list (nat * Row)
}.

Definition col_Titulo : string := "Título".
Definition col_Resumen : string := "Resumen".
Definition col_Fecha : string := "Fecha".
Definition col_Similitud : string := "Similitud".

Definition has_column (c : string) (df : DataFrame) : bool :=
  existsb (String.eqb c) (columns df).

(** [df.shape[0]] *)
Definition shape0 (df : DataFrame) : nat := length (rows df).

(** [df.empty]: some axis has length 0. *)
Definition empty (df : DataFrame) : bool :=
  match rows df, columns df with
  | _ :: _, _ :: _ => false
  | _, _ => true
  end.

(** [pd.DataFrame(records)] for a list of row dicts; [pd.DataFrame()] is
    [pd_DataFrame []], a frame with no column at all. *)
Definition pd_DataFrame (records : list Row) : DataFrame :=
  {| columns := match records with
                | [] => []
                | _ :: _ => [col_Titulo; col_Resumen; col_Fecha]
                end;
     rows := combine (seq 0 (length records)) records |}.

(** [pd.concat([a, b])]: rows of [a] then rows of [b], labels kept; the
    columns are the union in order of appearance. *)
Definition pd_concat (a b : DataFrame) : DataFrame :=
  {| columns := columns a ++
                List.filter (fun c => negb (has_column c a)) (columns b);
     rows := rows a ++ rows b |}.

(** [df.reset_index(drop=True)] *)
Definition reset_index (df : DataFrame) : DataFrame :=
  {| columns := columns df;
     rows := combine (seq 0 (length (rows df))) (map snd (rows df)) |}.

(** [df[mask]] for a boolean mask computed from [df]. *)
Definition getitem_mask (df : DataFrame) (mask : list bool) : result DataFrame :=
  if (length mask =? length (rows df))%nat then
    Ok {| columns := columns df;
          rows := map snd (List.filter fst (combine mask (rows df))) |}
  else Raise IndexingError.

(** *** Duplicates on the subset ['Título', 'Resumen'] *)

Definition key (r : Row) : string * string := (Titulo r, Resumen r).

Definition key_eqb (k1 k2 : string * string) : bool :=
  String.eqb (fst k1) (fst k2) && String.eqb (snd k1) (snd k2).

Inductive keep_t : Type :=
| keep_first    (* keep='first' *)
| keep_False.   (* keep=False *)

(** keep='first': a row is marked when an earlier row has its key. *)
Fixpoint marked_after (seen : list (string * string)) (l : list Row) : list bool :=
  match l with
  | [] => []
  | r :: l' => existsb (key_eqb (key r)) seen :: marked_after (key r :: seen) l'
  end.

Definition occurrences (k : string * string) (l : list Row) : nat :=
  length (List.filter (fun r => key_eqb k (key r)) l).

(** keep=False: a row is marked when its key occurs more than once. *)
Definition marked_all (l : list Row) : list bool :=
  map (fun r => (1 <? occurrences (key r) l)%nat) l.

(** [df.duplicated(subset=['Título', 'Resumen'], keep=...)]: an empty
    frame answers with an empty mask before the subset is looked up. *)
Definition duplicated (keep : keep_t) (df : DataFrame) : result (list bool) :=
  if empty df then Ok []
  else if has_column col_Titulo df && has_column col_Resumen df then
    Ok match keep with
       | keep_first => marked_after [] (map snd (rows df))
       | keep_False => marked_all (map snd (rows df))
       end
  else Raise KeyError.

(** [df.drop_duplicates(subset=['Título', 'Resumen'], keep='first')] *)
Definition drop_duplicates (df : DataFrame) : result DataFrame :=
  if empty df then Ok df
  else mask <- duplicated keep_first df ;; getitem_mask df (map negb mask).

Definition find_duplicates (df : DataFrame) : result DataFrame :=
  mask <- duplicated keep_False df ;;
  getitem_mask df mask.

(** ** Streamlit output *)

Inductive ui_event : Type :=
| st_error (text : string) (e : exn)       (* st.error(f"text: {e}") *)
| st_write (text : string)                 (* st.write("text") *)
| st_write_count (text : string) (n : nat) (* st.write(f"text: {n}") *)
| st_dataframe (df : DataFrame).           (* st.dataframe(df) *)

(** What has been shown so far, and how the computation ended. *)
Definition ui (A : Type) : Type := (list ui_event * result A)%type.

Definition ui_ret {A} (a : A) : ui A := ([], Ok a).

Definition ui_raise {A} (e : exn) : ui A := ([], Raise e).

Definition ui_bind {A B} (m : ui A) (f : A -> ui B) : ui B :=
  match m with
  | (log, Ok a) => let '(log', r) := f a in (log ++ log', r)
  | (log, Raise e) => (log, Raise e)
  end.

Definition emit (ev : ui_event) : ui unit := ([ev], Ok tt).

(** A computation that shows nothing. *)
Definition lift {A} (r : result A) : ui A := ([], r).

Notation "x <~ m ;; k" := (ui_bind m (fun x => k))
  (at level 100, m at next level, right associativity, only parsing).
Notation "m ;;; k" := (ui_bind m (fun _ => k))
  (at level 100, right associativity, only parsing).

(** ** Uploaded files and the two readers *)

(** What [file.read().decode('utf-8')] followed by the parser of the
    file's format makes of an upload. *)
Inductive Payload : Type :=
| Undecodable                         (* the bytes are not UTF-8 *)
| Malformed                           (* the parser raises *)
| Parsed (records : list RawRecord).  (* the parser's entries, in order *)

Record UploadedFile : Type := {
  name : string;
  payload : Payload
}.

Definition ris_error : string := "Error al procesar el archivo .ris".
Definition bib_error : string := "Error al procesar el archivo .bib".

(** [parse_ris]: the decode stands outside the [try]; the parser and
    [filter_records] stand inside it, and the two [extend] calls come after
    both. *)
Fixpoint parse_ris_from (files : list UploadedFile)
    (valid_records : list Row) (invalid_records : list RawRecord)
  : ui (list Row * list RawRecord) :=
  match files with
  | [] => ui_ret (valid_records, invalid_records)
  | file :: rest =>
      match payload file with
      | Undecodable => ui_raise UnicodeDecodeError
      | Malformed =>
          emit (st_error ris_error ParserError) ;;;
          parse_ris_from rest valid_records invalid_records
      | Parsed parsed_records =>
          match filter_records parsed_records with
          | Ok (valid, invalid) =>
              parse_ris_from rest (valid_records ++ valid)
                (invalid_records ++ invalid)
          | Raise e =>
              emit (st_error ris_error e) ;;;
              parse_ris_from rest valid_records invalid_records
          end
      end
  end.

Definition parse_ris (files : list UploadedFile) : ui (DataFrame * nat) :=
  lists <~ parse_ris_from files [] [] ;;
  let '(valid_records, invalid_records) := lists in
  ui_ret (pd_DataFrame valid_records, length invalid_records).

(** The entry loop of [parse_bib] appends to the function's own lists
    while it runs: when [int(year)] raises, what was appended stays.  The
    result is the lists at the point where the loop stopped, with the
    exception that stopped it, if any. *)
Fixpoint parse_bib_entries (entries : list RawRecord)
    (valid_records : list Row) (invalid_records : list RawRecord)
  : list Row * list RawRecord * option exn :=
  match entries with
  | [] => (valid_records, invalid_records, None)
  | entry :: rest =>
      let title := entry !! "title" in
      let abstract := entry !! "abstract" in
      let year := entry !! "year" in
      if truthy title && truthy abstract && truthy year then
        match Py.int (field year) with
        | Some y =>
            parse_bib_entries rest
              (valid_records ++ [new_row (field title) (field abstract) y])
              invalid_records
        | None => (valid_records, invalid_records, Some ValueError)
        end
      else parse_bib_entries rest valid_records (invalid_records ++ [entry])
  end.

Fixpoint parse_bib_from (files : list UploadedFile)
    (valid_records : list Row) (invalid_records : list RawRecord)
  : ui (list Row * list RawRecord) :=
  match files with
  | [] => ui_ret (valid_records, invalid_records)
  | file :: rest =>
      match payload file with
      | Undecodable => ui_raise UnicodeDecodeError
      | Malformed =>
          emit (st_error bib_error ParserError) ;;;
          parse_bib_from rest valid_records invalid_records
      | Parsed entries =>
          match parse_bib_entries entries valid_records invalid_records with
          | (valid_records', invalid_records', None) =>
              parse_bib_from rest valid_records' invalid_records'
          | (valid_records', invalid_records', Some e) =>
              emit (st_error bib_error e) ;;;
              parse_bib_from rest valid_records' invalid_records'
          end
      end
  end.

Definition parse_bib (files : list UploadedFile) : ui (DataFrame * nat) :=
  lists <~ parse_bib_from files [] [] ;;
  let '(valid_records, invalid_records) := lists in
  ui_ret (pd_DataFrame valid_records, length invalid_records).

(** ** Selection Filter *)

Definition lower_ascii (c : ascii) : ascii :=
  let n := nat_of_ascii c in
  if ((65 <=? n)%nat && (n <=? 90)%nat) then ascii_of_nat (n + 32) else c.

Fixpoint map_string (f : ascii -> ascii) (s : string) : string :=
  match s with
  | EmptyString => EmptyString
  | String c s' => String (f c) (map_string f s')
  end.

(** [pat] occurs in [s]. *)
Fixpoint occurs_in (pat s : string) : bool :=
  String.prefix pat s ||
  match s with
  | EmptyString => false
  | String _ s' => occurs_in pat s'
  end.

(** [Series.str.contains(pat, case=False)] on one cell, for a pattern
    made of letters: a search that ignores the case of the letters A-Z. *)
Definition str_contains_nocase (pat s : string) : bool :=
  occurs_in (map_string lower_ascii pat) (map_string lower_ascii s).

Definition keyword_match (r : Row) : bool :=
  str_contains_nocase "portfolio" (Resumen r)
  || str_contains_nocase "optimization" (Resumen r).

Definition date_match (r : Row) : bool :=
  (2017 <=? Fecha r)%Z && (Fecha r <=? 2024)%Z.

(** [df['name']]: the column must exist. *)
Definition column_mask (c : string) (f : Row -> bool) (df : DataFrame)
  : result (list bool) :=
  if has_column c df then Ok (map (fun ir => f (snd ir)) (rows df))
  else Raise KeyError.

Definition apply_selection_criteria (df : DataFrame) : result DataFrame :=
  m <- column_mask col_Resumen keyword_match df ;;
  keyword_filter <- getitem_mask df m ;;
  m' <- column_mask col_Fecha date_match keyword_filter ;;
  getitem_mask keyword_filter m'.

(** ** Coherence Scorer *)

(** [str.lower] on the code points below U+0100. *)
Definition py_lower (c : ascii) : ascii :=
  let n := nat_of_ascii c in
  if ((65 <=? n)%nat && (n <=? 90)%nat)
     || ((192 <=? n)%nat && (n <=? 222)%nat && negb (n =? 215)%nat)
  then ascii_of_nat (n + 32) else c.

(** The characters that [\w] matches below U+0100. *)
Definition is_word (c : ascii) : bool :=
  let n := nat_of_ascii c in
  ((48 <=? n)%nat && (n <=? 57)%nat) || ((65 <=? n)%nat && (n <=? 90)%nat)
  || (n =? 95)%nat || ((97 <=? n)%nat && (n <=? 122)%nat)
  || (n =? 170)%nat || (n =? 178)%nat || (n =? 179)%nat || (n =? 181)%nat
  || (n =? 185)%nat || (n =? 186)%nat
  || ((188 <=? n)%nat && (n <=? 190)%nat)
  || ((192 <=? n)%nat && (n <=? 214)%nat)
  || ((216 <=? n)%nat && (n <=? 246)%nat)
  || ((248 <=? n)%nat && (n <=? 255)%nat).

(** A finished run of word characters is a token when it has two
    characters or more. *)
Definition flush (run : list ascii) : list string :=
  if (2 <=? length run)%nat then [string_of_list_ascii (rev run)] else [].

(** [re.findall(r"(?u)\b\w\w+\b", s)]; [run] is the current run of word
    characters, last character first. *)
Fixpoint token_runs (s : string) (run : list ascii) : list string :=
  match s with
  | EmptyString => flush run
  | String c s' =>
      if is_word c then token_runs s' (c :: run)
      else flush run ++ token_runs s' []
  end.

Definition tokenize (doc : string) : list string := token_runs doc [].

Definition mem_string (t : string) (l : list string) : bool :=
  existsb (String.eqb t) l.

(** Sorted insertion without repetition: the vocabulary is kept in the
    order of [sorted], which compares strings by code point. *)
Fixpoint insert_term (t : string) (vocabulary : list string) : list string :=
  match vocabulary with
  | [] => [t]
  | u :: rest =>
      match String.compare t u with
      | Lt => t :: vocabulary
      | Eq => vocabulary
      | Gt => u :: insert_term t rest
      end
  end.

Definition build_vocabulary (docs : list (list string)) : list string :=
  fold_left (fun v t => insert_term t v) (concat docs) [].

Definition count_term (t : string) (tokens : list string) : nat :=
  length (List.filter (String.eqb t) tokens).

(** The terms in the order in which the documents bring them, each
    once: the numbering that the vectorizer gives the columns while it
    counts, before it sorts them. *)
Fixpoint first_seen_from (seen tokens : list string) : list string :=
  match tokens with
  | [] => []
  | t :: rest =>
      if mem_string t seen then first_seen_from seen rest
      else t :: first_seen_from (t :: seen) rest
  end.

Definition first_seen (docs : list (list string)) : list string :=
  first_seen_from [] (concat docs).

(** The column of a term: its position in the sorted vocabulary. *)
Fixpoint column_of (t : string) (vocabulary : list string) : nat :=
  match vocabulary with
  | [] => 0
  | u :: rest => if String.eqb t u then 0 else S (column_of t rest)
  end.

(** A sparse row: (column, value) pairs in the order in which the row
    stores them. *)
Definition sparse (A : Type) : Type := list (nat * A).

(** The row of term counts of one document.  The entries are stored in
    the order of [terms], the first numbering of the columns, and each
    carries the column that the sorted vocabulary gives its term:
    sorting the vocabulary renames the columns of the stored entries and
    does not move them. *)
Definition count_row (vocabulary terms : list string) (tokens : list string)
  : sparse nat :=
  flat_map (fun t => let c := count_term t tokens in
                     if (0 <? c)%nat then [(column_of t vocabulary, c)] else [])
           terms.

Definition sparse_get {A} (j : nat) (row : sparse A) : option A :=
  match List.filter (fun e => (fst e =? j)%nat) row with
  | [] => None
  | e :: _ => Some (snd e)
  end.

(** Number of documents in which column [j] is stored. *)
Definition document_frequency (j : nat) (X : list (sparse nat)) : nat :=
  length (List.filter (fun row => match sparse_get j row with
                                  | Some _ => true
                                  | None => false
                                  end) X).

Definition float_of_nat (n : nat) : float :=
  PrimFloat.of_uint63 (Uint63.of_Z (Z.of_nat n)).

(** Sum of squares of a row, accumulated in the order of storage. *)
Definition squared_norm (row : sparse float) : float :=
  fold_left (fun s e => PrimFloat.add s (PrimFloat.mul (snd e) (snd e))) row
            PrimFloat.zero.

(** Row normalisation to unit l2 norm: a row of norm 0 is left as it is. *)
Definition normalize_l2 (row : sparse float) : sparse float :=
  let s := squared_norm row in
  if PrimFloat.eqb s PrimFloat.zero then row
  else map (fun e => (fst e, PrimFloat.div (snd e) (PrimFloat.sqrt s))) row.

(** The product of row [a] with the transpose of row [b]: the entries of
    [a] are visited in the order of storage and meet the entry of [b]
    stored in the same column, if there is one. *)
Definition sparse_dot (a b : sparse float) : float :=
  fold_left (fun s e => match sparse_get (fst e) b with
                        | Some w => PrimFloat.add s (PrimFloat.mul (snd e) w)
                        | None => s
                        end) a PrimFloat.zero.

(** [cosine_similarity(X[0:1], X[1:2])[0][0]] *)
Definition cosine_similarity (x y : sparse float) : float :=
  sparse_dot (normalize_l2 x) (normalize_l2 y).

(** The fitted attributes of a [TfidfVectorizer(stop_words='english')]. *)
Record TfidfVectorizer : Type := {
  vocabulary_ : option (list string);
  idf_ : option (list float)
}.

(** A vectorizer that has not been fitted. *)
Definition new_vectorizer : TfidfVectorizer :=
  {| vocabulary_ := None; idf_ := None |}.

Section Scorer.

(** The list behind [stop_words='english'] and the natural logarithm of
    numpy belong to the libraries, not to the program. *)
Variable stop_words : list string.
Variable np_log : float -> float.

(** The analyzer of the vectorizer: lower-case, tokenise, drop the stop
    words. *)
Definition analyze (doc : string) : list string :=
  List.filter (fun t => negb (mem_string t stop_words))
              (tokenize (map_string py_lower doc)).

(** Smoothed inverse document frequency of a column that [df] of the
    [n_samples] documents contain: [log((1 + n) / (1 + df)) + 1]. *)
Definition idf (n_samples df : nat) : float :=
  PrimFloat.add
    (np_log (PrimFloat.div (float_of_nat (1 + n_samples)) (float_of_nat (1 + df))))
    PrimFloat.one.

Definition scale (idfs : list float) (row : sparse nat) : sparse float :=
  map (fun e => (fst e, PrimFloat.mul (float_of_nat (snd e))
                                      (nth (fst e) idfs PrimFloat.zero))) row.

(** [vectorizer.fit_transform(raw_documents)]: the vocabulary and the idf
    weights are learnt again from [raw_documents] and stored in the
    object, over what an earlier fit had stored; an empty vocabulary is a
    [ValueError]. *)
Definition fit_transform (self : TfidfVectorizer) (raw_documents : list string)
  : result (TfidfVectorizer * list (sparse float)) :=
  let docs := map analyze raw_documents in
  let vocabulary := build_vocabulary docs in
  match vocabulary with
  | [] => Raise ValueError
  | _ :: _ =>
      let X := map (count_row vocabulary (first_seen docs)) docs in
      let idfs := map (fun j => idf (length raw_documents) (document_frequency j X))
                      (seq 0 (length vocabulary)) in
      Ok ({| vocabulary_ := Some vocabulary; idf_ := Some idfs |},
          map (fun row => normalize_l2 (scale idfs row)) X)
  end.

(** The loop of [check_similarity] over [df.iterrows()], with the one
    vectorizer object and the list [similarities] as its state. *)
Fixpoint similarity_loop (cols : DataFrame) (vectorizer : TfidfVectorizer)
    (iterrows : list (nat * Row)) (similarities : list float)
  : result (TfidfVectorizer * list float) :=
  match iterrows with
  | [] => Ok (vectorizer, similarities)
  | (index, row) :: rest =>
      if has_column col_Titulo cols && has_column col_Resumen cols then
        fitted <- fit_transform vectorizer [Titulo row; Resumen row] ;;
        let '(vectorizer', tfidf_matrix) := fitted in
        let similarity :=
          cosine_similarity (nth 0 tfidf_matrix []) (nth 1 tfidf_matrix []) in
        similarity_loop cols vectorizer' rest (similarities ++ [similarity])
      else Raise KeyError
  end.

Definition set_Similitud (r : Row) (s : float) : Row :=
  {| Titulo := Titulo r; Resumen := Resumen r; Fecha := Fecha r;
     Similitud := Some s |}.

(** The frame once the column holds [similarities], row by row. *)
Definition with_Similitud (df : DataFrame) (similarities : list float)
  : DataFrame :=
  {| columns := if has_column col_Similitud df then columns df
                else columns df ++ [col_Similitud];
     rows := map (fun irs => (fst (fst irs), set_Similitud (snd (fst irs)) (snd irs)))
                 (combine (rows df) similarities) |}.

(** [df['Similitud'] = similarities]: the list must have one value per
    row. *)
Definition setitem_Similitud (df : DataFrame) (similarities : list float)
  : result DataFrame :=
  if (length similarities =? length (rows df))%nat
  then Ok (with_Similitud df similarities)
  else Raise ValueError.

(** [df['Similitud'] < threshold] and [df['Similitud'] >= threshold] on
    one cell; a missing value compares false both ways. *)
Definition below (threshold : float) (r : Row) : bool :=
  match Similitud r with
  | Some s => PrimFloat.ltb s threshold
  | None => false
  end.

Definition at_least (threshold : float) (r : Row) : bool :=
  match Similitud r with
  | Some s => PrimFloat.leb threshold s
  | None => false
  end.

(** [check_similarity(df, threshold)].  The frame is changed in place:
    the first component is [df] as the caller sees it afterwards, then
    come [incoherent_records] and [coherent_records]. *)
Definition check_similarity (df : DataFrame) (threshold : float)
  : result (DataFrame * DataFrame * DataFrame) :=
  looped <- similarity_loop df new_vectorizer (rows df) [] ;;
  df' <- setitem_Similitud df (snd looped) ;;
  m <- column_mask col_Similitud (below threshold) df' ;;
  incoherent_records <- getitem_mask df' m ;;
  m' <- column_mask col_Similitud (at_least threshold) df' ;;
  coherent_records <- getitem_mask df' m' ;;
  Ok (df', incoherent_records, coherent_records).

(** Stated from the words of the design notes: the similarity of one
    record as a function of its title and its abstract, over a private
    corpus of these two documents, with a vectorizer that no other record
    uses. *)
Definition record_similarity (title abstract : string) : result float :=
  fitted <- fit_transform new_vectorizer [title; abstract] ;;
  Ok (cosine_similarity (nth 0 (snd fitted) []) (nth 1 (snd fitted) [])).

End Scorer.

(** ** The page: the block under [if uploaded_files:] *)

(** [s.endswith(suffix)] *)
Definition endswith (s suffix : string) : bool :=
  String.prefix (rev_string suffix) (rev_string s).

(** The loop over the uploads: each file goes to the reader of its
    extension, and each format has a frame of its own. *)
Fixpoint upload_loop (uploaded_files : list UploadedFile)
    (valid_ris_df valid_bib_df : DataFrame) (total_invalid : nat)
  : ui (DataFrame * DataFrame * nat) :=
  match uploaded_files with
  | [] => ui_ret (valid_ris_df, valid_bib_df, total_invalid)
  | file :: rest =>
      if endswith (name file) ".ris" then
        parsed <~ parse_ris [file] ;;
        upload_loop rest (pd_concat valid_ris_df (fst parsed)) valid_bib_df
                    (total_invalid + snd parsed)
      else if endswith (name file) ".bib" then
        parsed <~ parse_bib [file] ;;
        upload_loop rest valid_ris_df (pd_concat valid_bib_df (fst parsed))
                    (total_invalid + snd parsed)
      else upload_loop rest valid_ris_df valid_bib_df total_invalid
  end.

(** Lines 149-164: the frame handed to the later stages, and the number
    of invalid records. *)
Definition ingest (uploaded_files : list UploadedFile) : ui (DataFrame * nat) :=
  loaded <~ upload_loop uploaded_files (pd_DataFrame []) (pd_DataFrame []) 0 ;;
  let '(valid_ris_df, valid_bib_df, total_invalid) := loaded in
  ui_ret (reset_index (pd_concat valid_ris_df valid_bib_df), total_invalid).

(** Lines 173-181: the search for duplicates and their removal.  The
    result is [duplicates_df] and the new [combined_df]. *)
Definition resolve_duplicates (combined_df : DataFrame)
  : ui (DataFrame * DataFrame) :=
  duplicates_df <~ lift (find_duplicates combined_df) ;;
  emit (st_write "Buscando duplicados por Título y Resumen...") ;;;
  emit (st_write_count "Registros duplicados encontrados" (shape0 duplicates_df)) ;;;
  if negb (empty duplicates_df) then
    emit (st_write "Se encontraron los siguientes duplicados:") ;;;
    emit (st_dataframe duplicates_df) ;;;
    deduplicated <~ lift (drop_duplicates combined_df) ;;
    ui_ret (duplicates_df, deduplicated)
  else ui_ret (duplicates_df, combined_df).

(** 0.2, the threshold of the page. *)
Definition threshold_02 : float := 0x1.999999999999ap-3%float.

Section Page.

Variable stop_words : list string.
Variable np_log : float -> float.

(** Lines 208-213 *)
Definition select_and_show (coherent_df : DataFrame) : ui unit :=
  emit (st_write "Criterios de selección utilizados:") ;;;
  emit (st_write "- Los resúmenes deben contener las palabras clave 'portfolio' u 'optimization'.") ;;;
  emit (st_write "- La fecha debe estar entre 2017 y 2024.") ;;;
  selected_df <~ lift (apply_selection_criteria coherent_df) ;;
  emit (st_write_count "Registros que cumplen con los criterios" (shape0 selected_df)) ;;;
  if negb (empty selected_df) then
    emit (st_write "Los siguientes registros cumplen con los criterios establecidos:") ;;;
    emit (st_dataframe selected_df)
  else ui_ret tt.

(** Lines 185-213 *)
Definition score_and_select (combined_df : DataFrame) : ui unit :=
  emit (st_write "Archivos procesados (con Título, Resumen y Fecha):") ;;;
  emit (st_dataframe combined_df) ;;;
  emit (st_write "Verificando coherencia entre Título y Resumen...") ;;;
  scored <~ lift (check_similarity stop_words np_log combined_df threshold_02) ;;
  let '(_, incoherent_df, coherent_df) := scored in
  emit (st_write_count "Registros con baja coherencia entre Título y Resumen"
                       (shape0 incoherent_df)) ;;;
  (if negb (empty incoherent_df) then
     emit (st_write "Los siguientes registros tienen baja coherencia entre Título y Resumen:") ;;;
     emit (st_dataframe incoherent_df)
   else ui_ret tt) ;;;
  emit (st_write_count "Registros con alta coherencia entre Título y Resumen"
                       (shape0 coherent_df)) ;;;
  if negb (empty coherent_df) then
    emit (st_write "Los siguientes registros tienen alta coherencia entre Título y Resumen:") ;;;
    emit (st_dataframe coherent_df) ;;;
    select_and_show coherent_df
  else ui_ret tt.

(** Lines 148-213 *)
Definition main_flow (uploaded_files : list UploadedFile) : ui unit :=
  match uploaded_files with
  | [] => ui_ret tt
  | _ :: _ =>
      ingested <~ ingest uploaded_files ;;
      let '(combined_df, total_invalid) := ingested in
      let total_records := (shape0 combined_df + total_invalid)%nat in
      emit (st_write_count "Total de registros subidos" total_records) ;;;
      emit (st_write_count "Registros sin Título, Resumen o Fecha" total_invalid) ;;;
      let valid_count := shape0 combined_df in
      emit (st_write_count "Registros con Título, Resumen y Fecha" valid_count) ;;;
      resolved <~ resolve_duplicates combined_df ;;
      let combined_df := snd resolved in
      emit (st_write_count
              "Registros con Título, Resumen y Fecha después de eliminar duplicados"
              (shape0 combined_df)) ;;;
      if negb (empty combined_df) then score_and_select combined_df
      else ui_ret tt
  end.

End Page.

(** ** Vocabulary of the statements *)

(** The three fields are there and none is empty: the test
    [if title and abstract and year]. *)
Definition complete (r : RawRecord) : bool :=
  truthy (r !! "title") && truthy (r !! "abstract") && truthy (r !! "year").

(** A complete record whose year [int] refuses. *)
Definition bad_year (r : RawRecord) : bool :=
  complete r && match Py.int (field (r !! "year")) with
                | Some _ => false
                | None => true
                end.

(** The row that a complete record with a convertible year becomes. *)
Definition to_row (r : RawRecord) : Row :=
  new_row (field (r !! "title")) (field (r !! "abstract"))
          (default 0%Z (Py.int (field (r !! "year")))).

(** A field that is present and not empty. *)
Definition nonempty_field (r : RawRecord) (k : string) : Prop :=
  exists s, r !! k = Some s /\ s <> "".

(** A year that is present and that [int] converts. *)
Definition integer_year (r : RawRecord) : Prop :=
  exists y z, r !! "year" = Some y /\ Py.int y = Some z.

(** Stated from the words of the error taxonomy: a record is kept when it
    is complete and its year converts, and every other record, a record
    with an unconvertible year included, is dropped and tallied. *)
Definition lenient_valid (records : list RawRecord) : list Row :=
  map to_row (List.filter (fun r => complete r && negb (bad_year r)) records).

Definition lenient_invalid (records : list RawRecord) : list RawRecord :=
  List.filter (fun r => negb (complete r && negb (bad_year r))) records.

Definition bad_year_is_tallied (file : UploadedFile) : Prop :=
  forall records, payload file = Parsed records ->
    snd (parse_ris [file])
    = Ok (pd_DataFrame (lenient_valid records), length (lenient_invalid records)).

(** A record with the three fields, for the examples. *)
Definition entry (title abstract year : string) : RawRecord :=
  <["title" := title]> (<["abstract" := abstract]> (<["year" := year]> ∅)).

(** *** The Aggregator *)

Definition is_ris (f : UploadedFile) : bool := endswith (name f) ".ris".

Definition is_bib (f : UploadedFile) : bool :=
  negb (is_ris f) && endswith (name f) ".bib".

(** A file that the page can decode, or that it never opens. *)
Definition readable (f : UploadedFile) : bool :=
  match payload f with
  | Undecodable => negb (is_ris f || is_bib f)
  | _ => true
  end.

Definition parsed_records (f : UploadedFile) : list RawRecord :=
  match payload f with
  | Parsed records => records
  | _ => []
  end.

(** The entries of a .bib file that are read before [int(year)] raises. *)
Fixpoint before_bad_year (entries : list RawRecord) : list RawRecord :=
  match entries with
  | [] => []
  | e :: rest => if bad_year e then [] else e :: before_bad_year rest
  end.

(** The records of a file that count: all of them for a .ris file unless
    one has an unconvertible year, and then none; those before the first
    unconvertible year for a .bib file. *)
Definition counted (f : UploadedFile) : list RawRecord :=
  if is_ris f then
    if existsb bad_year (parsed_records f) then [] else parsed_records f
  else if is_bib f then before_bad_year (parsed_records f)
  else [].

(** The rows that a file contributes, in the order of its parser. *)
Definition contribution (f : UploadedFile) : list Row :=
  map to_row (List.filter complete (counted f)).

(** What a file adds to the invalid count. *)
Definition tally (f : UploadedFile) : nat :=
  length (List.filter (fun r => negb (complete r)) (counted f)).

(** The error that a file makes the page show, if any. *)
Definition file_errors (f : UploadedFile) : list ui_event :=
  let text := if is_ris f then ris_error else bib_error in
  if is_ris f || is_bib f then
    match payload f with
    | Undecodable => []
    | Malformed => [st_error text ParserError]
    | Parsed records =>
        if existsb bad_year records then [st_error text ValueError] else []
    end
  else [].

(** The valid records of a batch as the page collects them: one frame
    per format, the .ris frame first. *)
Definition collected (files : list UploadedFile) : list Row :=
  flat_map contribution (List.filter is_ris files)
  ++ flat_map contribution (List.filter is_bib files).

(** What the page writes when no valid record is left. *)
Definition empty_report (total_invalid : nat) : list ui_event :=
  [st_write_count "Total de registros subidos" total_invalid;
   st_write_count "Registros sin Título, Resumen o Fecha" total_invalid;
   st_write_count "Registros con Título, Resumen y Fecha" 0;
   st_write "Buscando duplicados por Título y Resumen...";
   st_write_count "Registros duplicados encontrados" 0;
   st_write_count
     "Registros con Título, Resumen y Fecha después de eliminar duplicados" 0].

(** [l] is the content of [df], whose columns are those of a frame built
    from [l]. *)
Definition frame_of (l : list Row) (df : DataFrame) : Prop :=
  map snd (rows df) = l /\ columns df = columns (pd_DataFrame l).

(** Stated from the words of the data model: the collection lists the
    contributions of the files in arrival order, whatever their format. *)
Definition in_arrival_order (files : list UploadedFile) : Prop :=
  forall df total_invalid,
    snd (ingest files) = Ok (df, total_invalid) ->
    map snd (rows df) = flat_map contribution files.

(** Stated from the words of the error design: with no valid record the
    page ends normally and every counter that it writes is zero. *)
Definition reports_zero_throughout (files : list UploadedFile) : Prop :=
  forall stop_words np_log log df total_invalid,
    ingest files = (log, Ok (df, total_invalid)) ->
    rows df = [] ->
    snd (main_flow stop_words np_log files) = Ok tt
    /\ forall text n,
         In (st_write_count text n) (fst (main_flow stop_words np_log files)) ->
         n = 0%nat.

(** *** The Duplicate Resolver *)

Definition row_key (ir : nat * Row) : string * string := key (snd ir).

Definition key_dec (k1 k2 : string * string) : {k1 = k2} + {k1 <> k2} :=
  prod_eq_dec k1 k2.

(** How often a key occurs among the rows. *)
Definition times (k : string * string) (l : list (nat * Row)) : nat :=
  count_occ key_dec (map row_key l) k.

(** The rows whose key was not met before, [seen] being the keys met so
    far: what [keep='first'] leaves. *)
Fixpoint first_occurrences (seen : list (string * string))
    (l : list (nat * Row)) : list (nat * Row) :=
  match l with
  | [] => []
  | ir :: l' =>
      if existsb (key_eqb (row_key ir)) seen
      then first_occurrences (row_key ir :: seen) l'
      else ir :: first_occurrences (row_key ir :: seen) l'
  end.

(** The frame has the two columns of the key. *)
Definition keyed (df : DataFrame) : bool :=
  has_column col_Titulo df && has_column col_Resumen df.

(** *** The Selection Filter *)

(** [word] occurs in [s] when the case of the letters is ignored. *)
Definition mentions (word s : string) : Prop :=
  exists pre mid post,
    s = String.append pre (String.append mid post)
    /\ map_string lower_ascii mid = word.

(** The frame has the two columns that the filter reads. *)
Definition selectable (df : DataFrame) : bool :=
  has_column col_Resumen df && has_column col_Fecha df.

(** *** The Coherence Scorer *)

(** A function that may raise, mapped over a list from left to right. *)
Fixpoint map_result {A B} (f : A -> result B) (l : list A) : result (list B) :=
  match l with
  | [] => Ok []
  | x :: l' => y <- f x ;; ys <- map_result f l' ;; Ok (y :: ys)
  end.

Definition result_map {A B} (f : A -> B) (r : result A) : result B :=
  match r with
  | Ok a => Ok (f a)
  | Raise e => Raise e
  end.

(** Stated from the words of the design notes: the score of a row is a
    function of its title and its abstract alone. *)
Definition score (stop_words : list string) (np_log : float -> float)
    (ir : nat * Row) : result float :=
  record_similarity stop_words np_log (Titulo (snd ir)) (Resumen (snd ir)).

(** A float that is not NaN. *)
Definition is_number (x : float) : bool := negb (PrimFloat.is_nan x).

(** Every row of the frame carries a similarity, and none is NaN. *)
Definition scored_with_numbers (df : DataFrame) : bool :=
  forallb (fun ir => match Similitud (snd ir) with
                     | Some s => is_number s
                     | None => false
                     end) (rows df).

(** A float between 0 and 1. *)
Definition between_0_and_1 (x : float) : bool :=
  PrimFloat.leb PrimFloat.zero x && PrimFloat.leb x PrimFloat.one.

(** What the statements ask of the logarithm of the library: at the two
    arguments that a corpus of two documents gives it, 3/2 and 3/3, its
    value lies between 0 and 1. *)
Definition log_of_pair_in_range (np_log : float -> float) : bool :=
  between_0_and_1 (np_log 0x1.8p+0%float)
  && between_0_and_1 (np_log PrimFloat.one).

(** *** Magnitudes of binary64 numbers *)

(** The magnitude of the number [m * 2^e]: the [k] for which the number
    lies in [[2^(k-1), 2^k)]. *)
Definition magnitude (m : positive) (e : Z) : Z := (Zpos (digits2_pos m) + e)%Z.

(** The result of rounding a number that is not negative and has
    magnitude [M] ([nonzero] tells that it is not 0): it is +0 only
    below the least magnitude of the format, infinite only above the
    greatest, never NaN, and otherwise keeps its magnitude or is the next
    power of two. *)
Definition rounded_near (M : Z) (nonzero : bool) (r : spec_float) : Prop :=
  match r with
  | S754_zero s => s = false /\ (nonzero = true -> (M <= -1074)%Z)
  | S754_finite s m e => s = false /\ (M <= magnitude m e <= Z.max M (-1074) + 1)%Z
  | S754_infinity s => s = false /\ (1024 <= M)%Z
  | S754_nan => False
  end.

(** The same when only a bound [B] on the magnitude is known. *)
Definition rounded_below (B : Z) (r : spec_float) : Prop :=
  match r with
  | S754_zero s => s = false
  | S754_finite s m e => s = false /\ (magnitude m e <= Z.max B (-1074) + 1)%Z
  | S754_infinity s => s = false /\ (1024 <= B)%Z
  | S754_nan => False
  end.

(** +0, a positive number or +infinity. *)
Definition not_negative (x : spec_float) : Prop :=
  match x with
  | S754_zero false | S754_infinity false | S754_finite false _ _ => True
  | _ => False
  end.

(** +0 or a positive number below [2^hi]. *)
Definition finite_below (hi : Z) (x : spec_float) : Prop :=
  match x with
  | S754_zero false => True
  | S754_finite false m e => (magnitude m e <= hi)%Z
  | _ => False
  end.

(** +0, or a number that is at least [2^(lo-1)], +infinity included. *)
Definition zero_or_above (lo : Z) (x : spec_float) : Prop :=
  match x with
  | S754_zero false | S754_infinity false => True
  | S754_finite false m e => (lo <= magnitude m e)%Z
  | _ => False
  end.

(** A number that is at least [2^(lo-1)], +infinity included. *)
Definition above (lo : Z) (x : spec_float) : Prop :=
  match x with
  | S754_infinity false => True
  | S754_finite false m e => (lo <= magnitude m e)%Z
  | _ => False
  end.

(** The weight of a term in a row before normalisation: +0, or a number
    from 1 up to [2^68]. *)
Definition weight (x : spec_float) : Prop :=
  finite_below 68 x /\ zero_or_above 1 x.

(** Some of the words of the English stop list of the vectorizer. *)
Definition some_stop_words : list string :=
  ["a"; "an"; "and"; "for"; "in"; "is"; "of"; "on"; "the"; "this"; "to";
   "we"; "with"].

(** The logarithm, rounded to binary64, at the two arguments that a
    corpus of two documents gives it: 3/2 and 3/3. *)
Definition np_log_of_pair (x : float) : float :=
  if PrimFloat.eqb x 0x1.8p+0%float then 0x1.9f323ecbf984cp-2%float
  else if PrimFloat.eqb x PrimFloat.one then PrimFloat.zero
  else PrimFloat.nan.

(** The title or the abstract of the row has a term. *)
Definition has_terms (stop_words : list string) (ir : nat * Row) : bool :=
  match analyze stop_words (Titulo (snd ir)),
        analyze stop_words (Resumen (snd ir)) with
  | [], [] => false
  | _, _ => true
  end.

(** The numbers that the page writes, in the order of the page. *)
Definition counters (log : list ui_event) : list nat :=
  flat_map (fun ev => match ev with
                      | st_write_count _ n => [n]
                      | _ => []
                      end) log.

(** The three records of the end-to-end scenario. *)
Definition scenario : UploadedFile :=
  {| name := "scenario.ris";
     payload :=
       Parsed [entry "Portfolio Optimization Using AI"
                 "This paper studies portfolio optimization with deep learning." "2021";
               entry "Portfolio Optimization Using AI"
                 "This paper studies portfolio optimization with deep learning." "2021";
               entry "Unrelated Topic"
                 "Completely different subject matter with no overlap." "2015"] |}.

(** ** The year view of the page *)

(** Insertion into an increasing list; [sorted] sorts as Python's
    [sorted] does on integers. *)
Fixpoint insert_sorted (y : Z) (l : list Z) : list Z :=
  match l with
  | [] => [y]
  | z :: l' => if (y <=? z)%Z then y :: l else z :: insert_sorted y l'
  end.

Definition sorted (l : list Z) : list Z := fold_right insert_sorted [] l.

(** [Series.unique()]: the values in order of first appearance. *)
Fixpoint unique (l : list Z) : list Z :=
  match l with
  | [] => []
  | y :: l' => y :: List.filter (fun z => negb (z =? y)%Z) (unique l')
  end.

(** [sorted(selected_df['Fecha'].unique())] *)
Definition unique_years (selected_df : DataFrame) : result (list Z) :=
  if has_column col_Fecha selected_df
  then Ok (sorted (unique (map (fun ir => Fecha (snd ir)) (rows selected_df))))
  else Raise KeyError.

(** [st.selectbox(label, options)]: the option that the user has picked,
    the first one until the user picks another; [None] when there is no
    option. *)
Definition selectbox (options : list Z) (picked : nat) : option Z :=
  nth_error options picked.

(** [selected_df['Fecha'] == selected_year] on one cell. *)
Definition year_is (selected_year : option Z) (r : Row) : bool :=
  match selected_year with
  | Some y => (Fecha r =? y)%Z
  | None => false
  end.

(** [selected_df[selected_df['Fecha'] == selected_year]] *)
Definition filter_by_year (selected_df : DataFrame) (selected_year : option Z)
  : result DataFrame :=
  m <- column_mask col_Fecha (year_is selected_year) selected_df ;;
  getitem_mask selected_df m.

(** ** Vocabulary of the further statements *)

(** The bytes of the file are UTF-8. *)
Definition decodable (f : UploadedFile) : bool :=
  match payload f with
  | Undecodable => false
  | _ => true
  end.

(** What [parse_ris] and [parse_bib] take from a file, whatever its name:
    the records that count, the rows they give and the records that they
    tally. *)
Definition read_as_ris (f : UploadedFile) : list RawRecord :=
  if existsb bad_year (parsed_records f) then [] else parsed_records f.

Definition read_as_bib (f : UploadedFile) : list RawRecord :=
  before_bad_year (parsed_records f).

Definition kept (records : list RawRecord) : list Row :=
  map to_row (List.filter complete records).

Definition rejected (records : list RawRecord) : list RawRecord :=
  List.filter (fun r => negb (complete r)) records.

(** The error that reading the file shows, [text] being the reader's own
    message. *)
Definition reader_errors (text : string) (f : UploadedFile) : list ui_event :=
  match payload f with
  | Undecodable => []
  | Malformed => [st_error text ParserError]
  | Parsed records =>
      if existsb bad_year records then [st_error text ValueError] else []
  end.

(** The name of the file ends in one of the two extensions that the page
    looks for. *)
Definition known_format (f : UploadedFile) : bool := is_ris f || is_bib f.

(** ** The model on examples *)

Example int_plain : Py.int "2021" = Some 2021%Z.
Proof. reflexivity. Qed.

Example int_padded :
  Py.int (String.append " 2021" (String (ascii_of_nat 10) "")) = Some 2021%Z.
Proof. reflexivity. Qed.

Example int_signed : Py.int "-0_7" = Some (-7)%Z.
Proof. reflexivity. Qed.

Example int_date : Py.int "2021/05/01/" = None.
Proof. reflexivity. Qed.

Example int_decimal_point : Py.int "2021.0" = None.
Proof. reflexivity. Qed.

Example int_underscores :
  Py.int "1__0" = None /\ Py.int "_1" = None /\ Py.int "1_" = None.
Proof. repeat split; reflexivity. Qed.

Example int_blank : Py.int " " = None /\ Py.int "+" = None /\ Py.int "+ 1" = None.
Proof. repeat split; reflexivity. Qed.

Example tokenize_runs :
  tokenize "a bc d_e f-gh i'll 3d x" = ["bc"; "d_e"; "gh"; "ll"; "3d"].
Proof. reflexivity. Qed.

Example analyze_abstract :
  analyze some_stop_words
    "This paper studies portfolio optimization with deep learning."
  = ["paper"; "studies"; "portfolio"; "optimization"; "deep"; "learning"].
Proof. reflexivity. Qed.

Example contains_ignores_case :
  str_contains_nocase "portfolio" "A PortFolio view" = true
  /\ str_contains_nocase "optimization" "optimisation" = false.
Proof. split; reflexivity. Qed.

(** A year that [int] refuses in a .bib file: the entries before it stay,
    the entry itself and those after it are neither kept nor tallied. *)
Example bib_stops_at_bad_year :
  parse_bib [ {| name := "refs.bib";
                 payload := Parsed [entry "Deep hedging" "We hedge a portfolio." "2021";
                                    <["title" := "No abstract"]> ∅;
                                    entry "Robust control" "An optimization view." "in press";
                                    entry "Late entry" "Another portfolio." "2022"] |} ]
  = ([st_error bib_error ValueError],
     Ok (pd_DataFrame [new_row "Deep hedging" "We hedge a portfolio." 2021], 1%nat)).
Proof. reflexivity. Qed.

(** Keys are compared as they are written. *)
Example keys_are_case_sensitive :
  snd (resolve_duplicates
         (pd_DataFrame [new_row "Deep Hedging" "We hedge a portfolio." 2021;
                        new_row "Deep hedging" "We hedge a portfolio." 2021]))
  = Ok ({| columns := [col_Titulo; col_Resumen; col_Fecha]; rows := [] |},
        pd_DataFrame [new_row "Deep Hedging" "We hedge a portfolio." 2021;
                      new_row "Deep hedging" "We hedge a portfolio." 2021]).
Proof. reflexivity. Qed.

(** The end-to-end scenario: 3 uploaded, 0 invalid, 3 valid, 2 duplicates,
    2 records left, 1 incoherent (the record without a common term, at
    similarity 0), 1 coherent, 1 selected. *)
Example scenario_counters :
  counters (fst (main_flow some_stop_words np_log_of_pair [scenario]))
  = [3; 0; 3; 2; 2; 1; 1; 1]%nat
  /\ snd (main_flow some_stop_words np_log_of_pair [scenario]) = Ok tt.
Proof. split; vm_compute; reflexivity. Qed.

Example scenario_unrelated_record :
  record_similarity some_stop_words np_log_of_pair "Unrelated Topic"
    "Completely different subject matter with no overlap."
  = Ok PrimFloat.zero.
Proof. reflexivity. Qed.

(** The sums of a row follow the order in which the terms were first
    seen: with the columns in alphabetical order the last bit of this
    score would be 4. *)
Lemma score_in_storage_order :
  record_similarity [] np_log_of_pair "risk bond deep" "risk"
  = Ok 0x1.cc390f5a68623p-2%float.
Proof. vm_compute. reflexivity. Qed.

(** For the same reason a text compared with itself need not score 1
    exactly. *)
Lemma score_of_identical_texts :
  record_similarity [] np_log_of_pair "risk risk bond deep alpha"
                    "risk risk bond deep alpha"
  = Ok 0x1.0000000000002p+0%float.
Proof. vm_compute. reflexivity. Qed.

(** ** The Record Normalizer *)

Lemma truthy_nonempty (r : RawRecord) (k : string) :
  truthy (r !! k) = true <-> nonempty_field r k.
Proof.
  unfold nonempty_field. destruct (r !! k) as [[|c s]|]; simpl; split.
  - discriminate.
  - intros (s & Hs & Hne). inversion Hs; subst. congruence.
  - intros _. eexists. split; [reflexivity | discriminate].
  - reflexivity.
  - discriminate.
  - intros (s & Hs & _). discriminate.
Qed.

Lemma int_empty : Py.int "" = None.
Proof. reflexivity. Qed.

Lemma to_row_converted (r : RawRecord) (y : Z) :
  Py.int (field (r !! "year")) = Some y ->
  to_row r = new_row (field (r !! "title")) (field (r !! "abstract")) y.
Proof. intros H. unfold to_row. now rewrite H. Qed.

(** What the loop of [filter_records] returns, from any state: it raises
    exactly when some record is complete with an unconvertible year, and
    otherwise splits the records, in order, by the completeness test. *)
Lemma filter_records_from_spec (records : list RawRecord) :
  forall valid invalid,
    filter_records_from records valid invalid
    = if existsb bad_year records then Raise ValueError
      else Ok (valid ++ map to_row (List.filter complete records),
               invalid ++ List.filter (fun r => negb (complete r)) records).
Proof.
  induction records as [|r rest IH]; intros valid invalid.
  - simpl. now rewrite !app_nil_r.
  - cbn [filter_records_from existsb List.filter map].
    change (truthy (r !! "title") && truthy (r !! "abstract") && truthy (r !! "year"))
      with (complete r).
    assert (Hb : bad_year r = complete r && match Py.int (field (r !! "year")) with
                                            | Some _ => false
                                            | None => true
                                            end) by reflexivity.
    rewrite Hb.
    destruct (complete r) eqn:Hc; cbn [andb negb orb].
    + destruct (Py.int (field (r !! "year"))) as [y|] eqn:Hy; cbn [orb default].
      * rewrite IH. destruct (existsb bad_year rest); [reflexivity|].
        cbn [map]. rewrite (to_row_converted r y Hy).
        now rewrite <- app_assoc.
      * reflexivity.
    + rewrite IH. destruct (existsb bad_year rest); [reflexivity|].
      now rewrite <- !app_assoc.
Qed.

Lemma filter_records_spec (records : list RawRecord) :
  filter_records records
  = if existsb bad_year records then Raise ValueError
    else Ok (map to_row (List.filter complete records),
             List.filter (fun r => negb (complete r)) records).
Proof. unfold filter_records. now rewrite filter_records_from_spec. Qed.

(** Normalizer completeness: every record is either kept or tallied. *)
Lemma filter_records_counts (records : list RawRecord) valid invalid :
  filter_records records = Ok (valid, invalid) ->
  (length valid + length invalid = length records)%nat.
Proof.
  rewrite filter_records_spec. destruct (existsb bad_year records); [discriminate|].
  intros H. inversion H; subst. rewrite length_map.
  clear H. induction records as [|r rest IH]; simpl; [reflexivity|].
  destruct (complete r); simpl; lia.
Qed.

Lemma incomplete_fails (r : RawRecord) :
  complete r = false ->
  ~ nonempty_field r "title" \/ ~ nonempty_field r "abstract" \/ ~ integer_year r.
Proof.
  unfold complete. intros H.
  destruct (truthy (r !! "title")) eqn:Ht.
  - destruct (truthy (r !! "abstract")) eqn:Ha.
    + right; right. simpl in H. intros (y & z & Hy & Hz).
      rewrite Hy in H. destruct y; simpl in H; [|discriminate].
      rewrite int_empty in Hz. discriminate.
    + right; left. rewrite <- truthy_nonempty. congruence.
  - left. rewrite <- truthy_nonempty. congruence.
Qed.

Lemma complete_fields (r : RawRecord) :
  complete r = true ->
  r !! "title" = Some (field (r !! "title")) /\ field (r !! "title") <> ""
  /\ r !! "abstract" = Some (field (r !! "abstract"))
  /\ field (r !! "abstract") <> ""
  /\ r !! "year" = Some (field (r !! "year")).
Proof.
  unfold complete. intros H.
  apply andb_prop in H as [H Hy]. apply andb_prop in H as [Ht Ha].
  destruct (r !! "title") as [[|? ?]|]; try discriminate.
  destruct (r !! "abstract") as [[|? ?]|]; try discriminate.
  destruct (r !! "year") as [[|? ?]|]; try discriminate.
  simpl. repeat split; discriminate.
Qed.

(** C7 (Normalizer validity).  [filter_records] either raises
    [ValueError], which happens exactly when some record is complete with
    a year that [int] refuses, or returns the two lists.  In the second
    case every row of [valid] has a non-empty title, a non-empty abstract
    and a year that is the integer read from the record it comes from,
    and every record of [invalid] is a record of the input that lacks a
    non-empty title, or a non-empty abstract, or an integer year. *)
Theorem normalizer_validity (records : list RawRecord) :
  match filter_records records with
  | Raise e => e = ValueError /\ existsb bad_year records = true
  | Ok (valid, invalid) =>
      existsb bad_year records = false
      /\ (forall row, In row valid ->
            Titulo row <> "" /\ Resumen row <> ""
            /\ exists r y, In r records
                 /\ r !! "title" = Some (Titulo row)
                 /\ r !! "abstract" = Some (Resumen row)
                 /\ r !! "year" = Some y /\ Py.int y = Some (Fecha row))
      /\ (forall r, In r invalid ->
            In r records
            /\ (~ nonempty_field r "title" \/ ~ nonempty_field r "abstract"
                \/ ~ integer_year r))
  end.
Proof.
  rewrite filter_records_spec.
  destruct (existsb bad_year records) eqn:Hbad; [now split|].
  split; [reflexivity|]. split.
  - intros row Hrow. apply in_map_iff in Hrow as (r & <- & Hr).
    apply filter_In in Hr as [Hin Hc].
    destruct (complete_fields r Hc) as (Ht & Htne & Ha & Hane & Hy).
    assert (Hconv : exists z, Py.int (field (r !! "year")) = Some z).
    { destruct (Py.int (field (r !! "year"))) as [z|] eqn:Hz; [eauto|].
      assert (Hb : bad_year r = true) by (unfold bad_year; now rewrite Hc, Hz).
      assert (existsb bad_year records = true)
        by (apply existsb_exists; eauto).
      congruence. }
    destruct Hconv as [z Hz]. rewrite (to_row_converted r z Hz). simpl.
    repeat split; try assumption.
    exists r, (field (r !! "year")). repeat split; assumption.
  - intros r Hr. apply filter_In in Hr as [Hin Hc].
    split; [assumption|]. apply incomplete_fails.
    now destruct (complete r).
Qed.

(** The readers on one parsed file. *)
Lemma parse_ris_from_parsed (nm : string) (records : list RawRecord)
    (rest : list UploadedFile) valid invalid :
  parse_ris_from ({| name := nm; payload := Parsed records |} :: rest) valid invalid
  = if existsb bad_year records
    then (emit (st_error ris_error ValueError) ;;;
          parse_ris_from rest valid invalid)
    else parse_ris_from rest
           (valid ++ map to_row (List.filter complete records))
           (invalid ++ List.filter (fun r => negb (complete r)) records).
Proof.
  cbn [parse_ris_from payload]. rewrite filter_records_spec.
  now destruct (existsb bad_year records).
Qed.

(** C1, as the program has it.  A record of a .ris file that has a
    non-empty title, abstract and year but whose year is not
    integer-convertible makes the whole file contribute no valid record
    and nothing to the invalid count: the error is shown and the reader
    goes on with the files that remain.  A file without such a record
    contributes its complete records in order, and its other records are
    tallied. *)
Theorem unconvertible_year_drops_ris_file (nm : string)
    (records : list RawRecord) (rest : list UploadedFile)
    (valid : list Row) (invalid : list RawRecord) :
  let file := {| name := nm; payload := Parsed records |} in
  parse_ris_from (file :: rest) valid invalid
  = (if existsb bad_year records
     then (emit (st_error ris_error ValueError) ;;;
           parse_ris_from rest valid invalid)
     else parse_ris_from rest
            (valid ++ map to_row (List.filter complete records))
            (invalid ++ List.filter (fun r => negb (complete r)) records))
  /\ parse_ris [file]
     = (if existsb bad_year records
        then ([st_error ris_error ValueError], Ok (pd_DataFrame [], 0%nat))
        else ([], Ok (pd_DataFrame (map to_row (List.filter complete records)),
                      length (List.filter (fun r => negb (complete r)) records)))).
Proof.
  intros file. split; [apply parse_ris_from_parsed|].
  unfold parse_ris, file. rewrite parse_ris_from_parsed.
  now destruct (existsb bad_year records).
Qed.

(** C1, as stated, fails: the second record of this .ris file carries the
    year "2021/05/01/"; the first, well-formed record is lost with it and
    nothing is tallied. *)
Lemma bad_year_is_not_tallied :
  ~ bad_year_is_tallied
      {| name := "refs.ris";
         payload := Parsed [entry "Deep hedging" "We hedge a portfolio." "2021";
                            entry "Robust control" "An optimization view." "2021/05/01/"] |}.
Proof.
  intros H. specialize (H _ eq_refl). vm_compute in H. discriminate H.
Qed.

(** ** The Aggregator *)

Lemma ui_bind_ok {A B} (log : list ui_event) (a : A) (f : A -> ui B) :
  ui_bind (log, Ok a) f = (log ++ fst (f a), snd (f a)).
Proof. unfold ui_bind. now destruct (f a). Qed.

Lemma map_snd_enumerate {A} (l : list A) (s : nat) :
  map snd (combine (seq s (length l)) l) = l.
Proof.
  revert s. induction l as [|x l IH]; intros s; simpl; [reflexivity|].
  now rewrite IH.
Qed.

Lemma frame_of_new (l : list Row) : frame_of l (pd_DataFrame l).
Proof. split; [apply map_snd_enumerate | reflexivity]. Qed.

Lemma frame_of_concat (l l' : list Row) (a b : DataFrame) :
  frame_of l a -> frame_of l' b -> frame_of (l ++ l') (pd_concat a b).
Proof.
  intros [Ha Hca] [Hb Hcb]. split.
  - simpl. now rewrite map_app, Ha, Hb.
  - unfold pd_concat, has_column. simpl. rewrite Hca, Hcb.
    destruct l, l'; reflexivity.
Qed.

Lemma frame_of_reset (l : list Row) (df : DataFrame) :
  frame_of l df -> reset_index df = pd_DataFrame l.
Proof.
  intros [<- Hc]. unfold reset_index, pd_DataFrame. rewrite Hc. simpl.
  now rewrite length_map.
Qed.

Lemma parse_bib_entries_spec (entries : list RawRecord) :
  forall valid invalid,
    parse_bib_entries entries valid invalid
    = (valid ++ map to_row (List.filter complete (before_bad_year entries)),
       invalid ++ List.filter (fun r => negb (complete r)) (before_bad_year entries),
       if existsb bad_year entries then Some ValueError else None).
Proof.
  induction entries as [|r rest IH]; intros valid invalid.
  - simpl. now rewrite !app_nil_r.
  - cbn [parse_bib_entries existsb before_bad_year].
    change (truthy (r !! "title") && truthy (r !! "abstract") && truthy (r !! "year"))
      with (complete r).
    assert (Hb : bad_year r = complete r && match Py.int (field (r !! "year")) with
                                            | Some _ => false
                                            | None => true
                                            end) by reflexivity.
    rewrite Hb.
    destruct (complete r) eqn:Hc; cbn [andb negb orb].
    + destruct (Py.int (field (r !! "year"))) as [y|] eqn:Hy; cbn [orb].
      * rewrite IH. cbn [List.filter]. rewrite Hc. cbn [map negb].
        rewrite (to_row_converted r y Hy). now rewrite <- app_assoc.
      * simpl. now rewrite !app_nil_r.
    + rewrite IH. cbn [List.filter]. rewrite Hc. cbn [negb].
      now rewrite <- app_assoc.
Qed.

(** One readable .ris file, read on its own. *)
Lemma parse_ris_single (f : UploadedFile) :
  is_ris f = true -> readable f = true ->
  parse_ris [f] = (file_errors f, Ok (pd_DataFrame (contribution f), tally f)).
Proof.
  intros Hris Hread. unfold contribution, tally, counted, file_errors, parsed_records.
  unfold readable in Hread. rewrite Hris in *. destruct f as [nm [| |records]]; simpl in *.
  - discriminate.
  - reflexivity.
  - change (parse_ris [{| name := nm; payload := Parsed records |}])
      with (ui_bind (parse_ris_from [{| name := nm; payload := Parsed records |}] [] [])
              (fun lists => let '(v, i) := lists in ui_ret (pd_DataFrame v, length i))).
    rewrite parse_ris_from_parsed.
    now destruct (existsb bad_year records).
Qed.

(** One readable .bib file, read on its own. *)
Lemma parse_bib_single (f : UploadedFile) :
  is_bib f = true -> readable f = true ->
  parse_bib [f] = (file_errors f, Ok (pd_DataFrame (contribution f), tally f)).
Proof.
  intros Hbib Hread. unfold contribution, tally, counted, file_errors, parsed_records.
  unfold readable in Hread. rewrite Hbib in *.
  assert (Hris : is_ris f = false).
  { unfold is_bib in Hbib. now destruct (is_ris f). }
  rewrite Hris in *. destruct f as [nm [| |records]]; simpl in *.
  - discriminate.
  - reflexivity.
  - unfold parse_bib. cbn [parse_bib_from payload].
    rewrite parse_bib_entries_spec. simpl.
    now destruct (existsb bad_year records).
Qed.

(** The loop over the uploads, from any state of its three variables. *)
Lemma upload_loop_spec (files : list UploadedFile) :
  forallb readable files = true ->
  forall lr lb valid_ris_df valid_bib_df total_invalid,
    frame_of lr valid_ris_df -> frame_of lb valid_bib_df ->
    exists ris_df bib_df,
      upload_loop files valid_ris_df valid_bib_df total_invalid
      = (flat_map file_errors files,
         Ok (ris_df, bib_df, (total_invalid + list_sum (map tally files))%nat))
      /\ frame_of (lr ++ flat_map contribution (List.filter is_ris files)) ris_df
      /\ frame_of (lb ++ flat_map contribution (List.filter is_bib files)) bib_df.
Proof.
  induction files as [|f rest IH]; intros Hread lr lb r b n Hr Hb.
  - exists r, b. simpl. rewrite !app_nil_r, Nat.add_0_r. split; [reflexivity | split; assumption].
  - simpl in Hread. apply andb_prop in Hread as [Hf Hrest].
    cbn [upload_loop List.filter flat_map map list_sum].
    fold (is_ris f). destruct (is_ris f) eqn:Hris.
    + assert (Hbib : is_bib f = false) by (unfold is_bib; now rewrite Hris).
      rewrite Hbib. rewrite (parse_ris_single f Hris Hf), ui_bind_ok.
      cbn [fst snd].
      destruct (IH Hrest (lr ++ contribution f) lb
                  (pd_concat r (pd_DataFrame (contribution f))) b
                  (n + tally f)%nat) as (r' & b' & Heq & Hr' & Hb').
      { apply frame_of_concat; [assumption | apply frame_of_new]. }
      { assumption. }
      exists r', b'. rewrite Heq. cbn [fst snd flat_map].
      rewrite <- app_assoc in Hr'.
      split; [|split; assumption]. do 3 f_equal. simpl. lia.
    + assert (Hbib : is_bib f = endswith (name f) ".bib")
        by (unfold is_bib; now rewrite Hris).
      rewrite <- Hbib. destruct (is_bib f) eqn:Hb'.
      * rewrite (parse_bib_single f Hb' Hf), ui_bind_ok. cbn [fst snd].
        destruct (IH Hrest lr (lb ++ contribution f) r
                    (pd_concat b (pd_DataFrame (contribution f)))
                    (n + tally f)%nat) as (r' & b' & Heq & Hr' & Hb'').
        { assumption. }
        { apply frame_of_concat; [assumption | apply frame_of_new]. }
        exists r', b'. rewrite Heq. cbn [fst snd flat_map].
        rewrite <- app_assoc in Hb''.
        split; [|split; assumption]. do 3 f_equal. simpl. lia.
      * destruct (IH Hrest lr lb r b n Hr Hb) as (r' & b' & Heq & Hr' & Hb'').
        exists r', b'. rewrite Heq.
        assert (Herr : file_errors f = []).
        { unfold file_errors. now rewrite Hris, Hb'. }
        assert (Ht : tally f = 0%nat).
        { unfold tally, counted. now rewrite Hris, Hb'. }
        rewrite Herr, Ht. split; [reflexivity | split; assumption].
Qed.

Lemma ingest_spec (files : list UploadedFile) :
  forallb readable files = true ->
  ingest files
  = (flat_map file_errors files,
     Ok (pd_DataFrame (collected files), list_sum (map tally files))).
Proof.
  intros Hread. unfold ingest.
  destruct (upload_loop_spec files Hread [] [] (pd_DataFrame []) (pd_DataFrame []) 0%nat
              (frame_of_new []) (frame_of_new []))
    as (r & b & Heq & Hr & Hb).
  rewrite Heq, ui_bind_ok. cbn [fst snd ui_ret]. rewrite app_nil_r.
  simpl in Hr, Hb.
  now rewrite (frame_of_reset _ _ (frame_of_concat _ _ _ _ Hr Hb)).
Qed.

(** A batch of one format only is collected in arrival order. *)
Lemma single_format_in_arrival_order (files : list UploadedFile) :
  forallb is_ris files = true \/ forallb is_bib files = true ->
  collected files = flat_map contribution files.
Proof.
  assert (Hall : forall (p : UploadedFile -> bool) l,
             forallb p l = true -> List.filter p l = l).
  { intros p l. induction l as [|x l IH]; simpl; [reflexivity|].
    intros H. apply andb_prop in H as [Hx Hl]. now rewrite Hx, IH. }
  assert (Hnone : forall (p q : UploadedFile -> bool) l,
             (forall x, p x = true -> q x = false) ->
             forallb p l = true -> List.filter q l = []).
  { intros p q l Hpq. induction l as [|x l IH]; simpl; [reflexivity|].
    intros H. apply andb_prop in H as [Hx Hl]. now rewrite (Hpq x Hx), IH. }
  unfold collected. intros [H|H].
  - rewrite (Hall _ _ H), (Hnone is_ris is_bib files); [now rewrite app_nil_r| |assumption].
    intros x Hx. unfold is_bib. now rewrite Hx.
  - rewrite (Hall _ _ H), (Hnone is_bib is_ris files); [reflexivity| |assumption].
    intros x Hx. unfold is_bib in Hx. now destruct (is_ris x).
Qed.

(** C3, as the program has it.  For a batch of files that can be decoded,
    the collection handed to the Duplicate Resolver lists the valid
    records of the .ris files first, file after file in upload order, and
    then those of the .bib files, file after file in upload order; inside
    a file the order of the parser is kept, and the rows are labelled
    0, 1, 2, ...  When all the files have the same format this is the
    arrival order. *)
Theorem collection_groups_by_format (files : list UploadedFile) :
  forallb readable files = true ->
  ingest files
  = (flat_map file_errors files,
     Ok (pd_DataFrame (flat_map contribution (List.filter is_ris files)
                       ++ flat_map contribution (List.filter is_bib files)),
         list_sum (map tally files)))
  /\ (forallb is_ris files = true \/ forallb is_bib files = true ->
      flat_map contribution (List.filter is_ris files)
      ++ flat_map contribution (List.filter is_bib files)
      = flat_map contribution files).
Proof.
  intros Hread. split.
  - apply (ingest_spec files Hread).
  - intros Hsame. apply (single_format_in_arrival_order files Hsame).
Qed.

Lemma collection_groups_by_format_witness :
  let files :=
    [ {| name := "b.bib";
         payload := Parsed [entry "Robust control" "An optimization view." "2019"] |};
      {| name := "a.ris";
         payload := Parsed [entry "Deep hedging" "We hedge a portfolio." "2021"] |} ] in
  forallb readable files = true
  /\ ingest files
     = (flat_map file_errors files,
        Ok (pd_DataFrame (flat_map contribution (List.filter is_ris files)
                          ++ flat_map contribution (List.filter is_bib files)),
            list_sum (map tally files)))
  /\ map (fun ir => Titulo (snd ir))
         (rows (pd_DataFrame (flat_map contribution (List.filter is_ris files)
                              ++ flat_map contribution (List.filter is_bib files))))
     = ["Deep hedging"; "Robust control"].
Proof.
  intros files. split; [reflexivity|]. split; [|reflexivity].
  apply (collection_groups_by_format files). reflexivity.
Defined.

(** C3, as stated, fails: a .bib file uploaded before a .ris file comes
    after it in the collection. *)
Lemma arrival_order_is_not_kept :
  ~ in_arrival_order
      [ {| name := "b.bib";
           payload := Parsed [entry "Robust control" "An optimization view." "2019"] |};
        {| name := "a.ris";
           payload := Parsed [entry "Deep hedging" "We hedge a portfolio." "2021"] |} ].
Proof.
  intros H. specialize (H _ _ eq_refl). vm_compute in H. discriminate H.
Qed.

(** ** The empty run *)

Lemma find_duplicates_no_rows (df : DataFrame) :
  rows df = [] ->
  find_duplicates df = Ok {| columns := columns df; rows := [] |}.
Proof.
  intros H. unfold find_duplicates, duplicated, empty, getitem_mask.
  rewrite H. reflexivity.
Qed.

(** C2, as the program has it.  When a non-empty batch of decodable files
    leaves no valid record, the page ends without an exception: the
    search for duplicates runs on the empty collection and finds none,
    the scorer and the selection filter are not run and write no
    counter, the counters of valid, duplicated and deduplicated records
    are 0, and the total and the invalid counter both show the number of
    invalid records. *)
Theorem empty_run_reports (stop_words : list string) (np_log : float -> float)
    (files : list UploadedFile) :
  files <> [] ->
  forallb readable files = true ->
  collected files = [] ->
  main_flow stop_words np_log files
  = (flat_map file_errors files ++ empty_report (list_sum (map tally files)),
     Ok tt).
Proof.
  intros Hne Hread Hnone. unfold main_flow.
  destruct files as [|f rest]; [congruence|].
  rewrite (ingest_spec _ Hread), Hnone, ui_bind_ok.
  reflexivity.
Qed.

Lemma empty_run_reports_witness :
  let files := [ {| name := "a.ris"; payload := Parsed [ <["title" := "Deep hedging"]> ∅ ] |} ] in
  files <> [] /\ forallb readable files = true /\ collected files = []
  /\ main_flow [] (fun x => x) files
     = (flat_map file_errors files ++ empty_report (list_sum (map tally files)),
        Ok tt).
Proof.
  intros files.
  assert (Hne : files <> []) by discriminate.
  split; [exact Hne|]. split; [reflexivity|]. split; [reflexivity|].
  apply (empty_run_reports [] (fun x => x) files Hne); reflexivity.
Defined.

(** C2, as stated, fails: a file whose only record has no abstract leaves
    no valid record, and the page shows 1 as the total and as the number
    of invalid records. *)
Lemma counters_are_not_all_zero :
  ~ reports_zero_throughout
      [ {| name := "a.ris"; payload := Parsed [ <["title" := "Deep hedging"]> ∅ ] |} ].
Proof.
  intros H.
  destruct (H [] (fun x => x) _ _ _ eq_refl eq_refl) as [_ Hzero].
  specialize (Hzero "Total de registros subidos" 1%nat).
  assert (Hin : 1%nat = 0%nat); [|discriminate Hin].
  apply Hzero. vm_compute. left. reflexivity.
Qed.

(** ** The Duplicate Resolver *)

Lemma key_eqb_eq (k1 k2 : string * string) : key_eqb k1 k2 = true <-> k1 = k2.
Proof.
  destruct k1 as [t1 a1], k2 as [t2 a2]. unfold key_eqb. simpl.
  rewrite andb_true_iff, !String.eqb_eq. split.
  - now intros [-> ->].
  - intros H. now inversion H.
Qed.

Lemma key_eqb_refl (k : string * string) : key_eqb k k = true.
Proof. now apply key_eqb_eq. Qed.

Lemma existsb_key (k : string * string) (seen : list (string * string)) :
  existsb (key_eqb k) seen = true <-> In k seen.
Proof.
  rewrite existsb_exists. split.
  - intros (x & Hx & Heq). apply key_eqb_eq in Heq. now subst.
  - intros H. exists k. split; [assumption | apply key_eqb_refl].
Qed.

(** The counter of the model counts equal keys. *)
Lemma occurrences_times (k : string * string) (l : list (nat * Row)) :
  occurrences k (map snd l) = times k l.
Proof.
  unfold occurrences, times. induction l as [|ir l IH]; [reflexivity|].
  cbn [map List.filter]. destruct (key_dec (row_key ir) k) as [Heq|Hne].
  - rewrite (count_occ_cons_eq key_dec _ Heq). unfold row_key in Heq.
    rewrite <- Heq at 1. rewrite key_eqb_refl. simpl. now rewrite IH.
  - rewrite (count_occ_cons_neq key_dec _ Hne).
    destruct (key_eqb k (key (snd ir))) eqn:He; [|assumption].
    apply key_eqb_eq in He. unfold row_key in Hne. congruence.
Qed.

(** Rows picked by a mask that is computed row by row. *)
Lemma mask_filter {A} (g : A -> bool) (l : list A) :
  map snd (List.filter fst (combine (map g l) l)) = List.filter g l.
Proof.
  induction l as [|x l IH]; simpl; [reflexivity|].
  destruct (g x); simpl; now rewrite IH.
Qed.

Lemma mask_first (l : list (nat * Row)) :
  forall seen,
    map snd (List.filter fst
               (combine (map negb (marked_after seen (map snd l))) l))
    = first_occurrences seen l.
Proof.
  induction l as [|ir l IH]; intros seen; simpl; [reflexivity|].
  unfold row_key. destruct (existsb (key_eqb (key (snd ir))) seen); simpl;
    now rewrite IH.
Qed.

Lemma keyed_not_empty (df : DataFrame) :
  keyed df = true -> empty df = match rows df with [] => true | _ => false end.
Proof.
  unfold keyed, has_column, empty. intros H.
  destruct (rows df); [reflexivity|].
  destruct (columns df); [discriminate | reflexivity].
Qed.

Lemma find_duplicates_spec (df : DataFrame) :
  keyed df = true ->
  find_duplicates df
  = Ok {| columns := columns df;
          rows := List.filter (fun ir => (1 <? times (row_key ir) (rows df))%nat)
                              (rows df) |}.
Proof.
  intros Hk. unfold find_duplicates, duplicated.
  rewrite (keyed_not_empty df Hk). destruct (rows df) as [|ir l] eqn:Hrows.
  - simpl. unfold getitem_mask. now rewrite Hrows.
  - fold (keyed df). rewrite Hk. rewrite <- Hrows. cbn [bind].
    unfold getitem_mask, marked_all. rewrite !length_map, Nat.eqb_refl.
    do 2 f_equal. rewrite map_map.
    rewrite (mask_filter (fun ir => (1 <? occurrences (key (snd ir)) (map snd (rows df)))%nat)).
    apply filter_ext. intros x. now rewrite occurrences_times.
Qed.

Lemma drop_duplicates_spec (df : DataFrame) :
  keyed df = true ->
  drop_duplicates df
  = Ok {| columns := columns df; rows := first_occurrences [] (rows df) |}.
Proof.
  intros Hk. unfold drop_duplicates, duplicated.
  rewrite (keyed_not_empty df Hk). destruct (rows df) as [|ir l] eqn:Hrows.
  - destruct df. simpl in *. now subst.
  - fold (keyed df). rewrite Hk. rewrite <- Hrows. cbn [bind].
    unfold getitem_mask. rewrite !length_map.
    assert (Hlen : forall seen l', length (marked_after seen l') = length l').
    { intros seen l'. revert seen. induction l' as [|x l' IH]; intros seen; simpl;
        [reflexivity | now rewrite IH]. }
    rewrite Hlen, length_map, Nat.eqb_refl. now rewrite mask_first.
Qed.

(** *** What [keep='first'] leaves *)

Lemma first_occurrences_In (l : list (nat * Row)) :
  forall seen ir,
    In ir (first_occurrences seen l)
    <-> exists pre post,
          l = pre ++ ir :: post /\ ~ In (row_key ir) seen
          /\ forall ir', In ir' pre -> row_key ir' <> row_key ir.
Proof.
  induction l as [|x l IH]; intros seen ir; simpl.
  - split; [tauto|]. intros (pre & post & H & _). now destruct pre.
  - assert (Hstep : In ir (first_occurrences (row_key x :: seen) l)
                    <-> exists pre post, x :: l = (x :: pre) ++ ir :: post
                          /\ ~ In (row_key ir) seen
                          /\ forall ir', In ir' (x :: pre) -> row_key ir' <> row_key ir).
    { rewrite IH. split.
      - intros (pre & post & -> & Hns & Hpre). exists pre, post.
        split; [reflexivity|]. simpl in Hns. split; [tauto|].
        intros ir' [<-|Hin]; [intros E; apply Hns; now left | now apply Hpre].
      - intros (pre & post & Heq & Hns & Hpre). exists pre, post.
        simpl in Heq. inversion Heq; subst. split; [reflexivity|]. split.
        + simpl. intros [E|Hin]; [|tauto]. apply (Hpre x); [now left | assumption].
        + intros ir' Hin. apply Hpre. now right. }
    destruct (existsb (key_eqb (row_key x)) seen) eqn:Hseen.
    + rewrite Hstep. apply existsb_key in Hseen. split.
      * intros (pre & post & Heq & Hns & Hpre). now exists (x :: pre), post.
      * intros (pre & post & Heq & Hns & Hpre). destruct pre as [|y pre].
        -- simpl in Heq. inversion Heq; subst. contradiction.
        -- simpl in Heq. inversion Heq; subst. now exists pre, post.
    + assert (Hnot : ~ In (row_key x) seen).
      { intros Hin. apply existsb_key in Hin. congruence. }
      simpl. rewrite Hstep. split.
      * intros [<-|(pre & post & Heq & Hns & Hpre)].
        -- exists [], l. split; [reflexivity|]. split; [assumption|]. intros ? [].
        -- now exists (x :: pre), post.
      * intros (pre & post & Heq & Hns & Hpre). destruct pre as [|y pre].
        -- simpl in Heq. inversion Heq; subst. now left.
        -- simpl in Heq. inversion Heq; subst. right. now exists pre, post.
Qed.

Lemma first_occurrences_NoDup (l : list (nat * Row)) :
  forall seen, List.NoDup (map row_key (first_occurrences seen l)).
Proof.
  induction l as [|x l IH]; intros seen; simpl; [constructor|].
  destruct (existsb (key_eqb (row_key x)) seen); [apply IH|].
  simpl. constructor; [|apply IH].
  intros Hin. apply in_map_iff in Hin as (ir & Hkey & Hir).
  apply first_occurrences_In in Hir as (_ & _ & _ & Hns & _).
  apply Hns. left. now symmetry.
Qed.

Lemma first_occurrences_sublist (l : list (nat * Row)) :
  forall seen, sublist (first_occurrences seen l) l.
Proof.
  induction l as [|x l IH]; intros seen; simpl; [constructor|].
  destruct (existsb (key_eqb (row_key x)) seen).
  - apply sublist_cons, IH.
  - apply sublist_skip, IH.
Qed.

Lemma first_occurrences_covers (l : list (nat * Row)) :
  forall seen ir,
    In ir l -> ~ In (row_key ir) seen ->
    exists ir', In ir' (first_occurrences seen l) /\ row_key ir' = row_key ir.
Proof.
  induction l as [|x l IH]; intros seen ir Hin Hns; [destruct Hin|].
  simpl. destruct (key_dec (row_key x) (row_key ir)) as [Heq|Hne].
  - assert (Hx : existsb (key_eqb (row_key x)) seen = false).
    { destruct (existsb (key_eqb (row_key x)) seen) eqn:E; [|reflexivity].
      apply existsb_key in E. rewrite Heq in E. contradiction. }
    rewrite Hx. exists x. split; [now left | assumption].
  - destruct Hin as [->|Hin]; [congruence|].
    destruct (IH (row_key x :: seen) ir Hin) as (ir' & Hin' & Hk).
    { intros [E|E]; [congruence | contradiction]. }
    exists ir'. split; [|assumption].
    destruct (existsb (key_eqb (row_key x)) seen); [assumption | now right].
Qed.

Lemma few_occurrences_NoDup (l : list (nat * Row)) :
  List.filter (fun ir => (1 <? times (row_key ir) l)%nat) l = [] ->
  List.NoDup (map row_key l).
Proof.
  intros Hnone. apply (NoDup_count_occ key_dec). intros k.
  destruct (in_dec key_dec k (map row_key l)) as [Hin|Hout].
  - apply in_map_iff in Hin as (ir & <- & Hir).
    destruct (1 <? times (row_key ir) l)%nat eqn:Hlt.
    + assert (Hf : In ir (List.filter (fun ir => (1 <? times (row_key ir) l)%nat) l))
        by (apply filter_In; now split).
      rewrite Hnone in Hf. destruct Hf.
    + apply Nat.ltb_ge in Hlt. exact Hlt.
  - apply (count_occ_not_In key_dec) in Hout. lia.
Qed.

Lemma NoDup_few_occurrences (l : list (nat * Row)) :
  List.NoDup (map row_key l) ->
  List.filter (fun ir => (1 <? times (row_key ir) l)%nat) l = [].
Proof.
  intros Hnd. rewrite (NoDup_count_occ key_dec) in Hnd.
  assert (Hall : forall l', List.filter (fun ir => (1 <? times (row_key ir) l)%nat) l' = []).
  { induction l' as [|x l' IH]; simpl; [reflexivity|].
    destruct (1 <? times (row_key x) l)%nat eqn:Hlt; [|assumption].
    apply Nat.ltb_lt in Hlt. specialize (Hnd (row_key x)). unfold times in Hlt. lia. }
  apply Hall.
Qed.

Lemma NoDup_first_occurrences (l : list (nat * Row)) :
  forall seen,
    List.NoDup (map row_key l) ->
    (forall ir, In ir l -> ~ In (row_key ir) seen) ->
    first_occurrences seen l = l.
Proof.
  induction l as [|x l IH]; intros seen Hnd Hseen; simpl; [reflexivity|].
  inversion Hnd as [|k ks Hx Hnd']; subst.
  destruct (existsb (key_eqb (row_key x)) seen) eqn:E.
  - apply existsb_key in E. exfalso. apply (Hseen x); [now left | assumption].
  - f_equal. apply IH; [assumption|].
    intros ir Hin [Heq|Hs].
    + apply Hx. rewrite Heq. now apply in_map.
    + apply (Hseen ir); [now right | assumption].
Qed.

Lemma snd_bind_ok {A B} (log : list ui_event) (a : A) (f : A -> ui B) :
  snd (ui_bind (log, Ok a) f) = snd (f a).
Proof. now rewrite ui_bind_ok. Qed.

(** The two frames that lines 173-181 produce. *)
Lemma resolve_duplicates_spec (df : DataFrame) :
  keyed df = true ->
  snd (resolve_duplicates df)
  = Ok ({| columns := columns df;
           rows := List.filter (fun ir => (1 <? times (row_key ir) (rows df))%nat)
                               (rows df) |},
        {| columns := columns df; rows := first_occurrences [] (rows df) |}).
Proof.
  intros Hk. unfold resolve_duplicates, lift, emit.
  rewrite (find_duplicates_spec df Hk), !snd_bind_ok.
  set (dups := {| columns := columns df; rows := _ |}).
  assert (Hkd : keyed dups = true) by exact Hk.
  rewrite (keyed_not_empty dups Hkd).
  destruct (rows dups) as [|ir l] eqn:Hrows; cbn [negb].
  - cbn [ui_ret snd]. do 2 f_equal. destruct df as [cols rs]. simpl in *.
    f_equal. symmetry. apply NoDup_first_occurrences; [|tauto].
    now apply few_occurrences_NoDup.
  - rewrite !snd_bind_ok, (drop_duplicates_spec df Hk), snd_bind_ok.
    reflexivity.
Qed.

(** C6 (Duplicate Resolver).  On a collection, lines 173-181 return the
    frame of the duplicates and the deduplicated frame.  The first holds,
    in input order, exactly the rows whose (title, abstract) pair is
    equal, as a pair of strings, to that of more than one row of the
    input.  The second is a subsequence of the input with pairwise
    different keys, it has a row for every key of the input, and a row
    belongs to it exactly when no row before it in the input has its
    key. *)
Theorem duplicate_resolver_spec (df : DataFrame) :
  keyed df = true ->
  exists duplicateGroup deduplicated,
    snd (resolve_duplicates df) = Ok (duplicateGroup, deduplicated)
    /\ rows duplicateGroup
       = List.filter (fun ir => (1 <? times (row_key ir) (rows df))%nat) (rows df)
    /\ (forall ir, In ir (rows duplicateGroup)
                   <-> In ir (rows df) /\ (1 < times (row_key ir) (rows df))%nat)
    /\ sublist (rows deduplicated) (rows df)
    /\ List.NoDup (map row_key (rows deduplicated))
    /\ (forall ir, In ir (rows df) ->
          exists ir', In ir' (rows deduplicated) /\ row_key ir' = row_key ir)
    /\ (forall ir, In ir (rows deduplicated)
                   <-> exists pre post,
                         rows df = pre ++ ir :: post
                         /\ forall ir', In ir' pre -> row_key ir' <> row_key ir).
Proof.
  intros Hk. eexists _, _. split; [apply (resolve_duplicates_spec df Hk)|].
  cbn [rows]. split; [reflexivity|]. split.
  { intros ir. rewrite filter_In, Nat.ltb_lt. reflexivity. }
  split; [apply first_occurrences_sublist|].
  split; [apply first_occurrences_NoDup|]. split.
  { intros ir Hin. apply first_occurrences_covers; [assumption | intros []]. }
  intros ir. rewrite first_occurrences_In. split.
  - intros (pre & post & Heq & _ & Hpre). now exists pre, post.
  - intros (pre & post & Heq & Hpre). exists pre, post.
    split; [assumption|]. split; [intros [] | assumption].
Qed.

(** C9 (Dedup idempotence).  On a collection, running lines 173-181 on
    the deduplicated frame of a first run finds no duplicate and returns
    that frame as it is. *)
Theorem dedup_idempotent (df : DataFrame) :
  keyed df = true ->
  exists duplicateGroup deduplicated,
    snd (resolve_duplicates df) = Ok (duplicateGroup, deduplicated)
    /\ snd (resolve_duplicates deduplicated)
       = Ok ({| columns := columns df; rows := [] |}, deduplicated).
Proof.
  intros Hk. eexists _, _. split; [apply (resolve_duplicates_spec df Hk)|].
  set (dd := {| columns := columns df; rows := first_occurrences [] (rows df) |}).
  assert (Hkd : keyed dd = true) by exact Hk.
  rewrite (resolve_duplicates_spec dd Hkd). cbn [rows columns dd].
  assert (Hnd : List.NoDup (map row_key (first_occurrences [] (rows df))))
    by apply first_occurrences_NoDup.
  rewrite (NoDup_few_occurrences _ Hnd).
  rewrite (NoDup_first_occurrences _ [] Hnd); [reflexivity | intros ? _ []].
Qed.

Lemma duplicate_resolver_spec_witness :
  let df := pd_DataFrame [new_row "Deep hedging" "We hedge a portfolio." 2021;
                          new_row "Deep hedging" "We hedge a portfolio." 2020;
                          new_row "Robust control" "An optimization view." 2019;
                          new_row "Deep hedging" "We hedge a portfolio." 2021] in
  keyed df = true
  /\ exists duplicateGroup deduplicated,
       snd (resolve_duplicates df) = Ok (duplicateGroup, deduplicated)
       /\ map fst (rows duplicateGroup) = [0; 1; 3]%nat
       /\ map fst (rows deduplicated) = [0; 2]%nat.
Proof.
  intros df. split; [reflexivity|].
  destruct (duplicate_resolver_spec df eq_refl) as (d & dd & Heq & Hd & _).
  exists d, dd. split; [exact Heq|]. split.
  - rewrite Hd. reflexivity.
  - vm_compute in Heq. injection Heq as _ <-. reflexivity.
Defined.

Lemma dedup_idempotent_witness :
  let df := pd_DataFrame [new_row "Deep hedging" "We hedge a portfolio." 2021;
                          new_row "Deep hedging" "We hedge a portfolio." 2020;
                          new_row "Robust control" "An optimization view." 2019] in
  keyed df = true
  /\ exists duplicateGroup deduplicated,
       snd (resolve_duplicates df) = Ok (duplicateGroup, deduplicated)
       /\ snd (resolve_duplicates deduplicated)
          = Ok ({| columns := columns df; rows := [] |}, deduplicated).
Proof.
  intros df. split; [reflexivity|]. apply (dedup_idempotent df). reflexivity.
Defined.

(** ** The Selection Filter *)

Lemma prefix_append (p s : string) :
  String.prefix p s = true <-> exists post, s = String.append p post.
Proof.
  revert s. induction p as [|a p IH]; intros s.
  - split; [intros _; now exists s | intros _; now destruct s].
  - destruct s as [|b s]; simpl.
    + split; [discriminate | intros (post & H); discriminate].
    + destruct (ascii_dec a b) as [->|Hne].
      * rewrite IH. split; intros (post & H); exists post.
        -- now rewrite H.
        -- now inversion H.
      * split; [discriminate|]. intros (post & H). inversion H. congruence.
Qed.

Lemma occurs_in_append (pat s : string) :
  occurs_in pat s = true
  <-> exists pre post, s = String.append pre (String.append pat post).
Proof.
  induction s as [|c s IH]; cbn [occurs_in].
  - rewrite orb_false_r, prefix_append. split.
    + intros (post & H). now exists "", post.
    + intros (pre & post & H). destruct pre; [now exists post | discriminate].
  - rewrite orb_true_iff, IH, prefix_append. split.
    + intros [(post & H)|(pre & post & H)].
      * now exists "", post.
      * exists (String c pre), post. simpl. now rewrite H.
    + intros (pre & post & H). destruct pre as [|d pre].
      * left. now exists post.
      * right. simpl in H. inversion H. now exists pre, post.
Qed.

Lemma map_string_append (f : ascii -> ascii) (a b : string) :
  map_string f (String.append a b) = String.append (map_string f a) (map_string f b).
Proof. induction a as [|c a IH]; simpl; [reflexivity | now rewrite IH]. Qed.

Lemma map_string_split (f : ascii -> ascii) (s x y : string) :
  map_string f s = String.append x y ->
  exists a b, s = String.append a b /\ map_string f a = x /\ map_string f b = y.
Proof.
  revert s. induction x as [|c x IH]; intros s H.
  - exists "", s. now repeat split.
  - destruct s as [|d s]; [discriminate|]. simpl in H. inversion H as [[Hc Hs]].
    destruct (IH s Hs) as (a & b & -> & Ha & Hb).
    exists (String d a), b. simpl. rewrite Ha. now repeat split.
Qed.

(** The search that ignores case finds the words that are mentioned. *)
Lemma str_contains_nocase_mentions (pat s : string) :
  str_contains_nocase pat s = true <-> mentions (map_string lower_ascii pat) s.
Proof.
  unfold str_contains_nocase, mentions. rewrite occurs_in_append. split.
  - intros (pre & post & H).
    destruct (map_string_split _ _ _ _ H) as (a & rest & -> & Ha & Hrest).
    destruct (map_string_split _ _ _ _ Hrest) as (mid & b & -> & Hmid & Hb).
    now exists a, mid, b.
  - intros (pre & mid & post & -> & Hmid).
    exists (map_string lower_ascii pre), (map_string lower_ascii post).
    now rewrite !map_string_append, Hmid.
Qed.

Lemma filter_sublist {A} (g : A -> bool) (l : list A) : sublist (List.filter g l) l.
Proof.
  induction l as [|x l IH]; simpl; [constructor|].
  destruct (g x); [now apply sublist_skip | now apply sublist_cons].
Qed.

Lemma filter_filter {A} (g h : A -> bool) (l : list A) :
  List.filter h (List.filter g l) = List.filter (fun x => g x && h x) l.
Proof.
  induction l as [|x l IH]; simpl; [reflexivity|].
  destruct (g x); simpl; [destruct (h x)|]; now rewrite IH.
Qed.

Lemma getitem_mask_rows (df : DataFrame) (g : Row -> bool) :
  getitem_mask df (map (fun ir => g (snd ir)) (rows df))
  = Ok {| columns := columns df;
          rows := List.filter (fun ir => g (snd ir)) (rows df) |}.
Proof.
  unfold getitem_mask. rewrite length_map, Nat.eqb_refl.
  now rewrite (mask_filter (fun ir => g (snd ir))).
Qed.

Lemma apply_selection_criteria_spec (df : DataFrame) :
  selectable df = true ->
  apply_selection_criteria df
  = Ok {| columns := columns df;
          rows := List.filter (fun ir => keyword_match (snd ir) && date_match (snd ir))
                              (rows df) |}.
Proof.
  unfold selectable. intros H. apply andb_prop in H as [Hr Hf].
  unfold apply_selection_criteria, column_mask. rewrite Hr. cbn [bind].
  rewrite getitem_mask_rows. cbn [bind].
  unfold has_column in *. cbn [columns]. rewrite Hf. cbn [bind].
  rewrite (getitem_mask_rows {| columns := columns df; rows := _ |} date_match).
  cbn [columns rows]. now rewrite filter_filter.
Qed.

(** C5 (Selection correctness).  On a collection the filter returns a
    frame with the same columns whose rows are rows of the input, in the
    input's order; a row of the input is among them exactly when its year
    lies in [2017, 2024] and its abstract mentions "portfolio" or
    "optimization", the case of the letters being ignored. *)
Theorem selection_correct (df : DataFrame) :
  selectable df = true ->
  exists selected,
    apply_selection_criteria df = Ok selected
    /\ columns selected = columns df
    /\ sublist (rows selected) (rows df)
    /\ forall ir,
         In ir (rows selected)
         <-> In ir (rows df)
             /\ (2017 <= Fecha (snd ir) <= 2024)%Z
             /\ (mentions "portfolio" (Resumen (snd ir))
                 \/ mentions "optimization" (Resumen (snd ir))).
Proof.
  intros Hs. eexists. split; [apply (apply_selection_criteria_spec df Hs)|].
  cbn [columns rows]. split; [reflexivity|]. split; [apply filter_sublist|].
  intros ir. rewrite filter_In, andb_true_iff.
  unfold keyword_match, date_match.
  rewrite orb_true_iff, andb_true_iff, !str_contains_nocase_mentions.
  rewrite Z.leb_le, Z.leb_le. simpl. tauto.
Qed.

Lemma selection_correct_witness :
  let df := pd_DataFrame [new_row "Deep hedging" "We hedge a PORTFOLIO." 2021;
                          new_row "Old hedging" "We hedge a portfolio." 2016;
                          new_row "Robust control" "An Optimization view." 2024;
                          new_row "Cooking" "A recipe." 2020] in
  selectable df = true
  /\ exists selected,
       apply_selection_criteria df = Ok selected
       /\ map fst (rows selected) = [0; 2]%nat.
Proof.
  intros df. split; [reflexivity|].
  destruct (selection_correct df eq_refl) as (selected & Heq & _).
  exists selected. split; [exact Heq|].
  vm_compute in Heq. injection Heq as <-. reflexivity.
Defined.

(** ** The Coherence Scorer *)

(** *** One vectorizer for all rows, or one per row *)

(** A fit forgets what the object had learnt before. *)
Lemma fit_transform_refits (stop_words : list string) (np_log : float -> float)
    (v v' : TfidfVectorizer) (docs : list string) :
  fit_transform stop_words np_log v docs = fit_transform stop_words np_log v' docs.
Proof. reflexivity. Qed.

Lemma similarity_loop_map (stop_words : list string) (np_log : float -> float)
    (df : DataFrame) (iterrows : list (nat * Row)) :
  keyed df = true ->
  forall vectorizer similarities,
    result_map snd (similarity_loop stop_words np_log df vectorizer iterrows similarities)
    = result_map (app similarities)
        (map_result (score stop_words np_log) iterrows).
Proof.
  intros Hk. induction iterrows as [|[index row] rest IH];
    intros vectorizer similarities.
  - simpl. now rewrite app_nil_r.
  - cbn [similarity_loop map_result]. fold (keyed df). rewrite Hk.
    unfold score at 1, record_similarity. cbn [snd].
    rewrite (fit_transform_refits stop_words np_log vectorizer new_vectorizer).
    destruct (fit_transform stop_words np_log new_vectorizer [Titulo row; Resumen row])
      as [[vectorizer' tfidf_matrix]|e]; cbn [bind snd]; [|reflexivity].
    rewrite IH.
    destruct (map_result (score stop_words np_log) rest) as [sims|e];
      cbn [bind result_map]; [|reflexivity].
    now rewrite <- app_assoc.
Qed.

Lemma map_result_length {A B} (f : A -> result B) (l : list A) (ys : list B) :
  map_result f l = Ok ys -> length ys = length l.
Proof.
  revert ys. induction l as [|x l IH]; intros ys; simpl.
  - intros H. now inversion H.
  - destruct (f x) as [y|e]; [|discriminate]. simpl.
    destruct (map_result f l) as [ys'|e]; [|discriminate]. simpl.
    intros H. inversion H. simpl. now rewrite (IH ys').
Qed.

Lemma has_Similitud (df : DataFrame) (sims : list float) :
  has_column col_Similitud (with_Similitud df sims) = true.
Proof.
  unfold with_Similitud, has_column at 1. cbn [columns].
  destruct (has_column col_Similitud df) eqn:H; [exact H|].
  rewrite existsb_app. simpl. now rewrite orb_true_r.
Qed.

(** [check_similarity] in terms of the per-row score. *)
Lemma check_similarity_spec (stop_words : list string) (np_log : float -> float)
    (df : DataFrame) (threshold : float) :
  keyed df = true ->
  check_similarity stop_words np_log df threshold
  = (sims <- map_result (score stop_words np_log) (rows df) ;;
     let df' := with_Similitud df sims in
     Ok (df',
         {| columns := columns df';
            rows := List.filter (fun ir => below threshold (snd ir)) (rows df') |},
         {| columns := columns df';
            rows := List.filter (fun ir => at_least threshold (snd ir)) (rows df') |})).
Proof.
  intros Hk. unfold check_similarity.
  pose proof (similarity_loop_map stop_words np_log df (rows df) Hk new_vectorizer [])
    as Hloop.
  destruct (similarity_loop stop_words np_log df new_vectorizer (rows df) [])
    as [[v sims]|e], (map_result (score stop_words np_log) (rows df)) as [sims'|e'] eqn:Hmap;
    simpl in Hloop; try discriminate.
  - inversion Hloop; subst. cbn [bind snd]. unfold setitem_Similitud.
    rewrite (map_result_length _ _ _ Hmap), Nat.eqb_refl. cbn [bind].
    unfold column_mask. rewrite has_Similitud. cbn [bind].
    now rewrite !getitem_mask_rows.
  - now inversion Hloop.
Qed.

Lemma map_result_pairs {A B} (f : A -> result B) (l : list A) (ys : list B) :
  map_result f l = Ok ys ->
  forall x y, In (x, y) (combine l ys) -> f x = Ok y.
Proof.
  revert ys. induction l as [|a l IH]; intros ys; simpl.
  - intros _ x y [].
  - destruct (f a) as [b|e] eqn:Hfa; [|discriminate]. simpl.
    destruct (map_result f l) as [ys'|e]; [|discriminate]. simpl.
    intros H x y. inversion H; subst. simpl.
    intros [Heq|Hin]; [now inversion Heq; subst | now apply (IH ys')].
Qed.

(** C10 (the loop is a map).  On a collection, whatever the vectorizer
    object has learnt before and whatever the list of similarities holds
    already, the loop of [check_similarity] appends to that list what
    mapping the per-row score over the rows gives, the score of a row
    being computed from its title and abstract with a vectorizer of its
    own; and it raises when that map raises.  Hence every row of the
    frame that [check_similarity] leaves carries the score of its own
    title and abstract. *)
Theorem scorer_maps_pure_score (stop_words : list string) (np_log : float -> float)
    (df : DataFrame) (vectorizer : TfidfVectorizer) (similarities : list float) :
  keyed df = true ->
  result_map snd
    (similarity_loop stop_words np_log df vectorizer (rows df) similarities)
  = result_map (app similarities)
      (map_result (fun ir => record_similarity stop_words np_log
                               (Titulo (snd ir)) (Resumen (snd ir))) (rows df))
  /\ forall threshold df' incoherent coherent,
       check_similarity stop_words np_log df threshold
       = Ok (df', incoherent, coherent) ->
       map fst (rows df') = map fst (rows df)
       /\ forall ir, In ir (rows df') ->
            exists s, Similitud (snd ir) = Some s
                      /\ record_similarity stop_words np_log
                           (Titulo (snd ir)) (Resumen (snd ir)) = Ok s.
Proof.
  intros Hk. split; [apply (similarity_loop_map stop_words np_log df (rows df) Hk)|].
  intros threshold df' inc coh. rewrite (check_similarity_spec _ _ _ _ Hk).
  destruct (map_result (score stop_words np_log) (rows df)) as [sims|e] eqn:Hmap;
    [|discriminate].
  cbn [bind]. intros H. inversion H; subst. clear H. cbn [with_Similitud rows].
  split.
  - rewrite map_map. cbn [fst].
    pose proof (map_result_length _ _ _ Hmap) as Hlen.
    clear Hmap. revert sims Hlen.
    induction (rows df) as [|x l IH]; intros [|s sims] Hlen; simpl in *;
      try reflexivity; try discriminate.
    f_equal. apply IH. now inversion Hlen.
  - intros ir Hin. apply in_map_iff in Hin as ([x s] & <- & Hin).
    exists s. split; [reflexivity|].
    apply (map_result_pairs _ _ _ Hmap x s Hin).
Qed.

Lemma scorer_maps_pure_score_witness :
  let df := pd_DataFrame
              [new_row "Portfolio Optimization Using AI"
                 "This paper studies portfolio optimization with deep learning." 2021;
               new_row "Unrelated Topic"
                 "Completely different subject matter with no overlap." 2015] in
  let fitted := {| vocabulary_ := Some ["hedging"]; idf_ := Some [PrimFloat.one] |} in
  keyed df = true
  /\ result_map snd
       (similarity_loop some_stop_words np_log_of_pair df fitted (rows df) [])
     = result_map (app [])
         (map_result (fun ir => record_similarity some_stop_words np_log_of_pair
                                  (Titulo (snd ir)) (Resumen (snd ir))) (rows df)).
Proof.
  intros df fitted. split; [reflexivity|].
  apply (scorer_maps_pure_score some_stop_words np_log_of_pair df fitted []).
  reflexivity.
Defined.

(** *** Records without a common term, records without any term *)

Lemma build_vocabulary_nonempty (docs : list (list string)) :
  build_vocabulary docs = [] <-> concat docs = [].
Proof.
  unfold build_vocabulary.
  assert (Hins : forall t v, insert_term t v <> []).
  { intros t v. destruct v as [|u v]; simpl; [discriminate|].
    destruct (String.compare t u); discriminate. }
  assert (Hfold : forall l v, v <> [] -> fold_left (fun v t => insert_term t v) l v <> []).
  { induction l as [|t l IH]; intros v Hv; simpl; [assumption|]. apply IH, Hins. }
  destruct (concat docs) as [|t l]; simpl.
  - tauto.
  - split; [|discriminate]. intros H. exfalso. apply (Hfold l (insert_term t [])); [|exact H].
    discriminate.
Qed.

(** No term at all in the two documents: the fit raises. *)
Lemma record_similarity_raises (stop_words : list string) (np_log : float -> float)
    (title abstract : string) :
  record_similarity stop_words np_log title abstract = Raise ValueError
  <-> analyze stop_words title = [] /\ analyze stop_words abstract = [].
Proof.
  unfold record_similarity, fit_transform. cbn [map].
  destruct (build_vocabulary [analyze stop_words title; analyze stop_words abstract])
    as [|t v] eqn:Hv.
  - apply build_vocabulary_nonempty in Hv. simpl in Hv. rewrite app_nil_r in Hv.
    apply app_eq_nil in Hv. cbn [bind]. tauto.
  - cbn [bind]. split; [discriminate|]. intros [Ht Ha].
    assert (Hnil : build_vocabulary [analyze stop_words title; analyze stop_words abstract] = []).
    { apply build_vocabulary_nonempty. simpl. now rewrite Ht, Ha. }
    congruence.
Qed.

Lemma sparse_get_absent {A} (j : nat) (row : sparse A) :
  ~ In j (map fst row) -> sparse_get j row = None.
Proof.
  unfold sparse_get. induction row as [|e row IH]; simpl; [reflexivity|].
  intros Hout. destruct (fst e =? j)%nat eqn:E.
  - apply Nat.eqb_eq in E. tauto.
  - apply IH. tauto.
Qed.

Lemma sparse_dot_disjoint (a b : sparse float) :
  (forall j, In j (map fst a) -> ~ In j (map fst b)) ->
  sparse_dot a b = PrimFloat.zero.
Proof.
  unfold sparse_dot. generalize PrimFloat.zero as acc.
  induction a as [|e a IH]; intros acc H; simpl; [reflexivity|].
  rewrite (sparse_get_absent (fst e) b); [|apply H; now left].
  apply IH. intros j Hj. apply H. now right.
Qed.

Lemma normalize_l2_columns (row : sparse float) :
  map fst (normalize_l2 row) = map fst row.
Proof.
  unfold normalize_l2. destruct (PrimFloat.eqb _ _); [reflexivity|].
  now rewrite map_map.
Qed.

Lemma scale_columns (idfs : list float) (row : sparse nat) :
  map fst (scale idfs row) = map fst row.
Proof. unfold scale. now rewrite map_map. Qed.

Lemma enumerate_from {A} (l : list A) :
  forall s j x, In (j, x) (combine (seq s (length l)) l) ->
                (s <= j)%nat /\ nth_error l (j - s) = Some x.
Proof.
  induction l as [|a l IH]; intros s j x; simpl; [intros []|].
  intros [Heq|Hin].
  - inversion Heq; subst. rewrite Nat.sub_diag. split; [lia | reflexivity].
  - apply IH in Hin as [Hle Hnth]. split; [lia|].
    replace (j - s)%nat with (S (j - S s)) by lia. exact Hnth.
Qed.

Lemma count_term_positive (t : string) (tokens : list string) :
  (0 <? count_term t tokens)%nat = true -> In t tokens.
Proof.
  unfold count_term. intros H. apply Nat.ltb_lt in H.
  destruct (List.filter (String.eqb t) tokens) as [|x l] eqn:Hf; [simpl in H; lia|].
  assert (Hx : In x (List.filter (String.eqb t) tokens)) by (rewrite Hf; now left).
  apply filter_In in Hx as [Hin Heq]. apply String.eqb_eq in Heq. now subst.
Qed.

Lemma insert_term_In (t x : string) (vocabulary : list string) :
  In x (insert_term t vocabulary) <-> x = t \/ In x vocabulary.
Proof.
  induction vocabulary as [|u v IH]; simpl; [intuition|].
  destruct (String.compare t u) eqn:Hc; simpl.
  - apply String.compare_eq_iff in Hc. subst u. intuition.
  - intuition.
  - rewrite IH. intuition.
Qed.

(** The sorted vocabulary has the terms of the documents. *)
Lemma build_vocabulary_In (docs : list (list string)) (t : string) :
  In t (build_vocabulary docs) <-> In t (concat docs).
Proof.
  unfold build_vocabulary.
  assert (Hfold : forall l v,
            In t (fold_left (fun v t => insert_term t v) l v) <-> In t l \/ In t v).
  { induction l as [|u l IH]; intros v; simpl; [intuition|].
    rewrite IH, insert_term_In. intuition. }
  rewrite Hfold. simpl. intuition.
Qed.

Lemma column_of_nth (t : string) (vocabulary : list string) :
  In t vocabulary -> nth_error vocabulary (column_of t vocabulary) = Some t.
Proof.
  induction vocabulary as [|u v IH]; simpl; [intros []|].
  intros Hin. destruct (String.eqb_spec t u) as [->|Hne]; [reflexivity|].
  simpl. apply IH. destruct Hin as [Heq|Hin]; [congruence | exact Hin].
Qed.

(** A stored column of a count row is the column of a term of the
    document. *)
Lemma count_row_columns (vocabulary terms tokens : list string) (j : nat) :
  In j (map fst (count_row vocabulary terms tokens)) ->
  exists t, j = column_of t vocabulary /\ In t tokens.
Proof.
  unfold count_row. intros H.
  apply in_map_iff in H as ([j' c] & Hj & Hin). simpl in Hj. subst j'.
  apply in_flat_map in Hin as (t & _ & Hcell). cbn beta zeta in Hcell.
  destruct (0 <? count_term t tokens)%nat eqn:Hpos; [|destruct Hcell].
  destruct Hcell as [Heq|[]]. inversion Heq; subst.
  exists t. split; [reflexivity | now apply count_term_positive].
Qed.

(** The degenerate case that the program handles: when the title and the
    abstract have no term in common and at least one of them has a term,
    the similarity is 0 exactly. *)
Lemma disjoint_terms_similarity_zero (stop_words : list string)
    (np_log : float -> float) (title abstract : string) :
  (forall t, In t (analyze stop_words title) -> ~ In t (analyze stop_words abstract)) ->
  analyze stop_words title <> [] \/ analyze stop_words abstract <> [] ->
  record_similarity stop_words np_log title abstract = Ok PrimFloat.zero.
Proof.
  intros Hdisj Hsome. unfold record_similarity, fit_transform. cbn [map].
  destruct (build_vocabulary [analyze stop_words title; analyze stop_words abstract])
    as [|u v] eqn:Hv.
  { apply build_vocabulary_nonempty in Hv. simpl in Hv. rewrite app_nil_r in Hv.
    apply app_eq_nil in Hv. tauto. }
  rewrite <- Hv. cbn [bind snd nth]. f_equal.
  unfold cosine_similarity. apply sparse_dot_disjoint. intros j.
  rewrite !normalize_l2_columns, !scale_columns.
  intros Ht Ha.
  apply count_row_columns in Ht as (t & Hj & Hin).
  apply count_row_columns in Ha as (t' & Hj' & Hin').
  assert (Hnth : nth_error (u :: v) j = Some t).
  { rewrite Hj, <- Hv. apply column_of_nth, build_vocabulary_In. simpl.
    apply in_or_app. now left. }
  assert (Hnth' : nth_error (u :: v) j = Some t').
  { rewrite Hj', <- Hv. apply column_of_nth, build_vocabulary_In. simpl.
    apply in_or_app. right. apply in_or_app. now left. }
  rewrite Hnth in Hnth'. inversion Hnth'; subst. now apply (Hdisj t').
Qed.

(** C4: the case that the program misses.  The title "Q&A" and the
    abstract "N/A" are not empty, so the record is valid, but neither has
    a word of two letters or more: whatever the stop list, the vocabulary
    of the pair is empty, the fit raises [ValueError], nothing catches
    it, and [check_similarity], and with it the page, ends with that
    exception instead of a similarity of 0. *)
Theorem empty_vocabulary_aborts_scoring (stop_words : list string)
    (np_log : float -> float) (threshold : float) :
  let file := {| name := "refs.ris"; payload := Parsed [entry "Q&A" "N/A" "2021"] |} in
  filter_records [entry "Q&A" "N/A" "2021"] = Ok ([new_row "Q&A" "N/A" 2021], [])
  /\ record_similarity stop_words np_log "Q&A" "N/A" = Raise ValueError
  /\ check_similarity stop_words np_log (pd_DataFrame [new_row "Q&A" "N/A" 2021]) threshold
     = Raise ValueError
  /\ snd (main_flow stop_words np_log [file]) = Raise ValueError.
Proof. intros file. repeat split; reflexivity. Qed.

(** *** Comparisons of binary64 numbers *)

Lemma SFcompare_antisym (x y : spec_float) (c : comparison) :
  SFcompare x y = Some c -> SFcompare y x = Some (CompOpp c).
Proof.
  destruct x as [sx|sx| |sx mx ex], y as [sy|sy| |sy my ey]; simpl;
    try discriminate;
    try (intros H; inversion H; reflexivity);
    try (destruct sx; intros H; inversion H; reflexivity);
    try (destruct sy; intros H; inversion H; reflexivity);
    try (destruct sx, sy; intros H; inversion H; reflexivity).
  rewrite (Z.compare_antisym ex ey).
  pose proof (Pos.compare_cont_antisym mx my Eq) as Hm. simpl in Hm.
  destruct sx, sy; intros H; inversion H; try reflexivity;
    destruct (ex ?= ey)%Z; simpl; try reflexivity;
    now rewrite <- Hm.
Qed.

Lemma number_not_nan (x : float) : is_number x = true -> Prim2SF x <> S754_nan.
Proof.
  unfold is_number, PrimFloat.is_nan. rewrite negb_involutive, FloatAxioms.eqb_spec.
  intros H Hnan. rewrite Hnan in H. discriminate.
Qed.

Lemma SFcompare_numbers (x y : spec_float) :
  x <> S754_nan -> y <> S754_nan -> exists c, SFcompare x y = Some c.
Proof.
  intros Hx Hy. destruct x, y; simpl; try congruence; eauto.
Qed.

(** For numbers, [s < t] is the negation of [s >= t]. *)
Lemma below_or_at_least (s t : float) :
  is_number s = true -> is_number t = true ->
  PrimFloat.ltb s t = negb (PrimFloat.leb t s).
Proof.
  intros Hs Ht. rewrite FloatAxioms.ltb_spec, FloatAxioms.leb_spec. unfold SFltb, SFleb.
  destruct (SFcompare_numbers _ _ (number_not_nan s Hs) (number_not_nan t Ht))
    as [c Hc].
  rewrite Hc, (SFcompare_antisym _ _ _ Hc). now destruct c.
Qed.

(** [s == t] puts [s] on the side of [s >= t]. *)
Lemma equal_is_at_least (s t : float) :
  PrimFloat.eqb s t = true -> PrimFloat.leb t s = true.
Proof.
  rewrite FloatAxioms.eqb_spec, FloatAxioms.leb_spec. unfold SFeqb, SFleb.
  destruct (SFcompare (Prim2SF s) (Prim2SF t)) as [c|] eqn:Hc; [|discriminate].
  rewrite (SFcompare_antisym _ _ _ Hc). now destruct c.
Qed.

(** *** Rounding in binary64 *)

Section Binary64.
Local Open Scope Z_scope.

Lemma digits2_pos_size (p : positive) : digits2_pos p = Pos.size p.
Proof. induction p; simpl; congruence. Qed.

Lemma Zdigits2_log2 (z : Z) : 0 < z -> Zdigits2 z = Z.log2 z + 1.
Proof.
  destruct z as [|p|p]; try lia. intros _. simpl.
  destruct p; simpl; rewrite ?digits2_pos_size; lia.
Qed.

Lemma Zdigits2_nonneg (z : Z) : 0 <= Zdigits2 z.
Proof. destruct z; simpl; lia. Qed.

Lemma Zdigits2_pos (z : Z) : 0 < z -> 0 < Zdigits2 z.
Proof. intros H. rewrite Zdigits2_log2 by assumption. pose proof (Z.log2_nonneg z). lia. Qed.

Lemma Zdigits2_div_pow2 (m k : Z) :
  0 <= m -> 0 <= k -> Zdigits2 (m / 2 ^ k) = Z.max (Zdigits2 m - k) 0.
Proof.
  intros Hm Hk.
  assert (Hpow : 0 < 2 ^ k) by (apply Z.pow_pos_nonneg; lia).
  destruct (Z.eq_dec m 0) as [->|Hne].
  { rewrite Z.div_0_l by lia. simpl. lia. }
  assert (Hpos : 0 < m) by lia.
  rewrite (Zdigits2_log2 m Hpos).
  destruct (Z_lt_le_dec (Z.log2 m) k) as [Hlt|Hle].
  - assert (Hsmall : m < 2 ^ k).
    { apply Z.log2_lt_pow2; assumption. }
    rewrite Z.div_small by lia. simpl. lia.
  - assert (Hbig : 2 ^ k <= m) by (apply Z.log2_le_pow2; assumption).
    assert (Hq : 0 < m / 2 ^ k) by (apply Z.div_str_pos; lia).
    rewrite (Zdigits2_log2 _ Hq), <- Z.shiftr_div_pow2 by assumption.
    rewrite Z.log2_shiftr by assumption. lia.
Qed.

Lemma Zdigits2_succ (m : Z) :
  0 <= m -> Zdigits2 m <= Zdigits2 (m + 1) <= Zdigits2 m + 1.
Proof.
  intros Hm. destruct (Z.eq_dec m 0) as [->|Hne]; [simpl; lia|].
  rewrite !Zdigits2_log2 by lia.
  pose proof (Z.log2_le_mono m (m + 1) ltac:(lia)).
  pose proof (Z.log2_succ_le m). unfold Z.succ in *. lia.
Qed.

Lemma shr_1_m (mrs : shr_record) :
  0 <= shr_m mrs -> shr_m (shr_1 mrs) = shr_m mrs / 2.
Proof.
  destruct mrs as [m r s]. cbn [shr_m]. intros Hm.
  rewrite <- Z.div2_div. destruct m as [|p|p]; [reflexivity| |lia].
  destruct p; reflexivity.
Qed.

Lemma iter_shr_1_m (p : positive) :
  forall mrs, 0 <= shr_m mrs ->
    shr_m (SpecFloat.iter_pos shr_1 p mrs) = shr_m mrs / 2 ^ Zpos p.
Proof.
  assert (Hstep : forall mrs, 0 <= shr_m mrs -> 0 <= shr_m (shr_1 mrs)).
  { intros mrs H. rewrite shr_1_m by assumption. apply Z.div_pos; lia. }
  induction p as [p IH|p IH|]; intros mrs Hm; cbn [SpecFloat.iter_pos].
  - assert (H1 := Hstep mrs Hm).
    assert (H2 : 0 <= shr_m (SpecFloat.iter_pos shr_1 p (shr_1 mrs))).
    { rewrite IH by assumption. apply Z.div_pos; [assumption|]. apply Z.pow_pos_nonneg; lia. }
    rewrite IH, IH, shr_1_m by assumption.
    rewrite !Z.div_div by (try apply Z.pow_pos_nonneg; lia).
    f_equal.
    replace (Zpos p~1) with (1 + Zpos p + Zpos p) by lia.
    rewrite !Z.pow_add_r by lia. lia.
  - assert (H2 : 0 <= shr_m (SpecFloat.iter_pos shr_1 p mrs)).
    { rewrite IH by assumption. apply Z.div_pos; [assumption|]. apply Z.pow_pos_nonneg; lia. }
    rewrite IH, IH by assumption.
    rewrite !Z.div_div by (try apply Z.pow_pos_nonneg; lia).
    f_equal.
    replace (Zpos p~0) with (Zpos p + Zpos p) by lia.
    rewrite !Z.pow_add_r by lia. lia.
  - rewrite shr_1_m by assumption. reflexivity.
Qed.

Lemma shr_fexp_m (m e : Z) (l : location) :
  0 <= m ->
  let n := Z.max 0 (fexp prec emax (Zdigits2 m + e) - e) in
  exists mrs, shr_fexp prec emax m e l = (mrs, e + n) /\ shr_m mrs = m / 2 ^ n.
Proof.
  intros Hm n. unfold shr_fexp, shr. subst n.
  assert (Hrec : shr_m (shr_record_of_loc m l) = m) by (destruct l as [|[]]; reflexivity).
  destruct (fexp prec emax (Zdigits2 m + e) - e) as [|p|p] eqn:Hn.
  - eexists. split; [f_equal; lia|]. rewrite Hrec. simpl. now rewrite Z.div_1_r.
  - eexists. split; [f_equal; lia|]. rewrite iter_shr_1_m by (rewrite Hrec; exact Hm).
    rewrite Hrec. f_equal.
  - eexists. split; [f_equal; lia|]. rewrite Hrec. simpl. now rewrite Z.div_1_r.
Qed.

Lemma round_nearest_even_cases (m : Z) (l : location) :
  round_nearest_even m l = m \/ round_nearest_even m l = m + 1.
Proof.
  destruct l as [|[]]; simpl; auto. destruct (Z.even m); auto.
Qed.

Lemma binary_round_aux_spec (mx ex : Z) (lx : location) :
  0 <= mx ->
  ex <= fexp prec emax (Zdigits2 mx + ex) ->
  rounded_near (Zdigits2 mx + ex) (0 <? mx) (binary_round_aux prec emax false mx ex lx).
Proof.
  intros Hmx Hex. unfold binary_round_aux.
  destruct (shr_fexp_m mx ex lx Hmx) as (mrs1 & -> & Hm1).
  set (n := Z.max 0 (fexp prec emax (Zdigits2 mx + ex) - ex)) in *.
  set (m2 := round_nearest_even (shr_m mrs1) (loc_of_shr_record mrs1)).
  assert (Hn : 0 <= n) by (subst n; lia).
  assert (Hpow : 0 < 2 ^ n) by (apply Z.pow_pos_nonneg; lia).
  assert (Hm1pos : 0 <= shr_m mrs1) by (rewrite Hm1; apply Z.div_pos; lia).
  assert (Hd1 : Zdigits2 (shr_m mrs1) = Z.max (Zdigits2 mx - n) 0).
  { rewrite Hm1. now apply Zdigits2_div_pow2. }
  assert (Hm2pos : 0 <= m2).
  { subst m2. destruct (round_nearest_even_cases (shr_m mrs1) (loc_of_shr_record mrs1)) as [->| ->]; lia. }
  assert (Hd2 : Zdigits2 (shr_m mrs1) <= Zdigits2 m2 <= Zdigits2 (shr_m mrs1) + 1).
  { subst m2. destruct (round_nearest_even_cases (shr_m mrs1) (loc_of_shr_record mrs1)) as [->| ->].
    - lia.
    - now apply Zdigits2_succ. }
  destruct (shr_fexp_m m2 (ex + n) loc_Exact Hm2pos) as (mrs3 & -> & Hm3).
  set (k := Z.max 0 (fexp prec emax (Zdigits2 m2 + (ex + n)) - (ex + n))) in *.
  assert (Hk : 0 <= k) by (subst k; lia).
  assert (Hd3 : Zdigits2 (shr_m mrs3) = Z.max (Zdigits2 m2 - k) 0).
  { rewrite Hm3. now apply Zdigits2_div_pow2. }
  assert (Hm3pos : 0 <= shr_m mrs3).
  { rewrite Hm3. apply Z.div_pos; [lia|]. apply Z.pow_pos_nonneg; lia. }
  pose proof (Zdigits2_nonneg mx) as Hdx.
  assert (Hdxpos : 0 < mx -> 0 < Zdigits2 mx) by apply Zdigits2_pos.
  assert (Hm1zero : mx = 0 -> Zdigits2 m2 <= 1).
  { intros ->. simpl in Hd1. lia. }
  unfold fexp, SpecFloat.emin, prec, emax in *.
  destruct (shr_m mrs3) as [|m3|m3] eqn:Em3.
  - cbn [rounded_near]. split; [reflexivity|]. intros Hnz. apply Z.ltb_lt in Hnz.
    specialize (Hdxpos Hnz). simpl in Hd3. lia.
  - destruct (_ <=? _) eqn:Hle.
    + cbn [rounded_near]. split; [reflexivity|]. apply Z.leb_le in Hle.
      unfold magnitude. change (Zpos (digits2_pos m3)) with (Zdigits2 (Zpos m3)).
      destruct (Z.eq_dec mx 0) as [Hz|Hz]; [specialize (Hm1zero Hz)|]; lia.
    + cbn [rounded_near]. split; [reflexivity|]. apply Z.leb_gt in Hle.
      destruct (Z.eq_dec mx 0) as [Hz|Hz]; [specialize (Hm1zero Hz)|]; lia.
  - lia.
Qed.

Lemma magnitude_log2 (m : positive) (e : Z) : magnitude m e = Z.log2 (Zpos m) + 1 + e.
Proof.
  unfold magnitude. change (Zpos (digits2_pos m)) with (Zdigits2 (Zpos m)).
  rewrite Zdigits2_log2 by lia. reflexivity.
Qed.

(** A valid finite number carries its canonical exponent. *)
Lemma valid_finite (s : bool) (m : positive) (e : Z) :
  valid_binary (S754_finite s m e) = true ->
  e = Z.max (magnitude m e - 53) (-1074) /\ e <= 971.
Proof.
  cbn [SpecFloat.valid_binary]. unfold bounded, canonical_mantissa, fexp, SpecFloat.emin, prec, emax.
  intros H. apply andb_prop in H as [Hc Hb].
  apply Z.eqb_eq in Hc. apply Z.leb_le in Hb. fold (magnitude m e) in Hc. split; [lia|].
  exact Hb.
Qed.

Lemma iter_xO_pow2 (m d : positive) :
  Zpos (Pos.iter xO m d) = Zpos m * 2 ^ Zpos d.
Proof.
  induction d as [|d IH] using Pos.peano_ind.
  - simpl. lia.
  - rewrite Pos.iter_succ, Pos2Z.inj_xO, IH, Pos2Z.inj_succ, Z.pow_succ_r by lia. lia.
Qed.

Lemma shl_align_spec (mx : positive) (ex ex' : Z) :
  snd (shl_align mx ex ex') = Z.min ex ex'
  /\ Zpos (fst (shl_align mx ex ex')) = Zpos mx * 2 ^ (ex - Z.min ex ex').
Proof.
  unfold shl_align. destruct (ex' - ex) as [|d|d] eqn:Hd; cbn [fst snd].
  - split; [lia|]. replace (ex - Z.min ex ex') with 0 by lia. simpl. lia.
  - split; [lia|]. replace (ex - Z.min ex ex') with 0 by lia. simpl. lia.
  - split; [lia|]. replace (ex - Z.min ex ex') with (Zpos d) by lia.
    apply iter_xO_pow2.
Qed.

Lemma shl_align_magnitude (mx : positive) (ex ex' : Z) :
  magnitude (fst (shl_align mx ex ex')) (snd (shl_align mx ex ex')) = magnitude mx ex.
Proof.
  destruct (shl_align_spec mx ex ex') as [He Hm].
  rewrite !magnitude_log2, Hm, He, Z.log2_mul_pow2 by lia. lia.
Qed.

Lemma binary_round_spec (m : positive) (e : Z) :
  rounded_near (magnitude m e) true (binary_round prec emax false m e).
Proof.
  unfold binary_round.
  pose proof (shl_align_magnitude m e (fexp prec emax (Zpos (digits2_pos m) + e))) as Hmag.
  destruct (shl_align_spec m e (fexp prec emax (Zpos (digits2_pos m) + e))) as [He _].
  destruct (shl_align m e _) as [mz ez]. cbn [fst snd] in *.
  rewrite <- Hmag. unfold magnitude. change (Zpos (digits2_pos mz)) with (Zdigits2 (Zpos mz)).
  apply (binary_round_aux_spec (Zpos mz) ez loc_Exact); [lia|].
  change (Zdigits2 (Zpos mz) + ez) with (magnitude mz ez). rewrite Hmag. unfold magnitude. lia.
Qed.

(** The product of two positive numbers. *)
Lemma SFmul_rounded (mx my : positive) (ex ey : Z) :
  valid_binary (S754_finite false mx ex) = true ->
  valid_binary (S754_finite false my ey) = true ->
  exists M, magnitude mx ex + magnitude my ey - 1 <= M <= magnitude mx ex + magnitude my ey
    /\ rounded_near M true (SF64mul (S754_finite false mx ex) (S754_finite false my ey)).
Proof.
  intros Hx Hy. apply valid_finite in Hx as [Hx _]. apply valid_finite in Hy as [Hy _].
  unfold SF64mul, SFmul. cbn [xorb].
  exists (Zdigits2 (Zpos (mx * my)) + (ex + ey)).
  assert (Hd : magnitude mx ex + magnitude my ey - 1 <= Zdigits2 (Zpos (mx * my)) + (ex + ey)
               <= magnitude mx ex + magnitude my ey).
  { rewrite !magnitude_log2, Zdigits2_log2, Pos2Z.inj_mul by lia.
    pose proof (Z.log2_mul_below (Zpos mx) (Zpos my) ltac:(lia) ltac:(lia)).
    pose proof (Z.log2_mul_above (Zpos mx) (Zpos my) ltac:(lia) ltac:(lia)). lia. }
  split; [exact Hd|].
  apply (binary_round_aux_spec (Zpos (mx * my)) (ex + ey) loc_Exact); [lia|].
  unfold fexp, SpecFloat.emin, prec, emax. unfold magnitude in *. lia.
Qed.

(** The sum of two positive numbers. *)
Lemma SFadd_rounded (mx my : positive) (ex ey : Z) :
  exists M, Z.max (magnitude mx ex) (magnitude my ey) <= M <= Z.max (magnitude mx ex) (magnitude my ey) + 1
    /\ rounded_near M true (SF64add (S754_finite false mx ex) (S754_finite false my ey)).
Proof.
  unfold SF64add, SFadd. cbn [cond_Zopp].
  destruct (shl_align_spec mx ex (Z.min ex ey)) as [_ Hmx].
  destruct (shl_align_spec my ey (Z.min ex ey)) as [_ Hmy].
  set (ax := fst (shl_align mx ex (Z.min ex ey))) in *.
  set (ay := fst (shl_align my ey (Z.min ex ey))) in *.
  change (Zpos ax + Zpos ay) with (Zpos (ax + ay)). cbn [binary_normalize].
  exists (magnitude (ax + ay) (Z.min ex ey)). split; [|apply binary_round_spec].
  rewrite !magnitude_log2, Pos2Z.inj_add.
  assert (Hlx : Z.log2 (Zpos ax) = ex - Z.min ex (Z.min ex ey) + Z.log2 (Zpos mx))
    by (rewrite Hmx; apply Z.log2_mul_pow2; lia).
  assert (Hly : Z.log2 (Zpos ay) = ey - Z.min ey (Z.min ex ey) + Z.log2 (Zpos my))
    by (rewrite Hmy; apply Z.log2_mul_pow2; lia).
  pose proof (Z.log2_le_mono (Zpos ax) (Zpos ax + Zpos ay) ltac:(lia)).
  pose proof (Z.log2_le_mono (Zpos ay) (Zpos ax + Zpos ay) ltac:(lia)).
  pose proof (Z.log2_le_mono (Zpos ax + Zpos ay) (2 * Z.max (Zpos ax) (Zpos ay)) ltac:(lia)) as Hup.
  rewrite Z.log2_double in Hup by lia.
  assert (Hmax : Z.log2 (Z.max (Zpos ax) (Zpos ay)) = Z.max (Z.log2 (Zpos ax)) (Z.log2 (Zpos ay))).
  { destruct (Z.max_spec (Zpos ax) (Zpos ay)) as [[Hlt ->]|[Hlt ->]].
    - pose proof (Z.log2_le_mono (Zpos ax) (Zpos ay) ltac:(lia)). lia.
    - pose proof (Z.log2_le_mono (Zpos ay) (Zpos ax) ltac:(lia)). lia. }
  lia.
Qed.

(** The number of an unsigned integer. *)
Lemma binary_normalize_rounded (z : Z) :
  0 < z -> rounded_near (Zdigits2 z) true (binary_normalize prec emax z 0 false).
Proof.
  destruct z as [|p|p]; try lia. intros _. cbn [binary_normalize].
  replace (Zdigits2 (Zpos p)) with (magnitude p 0) by (unfold magnitude; simpl; lia).
  apply binary_round_spec.
Qed.

Lemma rounded_near_below (M B : Z) (b : bool) (r : spec_float) :
  rounded_near M b r -> M <= Z.max B (-1074) -> rounded_below B r.
Proof.
  destruct r as [ | | |]; cbn [rounded_near rounded_below]; intros H HB; intuition lia.
Qed.

(** The quotient of two positive numbers. *)
Lemma SFdiv_rounded (mx my : positive) (ex ey : Z) :
  rounded_below (magnitude mx ex - magnitude my ey + 1)
          (SF64div (S754_finite false mx ex) (S754_finite false my ey)).
Proof.
  unfold SF64div, SFdiv, SFdiv_core_binary. cbn [xorb].
  rewrite (Zdigits2_log2 (Zpos mx)), (Zdigits2_log2 (Zpos my)) by lia.
  set (e' := Z.min (fexp prec emax (Z.log2 (Zpos mx) + 1 + ex - (Z.log2 (Zpos my) + 1 + ey)))
                   (ex - ey)).
  set (s := ex - ey - e').
  assert (Hs : 0 <= s) by (subst s e'; lia).
  set (m' := match s with Zpos _ => Z.shiftl (Zpos mx) s | 0 => Zpos mx | Zneg _ => 0 end).
  assert (Hm' : m' = Zpos mx * 2 ^ s).
  { subst m'. destruct s as [|p|p]; [simpl; lia | | lia].
    apply Z.shiftl_mul_pow2. lia. }
  clearbody m'.
  assert (Hm'pos : 0 < m').
  { rewrite Hm'. apply Z.mul_pos_pos; [lia|]. apply Z.pow_pos_nonneg; lia. }
  assert (Ha : Z.log2 m' = s + Z.log2 (Zpos mx)) by (rewrite Hm'; apply Z.log2_mul_pow2; lia).
  destruct (Z.div_eucl m' (Zpos my)) as [q r] eqn:Hqr.
  assert (Hq : q = m' / Zpos my) by (unfold Z.div; now rewrite Hqr).
  assert (Hq0 : 0 <= q) by (rewrite Hq; apply Z.div_pos; lia).
  pose proof (Z.log2_spec (Zpos my) ltac:(lia)) as Hb.
  set (b := Z.log2 (Zpos my)) in *.
  assert (Hbpos : 0 <= b) by apply Z.log2_nonneg.
  assert (Hup : Z.log2 q <= Z.max 0 (Z.log2 m' - b)).
  { rewrite <- Z.log2_shiftr, Z.shiftr_div_pow2 by lia.
    apply Z.log2_le_mono. rewrite Hq. apply Z.div_le_compat_l; lia. }
  assert (Hlow : Z.max 0 (Z.log2 m' - (b + 1)) <= Z.log2 q).
  { rewrite <- Z.log2_shiftr, Z.shiftr_div_pow2 by lia.
    apply Z.log2_le_mono. rewrite Hq. apply Z.div_le_compat_l; [lia|].
    unfold Z.succ in Hb. lia. }
  assert (Hqa : 0 < q -> b <= Z.log2 m').
  { intros Hqpos. apply Z.log2_le_mono.
    destruct (Z_lt_le_dec m' (Zpos my)) as [Hlt|Hle]; [|exact Hle].
    rewrite Hq, Z.div_small in Hqpos by lia. lia. }
  assert (Hdq : (q = 0 /\ Zdigits2 q = 0) \/ (0 < q /\ Zdigits2 q = Z.log2 q + 1)).
  { destruct (Z.eq_dec q 0) as [->|Hne]; [left; split; reflexivity|].
    right. split; [lia|]. apply Zdigits2_log2. lia. }
  assert (Hq52 : 52 <= Z.log2 q -> 0 < q).
  { intros H52. destruct (Z.eq_dec q 0) as [->|Hne]; [simpl in H52; lia | lia]. }
  apply (rounded_near_below (Zdigits2 q + e') _ (0 <? q)).
  - apply binary_round_aux_spec; [exact Hq0|].
    subst e' s. unfold fexp, SpecFloat.emin, prec, emax in *. lia.
  - rewrite !magnitude_log2. fold b. subst e' s.
    unfold fexp, SpecFloat.emin, prec, emax in *. lia.
Qed.

(** The square root of a positive number. *)
Lemma SFsqrt_rounded (m : positive) (e : Z) :
  rounded_near ((magnitude m e + 1) / 2) true (SF64sqrt (S754_finite false m e)).
Proof.
  unfold SF64sqrt, SFsqrt, SFsqrt_core_binary.
  set (e' := Z.min (fexp prec emax (Z.div2 (Zdigits2 (Zpos m) + e + 1))) (Z.div2 e)).
  set (s := e - 2 * e').
  assert (Hs : 0 <= s) by (subst s e'; rewrite !Z.div2_div; Z.to_euclidean_division_equations; lia).
  set (m' := match s with Zpos _ => Z.shiftl (Zpos m) s | 0 => Zpos m | Zneg _ => 0 end).
  assert (Hm' : m' = Zpos m * 2 ^ s).
  { subst m'. destruct s as [|p|p]; [simpl; lia | | lia].
    apply Z.shiftl_mul_pow2. lia. }
  clearbody m'.
  assert (Hm'pos : 0 < m').
  { rewrite Hm'. apply Z.mul_pos_pos; [lia|]. apply Z.pow_pos_nonneg; lia. }
  assert (HL : Z.log2 m' = s + Z.log2 (Zpos m)) by (rewrite Hm'; apply Z.log2_mul_pow2; lia).
  pose proof (Z.sqrtrem_sqrt m') as Hq.
  destruct (Z.sqrtrem m') as [q r]. cbn [fst] in Hq. subst q.
  set (h := Z.log2 m' / 2).
  assert (Hh : 0 <= h) by (subst h; pose proof (Z.log2_nonneg m'); apply Z.div_pos; lia).
  pose proof (Z.log2_spec m' Hm'pos) as [Hlo Hhi].
  assert (Hph : 0 < 2 ^ h) by (apply Z.pow_pos_nonneg; lia).
  assert (Hq1 : 2 ^ h <= Z.sqrt m').
  { rewrite <- (Z.sqrt_square (2 ^ h)) by lia. apply Z.sqrt_le_mono.
    rewrite <- Z.pow_add_r by lia.
    apply Z.le_trans with (2 ^ Z.log2 m'); [|exact Hlo].
    apply Z.pow_le_mono_r; [lia|]. subst h. Z.to_euclidean_division_equations; lia. }
  assert (Hq2 : Z.sqrt m' < 2 ^ (h + 1)).
  { apply Z.sqrt_lt_square; [lia | apply Z.pow_nonneg; lia|].
    rewrite <- Z.pow_add_r by lia.
    apply Z.lt_le_trans with (2 ^ Z.succ (Z.log2 m')); [exact Hhi|].
    apply Z.pow_le_mono_r; [lia|]. subst h. unfold Z.succ. Z.to_euclidean_division_equations; lia. }
  assert (Hlog : Z.log2 (Z.sqrt m') = h).
  { apply Z.log2_unique; [exact Hh|]. unfold Z.succ. lia. }
  assert (Hqpos : 0 < Z.sqrt m') by lia.
  assert (Hmag : Zdigits2 (Z.sqrt m') + e' = (magnitude m e + 1) / 2).
  { rewrite Zdigits2_log2, Hlog, magnitude_log2 by lia. subst h. rewrite HL. subst s.
    Z.to_euclidean_division_equations; lia. }
  rewrite <- Hmag.
  replace true with (0 <? Z.sqrt m') by (apply Z.ltb_lt; exact Hqpos).
  apply binary_round_aux_spec; [lia|].
  rewrite Hmag. subst e'. rewrite Z.div2_div.
  change (Zdigits2 (Zpos m) + e) with (magnitude m e). lia.
Qed.

(** *** What the operations do to the classes *)

Lemma zero_or_above_not_negative (l : Z) (x : spec_float) : zero_or_above l x -> not_negative x.
Proof. destruct x as [[]|[]| |[] m e]; simpl; tauto. Qed.

Lemma above_zero_or_above (l : Z) (x : spec_float) : above l x -> zero_or_above l x.
Proof. destruct x as [[]|[]| |[] m e]; simpl; tauto. Qed.

Lemma finite_below_le (h h' : Z) (x : spec_float) :
  finite_below h x -> h <= h' -> finite_below h' x.
Proof. destruct x as [[]|[]| |[] m e]; simpl; try tauto. lia. Qed.

Lemma valid_above (x : spec_float) :
  valid_binary x = true -> not_negative x -> x <> S754_zero false -> above (-1073) x.
Proof.
  destruct x as [[]|[]| |[] m e]; simpl; try tauto; try congruence.
  intros Hv _ _. apply (valid_finite false) in Hv. unfold magnitude in *. lia.
Qed.

Lemma SFmul_classes (x y : spec_float) (h1 h2 : Z) :
  valid_binary x = true -> valid_binary y = true ->
  finite_below h1 x -> finite_below h2 y ->
  not_negative (SF64mul x y)
  /\ (h1 + h2 <= 1023 -> finite_below (Z.max (h1 + h2) (-1074) + 1) (SF64mul x y))
  /\ (forall l1 l2, zero_or_above l1 x -> zero_or_above l2 y ->
        zero_or_above (l1 + l2 - 1) (SF64mul x y)).
Proof.
  intros Vx Vy Hx Hy.
  destruct x as [[]|[]| |[] mx ex]; try contradiction;
    destruct y as [[]|[]| |[] my ey]; try contradiction;
    try (cbn; repeat split; intros; exact I).
  destruct (SFmul_rounded mx my ex ey Vx Vy) as (M & HM & Hr).
  cbn [finite_below zero_or_above] in *.
  destruct (SF64mul _ _) as [s|s| |s m e]; cbn [rounded_near] in Hr;
    [destruct Hr as [-> Hr]|destruct Hr as [-> Hr]|contradiction|destruct Hr as [-> Hr]];
    cbn [not_negative finite_below zero_or_above]; repeat split; intros; lia.
Qed.

Lemma SFadd_classes (x y : spec_float) :
  not_negative x -> not_negative y ->
  not_negative (SF64add x y)
  /\ (forall l, zero_or_above l x -> zero_or_above l y -> zero_or_above l (SF64add x y))
  /\ (forall l, -1073 <= l -> above l y -> above l (SF64add x y))
  /\ (forall h1 h2, finite_below h1 x -> finite_below h2 y -> Z.max h1 h2 <= 1022 ->
        finite_below (Z.max (Z.max h1 h2) (-1075) + 2) (SF64add x y)).
Proof.
  intros Hx Hy.
  destruct x as [[]|[]| |[] mx ex]; try contradiction;
    destruct y as [[]|[]| |[] my ey]; try contradiction;
    try (cbn; repeat split; intros; solve [exact I | contradiction | assumption | lia]).
  destruct (SFadd_rounded mx my ex ey) as (M & HM & Hr).
  destruct (SF64add _ _) as [s|s| |s m e]; cbn [rounded_near] in Hr;
    [destruct Hr as [-> Hr]|destruct Hr as [-> Hr]|contradiction|destruct Hr as [-> Hr]];
    cbn [not_negative finite_below zero_or_above above]; repeat split; intros; try lia.
Qed.


Lemma SFdiv_classes (x y : spec_float) (h l : Z) :
  finite_below h x -> above l y -> h - l + 1 <= 1023 ->
  finite_below (Z.max (h - l + 1) (-1074) + 1) (SF64div x y).
Proof.
  intros Hx Hy Hhl.
  destruct x as [[]|[]| |[] mx ex]; try contradiction;
    destruct y as [[]|[]| |[] my ey]; try contradiction;
    try exact I.
  pose proof (SFdiv_rounded mx my ex ey) as Hr.
  cbn [finite_below above] in *.
  destruct (SF64div _ _) as [s|s| |s m e]; cbn [rounded_below] in Hr;
    [subst s|destruct Hr as [-> Hr]|contradiction|destruct Hr as [-> Hr]];
    cbn [finite_below]; try exact I; lia.
Qed.

Lemma SFsqrt_classes (x : spec_float) (l : Z) :
  above l x -> -2000 <= l -> above ((l + 1) / 2) (SF64sqrt x).
Proof.
  intros Hx Hl.
  destruct x as [[]|[]| |[] m e]; try contradiction; [exact I|].
  pose proof (SFsqrt_rounded m e) as Hr. cbn [above] in Hx.
  assert (Hmono : (l + 1) / 2 <= (magnitude m e + 1) / 2) by (apply Z.div_le_mono; lia).
  assert (Hlow : -1000 <= (l + 1) / 2) by (Z.to_euclidean_division_equations; lia).
  destruct (SF64sqrt _) as [s|s| |s m' e']; cbn [rounded_near] in Hr;
    [destruct Hr as [-> Hr]|destruct Hr as [-> Hr]|contradiction|destruct Hr as [-> Hr]];
    cbn [above]; try exact I.
  - specialize (Hr eq_refl). lia.
  - lia.
Qed.

Lemma binary_normalize_classes (z : Z) :
  0 <= z < 2 ^ 63 ->
  finite_below 64 (binary_normalize prec emax z 0 false)
  /\ zero_or_above 1 (binary_normalize prec emax z 0 false).
Proof.
  intros Hz. destruct (Z.eq_dec z 0) as [->|Hne]; [split; exact I|].
  pose proof (binary_normalize_rounded z ltac:(lia)) as Hr.
  assert (Hd : 1 <= Zdigits2 z <= 63).
  { rewrite Zdigits2_log2 by lia. pose proof (Z.log2_nonneg z).
    assert (Z.log2 z < 63) by (apply Z.log2_lt_pow2; lia). lia. }
  destruct (binary_normalize _ _ _ _ _) as [s|s| |s m e]; cbn [rounded_near] in Hr;
    [destruct Hr as [-> Hr]|destruct Hr as [-> Hr]|contradiction|destruct Hr as [-> Hr]];
    cbn [finite_below zero_or_above]; try (split; exact I); try lia.
Qed.

Lemma SFeqb_zero (x : spec_float) (l : Z) :
  zero_or_above l x -> SFeqb x (S754_zero false) = false -> above l x.
Proof.
  destruct x as [[]|[]| |[] m e]; simpl; try tauto. discriminate.
Qed.

Lemma SFeqb_not_negative (x : spec_float) : not_negative x -> SFeqb x x = true.
Proof.
  destruct x as [[]|[]| |[] m e]; simpl; try tauto. intros _.
  unfold SFeqb. simpl. rewrite Z.compare_refl.
  now rewrite Pos.compare_cont_refl.
Qed.

(** A number between 0 and a number of exponent -52, such as 1. *)
Lemma SFleb_exponent (x : spec_float) (one : positive) :
  valid_binary x = true ->
  SFleb (S754_zero false) x = true ->
  SFleb x (S754_finite false one (-52)) = true ->
  match x with
  | S754_zero _ => True
  | S754_finite false m e => magnitude m e <= 1
  | _ => False
  end.
Proof.
  intros Hv H0 H1. destruct x as [s|[]| |[] m e]; try exact I.
  - discriminate H0.
  - discriminate H1.
  - discriminate H0.
  - discriminate H0.
  - apply (valid_finite false) in Hv as [He _].
    unfold SFleb, SFcompare in H1.
    destruct (e ?= -52) eqn:Hc.
    + apply Z.compare_eq in Hc. lia.
    + rewrite Z.compare_lt_iff in Hc. lia.
    + discriminate.
Qed.

End Binary64.

(** *** The two outputs *)

Lemma filter_complement_length {A} (p q : A -> bool) (l : list A) :
  (forall x, In x l -> p x = negb (q x)) ->
  (length (List.filter p l) + length (List.filter q l) = length l)%nat.
Proof.
  induction l as [|x l IH]; intros H; simpl; [reflexivity|].
  rewrite (H x) by now left.
  assert (IH' := IH (fun y Hy => H y (or_intror Hy))).
  destruct (q x); simpl; lia.
Qed.

Lemma has_terms_scored (stop_words : list string) (np_log : float -> float)
    (l : list (nat * Row)) :
  forallb (has_terms stop_words) l = true ->
  exists sims, map_result (score stop_words np_log) l = Ok sims.
Proof.
  induction l as [|ir l IH]; simpl; [now exists []|].
  intros H. apply andb_prop in H as [Hir Hl]. destruct (IH Hl) as [sims Hs].
  rewrite Hs.
  destruct (score stop_words np_log ir) as [s|e] eqn:Hscore.
  - now exists (s :: sims).
  - exfalso. unfold score, record_similarity, fit_transform in Hscore.
    cbn [map] in Hscore. unfold has_terms in Hir.
    destruct (build_vocabulary _) as [|u v] eqn:Hv; [|discriminate].
    apply build_vocabulary_nonempty in Hv. simpl in Hv. rewrite app_nil_r in Hv.
    apply app_eq_nil in Hv as [Ht Ha]. rewrite Ht, Ha in Hir. discriminate.
Qed.

Lemma with_Similitud_rows (df : DataFrame) (sims : list float) (ir : nat * Row) :
  In ir (rows (with_Similitud df sims)) -> exists s, Similitud (snd ir) = Some s.
Proof.
  cbn [with_Similitud rows]. intros H.
  apply in_map_iff in H as ([x s] & <- & _). now exists s.
Qed.

Lemma with_Similitud_length (df : DataFrame) (sims : list float) :
  length sims = length (rows df) ->
  length (rows (with_Similitud df sims)) = length (rows df).
Proof.
  intros H. cbn [with_Similitud rows]. rewrite length_map, length_combine. lia.
Qed.

(** *** The scorer computes numbers *)

Lemma Prim2SF_zero : Prim2SF PrimFloat.zero = S754_zero false.
Proof. reflexivity. Qed.

Lemma Prim2SF_one :
  Prim2SF PrimFloat.one = S754_finite false 4503599627370496 (-52).
Proof. vm_compute. reflexivity. Qed.

Lemma float_of_nat_classes (k : nat) :
  finite_below 64 (Prim2SF (float_of_nat k))
  /\ zero_or_above 1 (Prim2SF (float_of_nat k)).
Proof.
  unfold float_of_nat. rewrite FloatAxioms.of_uint63_spec.
  apply binary_normalize_classes. rewrite Uint63.of_Z_spec.
  apply Z.mod_pos_bound. reflexivity.
Qed.

(** One more than a number between 0 and 1. *)
Lemma succ_of_unit (a : float) :
  between_0_and_1 a = true ->
  above 1 (Prim2SF (PrimFloat.add a PrimFloat.one))
  /\ finite_below 3 (Prim2SF (PrimFloat.add a PrimFloat.one)).
Proof.
  unfold between_0_and_1. intros H. apply andb_prop in H as [H0 H1].
  rewrite FloatAxioms.leb_spec, Prim2SF_zero in H0.
  rewrite FloatAxioms.leb_spec, Prim2SF_one in H1.
  pose proof (SFleb_exponent _ _ (Prim2SF_valid a) H0 H1) as Ha.
  rewrite FloatAxioms.add_spec, Prim2SF_one.
  destruct (Prim2SF a) as [s|s| |[] m e]; try contradiction.
  - assert (Hsum : SF64add (S754_zero s) (S754_finite false 4503599627370496 (-52))
                   = S754_finite false 4503599627370496 (-52)) by now destruct s.
    rewrite Hsum. split; vm_compute; congruence.
  - destruct (SFadd_classes (S754_finite false m e)
                (S754_finite false 4503599627370496 (-52)) I I)
      as (_ & _ & Hlow & Hup).
    split.
    + apply Hlow; [lia|]. vm_compute. congruence.
    + apply (finite_below_le (Z.max (Z.max 1 1) (-1075) + 2)); [|lia].
      apply Hup; [exact Ha | vm_compute; congruence | lia].
Qed.

(** The weights that a corpus of two documents gives its terms. *)
Lemma idf_classes (np_log : float -> float) (df : nat) :
  log_of_pair_in_range np_log = true ->
  (1 <= df <= 2)%nat ->
  above 1 (Prim2SF (idf np_log 2 df)) /\ finite_below 3 (Prim2SF (idf np_log 2 df)).
Proof.
  unfold log_of_pair_in_range. intros H Hdf. apply andb_prop in H as [H1 H2].
  assert (Hcases : df = 1%nat \/ df = 2%nat) by lia.
  destruct Hcases as [-> | ->]; unfold idf.
  - change (PrimFloat.div (float_of_nat (1 + 2)) (float_of_nat (1 + 1)))
      with 0x1.8p+0%float.
    now apply succ_of_unit.
  - change (PrimFloat.div (float_of_nat (1 + 2)) (float_of_nat (1 + 2)))
      with PrimFloat.one.
    now apply succ_of_unit.
Qed.

Lemma scaled_weight (c : nat) (w : float) :
  Prim2SF w = S754_zero false
  \/ (above 1 (Prim2SF w) /\ finite_below 3 (Prim2SF w)) ->
  weight (Prim2SF (PrimFloat.mul (float_of_nat c) w)).
Proof.
  intros Hw. destruct (float_of_nat_classes c) as [Hc1 Hc2].
  assert (Hw' : finite_below 3 (Prim2SF w) /\ zero_or_above 1 (Prim2SF w)).
  { destruct Hw as [-> | [Hlow Hup]]; [split; exact I|].
    split; [exact Hup | now apply above_zero_or_above]. }
  destruct Hw' as [Hw1 Hw2].
  rewrite FloatAxioms.mul_spec.
  destruct (SFmul_classes _ _ 64 3 (Prim2SF_valid _) (Prim2SF_valid w) Hc1 Hw1)
    as (_ & Hup & Hlow).
  split.
  - apply (finite_below_le (Z.max (64 + 3) (-1074) + 1)); [apply Hup|]; lia.
  - apply (Hlow 1%Z 1%Z); assumption.
Qed.

Lemma sparse_get_present {A} (e : nat * A) (row : sparse A) :
  In e row -> exists v, sparse_get (fst e) row = Some v.
Proof.
  intros Hin. unfold sparse_get.
  destruct (List.filter (fun e' => (fst e' =? fst e)%nat) row) as [|x l] eqn:Hf.
  - assert (Hx : In e (List.filter (fun e' => (fst e' =? fst e)%nat) row)).
    { apply filter_In. split; [exact Hin | apply Nat.eqb_refl]. }
    rewrite Hf in Hx. destruct Hx.
  - now exists (snd x).
Qed.

Lemma sparse_get_In {A} (j : nat) (row : sparse A) (v : A) :
  sparse_get j row = Some v -> exists e, In e row /\ snd e = v.
Proof.
  unfold sparse_get.
  destruct (List.filter (fun e' => (fst e' =? j)%nat) row) as [|x l] eqn:Hf;
    [discriminate|].
  intros [= <-]. exists x. split; [|reflexivity].
  assert (Hx : In x (List.filter (fun e' => (fst e' =? j)%nat) row))
    by (rewrite Hf; now left).
  now apply filter_In in Hx.
Qed.

(** A stored column is found in at least one document. *)
Lemma document_frequency_bounds (e : nat * nat) (row : sparse nat)
    (X : list (sparse nat)) :
  In row X -> In e row ->
  (1 <= document_frequency (fst e) X <= length X)%nat.
Proof.
  intros Hrow He. unfold document_frequency. split; [|apply List.filter_length_le].
  destruct (sparse_get_present e row He) as [v Hv].
  destruct (List.filter _ X) as [|x l] eqn:Hf; [|simpl; lia].
  assert (Hx : In row (List.filter (fun row => match sparse_get (fst e) row with
                                               | Some _ => true
                                               | None => false
                                               end) X)).
  { apply filter_In. split; [exact Hrow | now rewrite Hv]. }
  rewrite Hf in Hx. destruct Hx.
Qed.

Lemma nth_map_seq (f : nat -> float) (n j : nat) :
  nth j (map f (seq 0 n)) PrimFloat.zero = f j
  \/ nth j (map f (seq 0 n)) PrimFloat.zero = PrimFloat.zero.
Proof.
  destruct (Nat.lt_ge_cases j n) as [Hlt|Hge].
  - left. rewrite (nth_indep _ PrimFloat.zero (f 0%nat)) by (rewrite length_map, length_seq; exact Hlt).
    rewrite map_nth, seq_nth by exact Hlt. reflexivity.
  - right. apply nth_overflow. rewrite length_map, length_seq. exact Hge.
Qed.

(** The rows of a pair of documents, once weighted, hold weights. *)
Lemma scaled_rows_weights (np_log : float -> float) (X : list (sparse nat))
    (n : nat) (row : sparse nat) :
  log_of_pair_in_range np_log = true ->
  length X = 2%nat -> In row X ->
  Forall (fun e => weight (Prim2SF (snd e)))
         (scale (map (fun j => idf np_log (length X) (document_frequency j X)) (seq 0 n))
                row).
Proof.
  intros Hlog HX Hrow. unfold scale. apply List.Forall_forall. intros e' He'.
  apply in_map_iff in He' as (e & <- & He). cbn [snd].
  apply scaled_weight.
  destruct (nth_map_seq (fun j => idf np_log (length X) (document_frequency j X)) n (fst e))
    as [-> | ->]; [right | left; reflexivity].
  rewrite HX. apply idf_classes; [exact Hlog|].
  rewrite <- HX. exact (document_frequency_bounds e row X Hrow He).
Qed.

(** The sum of squares of a row, entry after entry. *)
Lemma squared_norm_weights (row : sparse float) :
  forall acc,
    zero_or_above 1 (Prim2SF acc) ->
    Forall (fun e => weight (Prim2SF (snd e))) row ->
    zero_or_above 1
      (Prim2SF (fold_left (fun s e => PrimFloat.add s (PrimFloat.mul (snd e) (snd e)))
                          row acc)).
Proof.
  induction row as [|e row IH]; intros acc Hacc Hrow; cbn [fold_left]; [exact Hacc|].
  inversion Hrow as [|? ? [He1 He2] Hrest]; subst.
  apply IH; [|exact Hrest].
  rewrite FloatAxioms.add_spec, FloatAxioms.mul_spec.
  destruct (SFmul_classes _ _ 68 68 (Prim2SF_valid _) (Prim2SF_valid _) He1 He1)
    as (Hnn & _ & Hlow).
  specialize (Hlow 1%Z 1%Z He2 He2).
  apply (SFadd_classes _ _ (zero_or_above_not_negative _ _ Hacc) Hnn); assumption.
Qed.

Lemma squared_norm_not_negative (row : sparse float) :
  forall acc,
    not_negative (Prim2SF acc) ->
    Forall (fun e => finite_below 1024 (Prim2SF (snd e))) row ->
    not_negative
      (Prim2SF (fold_left (fun s e => PrimFloat.add s (PrimFloat.mul (snd e) (snd e)))
                          row acc)).
Proof.
  induction row as [|e row IH]; intros acc Hacc Hrow; cbn [fold_left]; [exact Hacc|].
  inversion Hrow as [|? ? He Hrest]; subst.
  apply IH; [|exact Hrest].
  rewrite FloatAxioms.add_spec, FloatAxioms.mul_spec.
  apply (SFadd_classes _ _ Hacc).
  apply (SFmul_classes _ _ 1024 1024 (Prim2SF_valid _) (Prim2SF_valid _) He He).
Qed.

(** The first normalisation, of the weighted row: no entry of the
    result exceeds [2^70]. *)
Lemma normalize_l2_weights (row : sparse float) :
  Forall (fun e => weight (Prim2SF (snd e))) row ->
  Forall (fun e => finite_below 70 (Prim2SF (snd e))) (normalize_l2 row).
Proof.
  intros Hrow. unfold normalize_l2.
  pose proof (squared_norm_weights row PrimFloat.zero I Hrow) as Hs.
  fold (squared_norm row) in Hs.
  destruct (PrimFloat.eqb (squared_norm row) PrimFloat.zero) eqn:Hz.
  - apply List.Forall_forall. intros e He. rewrite List.Forall_forall in Hrow.
    apply (finite_below_le 68); [apply (Hrow e He) | lia].
  - rewrite FloatAxioms.eqb_spec, Prim2SF_zero in Hz.
    pose proof (SFeqb_zero _ _ Hs Hz) as Habove.
    pose proof (SFsqrt_classes _ 1 Habove ltac:(lia)) as Hroot.
    change ((1 + 1) / 2)%Z with 1%Z in Hroot. rewrite <- FloatAxioms.sqrt_spec in Hroot.
    apply List.Forall_forall. intros e' He'.
    apply in_map_iff in He' as (e & <- & He). cbn [snd].
    rewrite List.Forall_forall in Hrow. destruct (Hrow e He) as [He1 _].
    rewrite FloatAxioms.div_spec.
    apply (finite_below_le (Z.max (68 - 1 + 1) (-1074) + 1)); [|lia].
    apply SFdiv_classes; [exact He1 | exact Hroot | lia].
Qed.

(** The second normalisation, by [cosine_similarity]: the entries stay
    finite. *)
Lemma normalize_l2_finite (row : sparse float) :
  Forall (fun e => finite_below 70 (Prim2SF (snd e))) row ->
  Forall (fun e => finite_below 1024 (Prim2SF (snd e))) (normalize_l2 row).
Proof.
  intros Hrow. unfold normalize_l2.
  assert (Hrow' : Forall (fun e => finite_below 1024 (Prim2SF (snd e))) row).
  { apply List.Forall_forall. intros e He. rewrite List.Forall_forall in Hrow.
    apply (finite_below_le 70); [apply (Hrow e He) | lia]. }
  pose proof (squared_norm_not_negative row PrimFloat.zero I Hrow') as Hs.
  fold (squared_norm row) in Hs.
  destruct (PrimFloat.eqb (squared_norm row) PrimFloat.zero) eqn:Hz; [exact Hrow'|].
  rewrite FloatAxioms.eqb_spec, Prim2SF_zero in Hz.
  assert (Habove : above (-1073) (Prim2SF (squared_norm row))).
  { apply valid_above; [apply Prim2SF_valid | exact Hs|].
    intros Heq. rewrite Heq in Hz. discriminate Hz. }
  pose proof (SFsqrt_classes _ (-1073) Habove ltac:(lia)) as Hroot.
  change ((-1073 + 1) / 2)%Z with (-536)%Z in Hroot.
  rewrite <- FloatAxioms.sqrt_spec in Hroot.
  apply List.Forall_forall. intros e' He'.
  apply in_map_iff in He' as (e & <- & He). cbn [snd].
  rewrite List.Forall_forall in Hrow.
  rewrite FloatAxioms.div_spec.
  apply (finite_below_le (Z.max (70 - -536 + 1) (-1074) + 1)); [|lia].
  apply SFdiv_classes; [exact (Hrow e He) | exact Hroot | lia].
Qed.

(** The product of two rows of finite entries is not NaN. *)
Lemma sparse_dot_not_negative (a b : sparse float) :
  Forall (fun e => finite_below 1024 (Prim2SF (snd e))) a ->
  Forall (fun e => finite_below 1024 (Prim2SF (snd e))) b ->
  not_negative (Prim2SF (sparse_dot a b)).
Proof.
  intros Ha Hb. unfold sparse_dot.
  assert (Hzero : not_negative (Prim2SF PrimFloat.zero)) by exact I.
  revert Hzero. generalize PrimFloat.zero as acc.
  induction a as [|e a IH]; intros acc Hacc; cbn [fold_left]; [exact Hacc|].
  inversion Ha as [|? ? He Hrest]; subst.
  apply IH; [exact Hrest|].
  destruct (sparse_get (fst e) b) as [w|] eqn:Hw; [|exact Hacc].
  apply sparse_get_In in Hw as (e' & He' & <-).
  rewrite List.Forall_forall in Hb.
  rewrite FloatAxioms.add_spec, FloatAxioms.mul_spec.
  apply (SFadd_classes _ _ Hacc).
  apply (SFmul_classes _ _ 1024 1024 (Prim2SF_valid _) (Prim2SF_valid _) He (Hb e' He')).
Qed.

Lemma not_negative_number (x : float) :
  not_negative (Prim2SF x) -> is_number x = true.
Proof.
  intros H. unfold is_number, PrimFloat.is_nan.
  rewrite negb_involutive, FloatAxioms.eqb_spec. now apply SFeqb_not_negative.
Qed.

(** With the logarithm of the library in its range, the similarity of a
    record is a number, whatever its title and its abstract. *)
Lemma record_similarity_number (stop_words : list string) (np_log : float -> float)
    (title abstract : string) (s : float) :
  log_of_pair_in_range np_log = true ->
  record_similarity stop_words np_log title abstract = Ok s ->
  is_number s = true.
Proof.
  intros Hlog. unfold record_similarity, fit_transform. cbn [map].
  destruct (build_vocabulary [analyze stop_words title; analyze stop_words abstract])
    as [|u v]; [discriminate|].
  cbn [bind snd nth length]. intros [= <-].
  apply not_negative_number. unfold cosine_similarity.
  set (docs := [analyze stop_words title; analyze stop_words abstract]).
  set (X := [count_row (u :: v) (first_seen docs) (analyze stop_words title);
             count_row (u :: v) (first_seen docs) (analyze stop_words abstract)]).
  assert (Hrows : forall row, In row X ->
            Forall (fun e => finite_below 1024 (Prim2SF (snd e)))
              (normalize_l2
                 (normalize_l2
                    (scale (map (fun j => idf np_log 2 (document_frequency j X))
                                (seq 0 (S (length v)))) row)))).
  { intros row Hrow. apply normalize_l2_finite, normalize_l2_weights.
    exact (scaled_rows_weights np_log X (S (length v)) row Hlog eq_refl Hrow). }
  apply sparse_dot_not_negative; apply Hrows; [now left | right; now left].
Qed.

Lemma map_result_numbers (stop_words : list string) (np_log : float -> float)
    (l : list (nat * Row)) (sims : list float) :
  log_of_pair_in_range np_log = true ->
  map_result (score stop_words np_log) l = Ok sims ->
  forallb is_number sims = true.
Proof.
  intros Hlog. revert sims. induction l as [|ir l IH]; intros sims; simpl.
  - now intros [= <-].
  - destruct (score stop_words np_log ir) as [s|e] eqn:Hs; [|discriminate].
    destruct (map_result (score stop_words np_log) l) as [ss|e]; [|discriminate].
    cbn [bind]. intros [= <-]. cbn [forallb].
    rewrite (record_similarity_number _ _ _ _ _ Hlog Hs). now apply IH.
Qed.

Lemma with_Similitud_numbers (df : DataFrame) (sims : list float) :
  forallb is_number sims = true ->
  scored_with_numbers (with_Similitud df sims) = true.
Proof.
  intros Hnum. unfold scored_with_numbers. cbn [with_Similitud rows].
  apply forallb_forall. intros ir Hin.
  apply in_map_iff in Hin as ([x s] & <- & Hxs). cbn [fst snd set_Similitud Similitud].
  apply in_combine_r in Hxs. rewrite forallb_forall in Hnum. now apply Hnum.
Qed.

(** C8.  On a collection in which every record has a term, with a
    threshold that is a number and the logarithm of the library in its
    range, [check_similarity] returns and its two outputs partition the
    scored frame: every row carries a similarity that is a number; the
    two outputs are made of rows of the scored frame, in its order; the
    two sizes add up to the size of the input; a row is in the incoherent
    output exactly when its similarity [s] satisfies [s < threshold], in
    the coherent one exactly when [s >= threshold], in one exactly when
    it is not in the other, and in the coherent one when
    [s == threshold]. *)
Theorem scorer_partition (stop_words : list string) (np_log : float -> float)
    (df : DataFrame) (threshold : float) :
  keyed df = true ->
  forallb (has_terms stop_words) (rows df) = true ->
  log_of_pair_in_range np_log = true ->
  is_number threshold = true ->
  exists df' incoherent coherent,
    check_similarity stop_words np_log df threshold = Ok (df', incoherent, coherent)
    /\ scored_with_numbers df' = true
    /\ shape0 df' = shape0 df
    /\ (shape0 incoherent + shape0 coherent = shape0 df)%nat
    /\ sublist (rows incoherent) (rows df')
    /\ sublist (rows coherent) (rows df')
    /\ (forall ir, In ir (rows df') ->
          exists s, Similitud (snd ir) = Some s
            /\ (In ir (rows incoherent) <-> PrimFloat.ltb s threshold = true)
            /\ (In ir (rows coherent) <-> PrimFloat.leb threshold s = true)
            /\ (In ir (rows incoherent) <-> ~ In ir (rows coherent))
            /\ (PrimFloat.eqb s threshold = true -> In ir (rows coherent))).
Proof.
  intros Hk Hterms Hlog Hnum.
  destruct (has_terms_scored stop_words np_log (rows df) Hterms) as [sims Hsims].
  rewrite (check_similarity_spec _ _ _ _ Hk), Hsims. cbn [bind].
  set (df' := with_Similitud df sims).
  assert (Hnums : scored_with_numbers df' = true).
  { apply with_Similitud_numbers. exact (map_result_numbers _ _ _ _ Hlog Hsims). }
  assert (Hlen : shape0 df' = shape0 df).
  { apply with_Similitud_length. apply (map_result_length _ _ _ Hsims). }
  assert (Hneg : forall ir, In ir (rows df') ->
            below threshold (snd ir) = negb (at_least threshold (snd ir))).
  { intros ir Hin. pose proof Hnums as Hall. unfold scored_with_numbers in Hall.
    rewrite forallb_forall in Hall. specialize (Hall ir Hin).
    unfold below, at_least. destruct (Similitud (snd ir)) as [s|]; [|discriminate].
    now apply below_or_at_least. }
  eexists _, _, _. split; [reflexivity|]. cbn [rows].
  split; [exact Hnums|]. split; [exact Hlen|].
  split.
  { unfold shape0. cbn [rows]. rewrite (filter_complement_length _ _ _ Hneg).
    exact Hlen. }
  split; [apply filter_sublist|]. split; [apply filter_sublist|].
  intros ir Hin. destruct (with_Similitud_rows df sims ir Hin) as [s Hs].
  exists s. split; [exact Hs|].
  assert (Hlt : In ir (List.filter (fun ir => below threshold (snd ir)) (rows df'))
                <-> PrimFloat.ltb s threshold = true).
  { rewrite filter_In. unfold below. rewrite Hs. tauto. }
  assert (Hge : In ir (List.filter (fun ir => at_least threshold (snd ir)) (rows df'))
                <-> PrimFloat.leb threshold s = true).
  { rewrite filter_In. unfold at_least. rewrite Hs. tauto. }
  split; [exact Hlt|]. split; [exact Hge|]. split.
  - rewrite !filter_In, (Hneg ir Hin).
    destruct (at_least threshold (snd ir)); simpl; split.
    + intros [_ H]. discriminate H.
    + intros H. exfalso. apply H. split; [exact Hin | reflexivity].
    + intros _ [_ H]. discriminate H.
    + intros _. split; [exact Hin | reflexivity].
  - intros Heq. apply Hge. now apply equal_is_at_least.
Qed.

Lemma scorer_partition_witness :
  let df := pd_DataFrame
              [new_row "Portfolio Optimization Using AI"
                 "This paper studies portfolio optimization with deep learning." 2021;
               new_row "Unrelated Topic"
                 "Completely different subject matter with no overlap." 2015] in
  keyed df = true
  /\ forallb (has_terms some_stop_words) (rows df) = true
  /\ log_of_pair_in_range np_log_of_pair = true
  /\ is_number threshold_02 = true
  /\ exists df' incoherent coherent,
       check_similarity some_stop_words np_log_of_pair df threshold_02
       = Ok (df', incoherent, coherent)
       /\ map fst (rows incoherent) = [1%nat]
       /\ map fst (rows coherent) = [0%nat]
       /\ (shape0 incoherent + shape0 coherent = shape0 df)%nat.
Proof.
  intros df. split; [reflexivity|]. split; [reflexivity|].
  split; [reflexivity|]. split; [reflexivity|].
  destruct (scorer_partition some_stop_words np_log_of_pair df threshold_02
              eq_refl eq_refl eq_refl eq_refl)
    as (df' & inc & coh & Heq & _ & _ & Hcount & _).
  exists df', inc, coh. split; [exact Heq|].
  split; [vm_compute in Heq; injection Heq as _ <- _; reflexivity|].
  split; [vm_compute in Heq; injection Heq as _ _ <-; reflexivity|].
  exact Hcount.
Defined.

(** * Further properties of the program *)

(** ** The readers *)

Lemma ui_bind_assoc {A B C} (m : ui A) (f : A -> ui B) (g : B -> ui C) :
  ui_bind (ui_bind m f) g = ui_bind m (fun a => ui_bind (f a) g).
Proof.
  destruct m as [log [a|e]]; simpl; [|reflexivity].
  destruct (f a) as [log' [b|e]]; simpl.
  - destruct (g b) as [log'' r]. now rewrite app_assoc.
  - reflexivity.
Qed.

Lemma ui_bind_emit {A} (ev : ui_event) (k : ui A) :
  (emit ev ;;; k) = (ev :: fst k, snd k).
Proof. unfold emit. rewrite ui_bind_ok. reflexivity. Qed.

Lemma before_bad_year_split (entries : list RawRecord) :
  exists rest,
    entries = before_bad_year entries ++ rest
    /\ existsb bad_year (before_bad_year entries) = false
    /\ match rest with
       | [] => existsb bad_year entries = false
       | e :: _ => bad_year e = true
       end.
Proof.
  induction entries as [|e entries (rest & Heq & Hnone & Hrest)]; simpl.
  - now exists [].
  - destruct (bad_year e) eqn:He.
    + exists (e :: entries). now repeat split.
    + exists rest. simpl. rewrite He. split; [now rewrite <- Heq|].
      split; [assumption|]. destruct rest; assumption.
Qed.

Lemma parse_bib_from_parsed (nm : string) (entries : list RawRecord)
    (rest : list UploadedFile) valid invalid :
  parse_bib_from ({| name := nm; payload := Parsed entries |} :: rest) valid invalid
  = ui_bind (reader_errors bib_error {| name := nm; payload := Parsed entries |}, Ok tt)
      (fun _ => parse_bib_from rest
                  (valid ++ kept (before_bad_year entries))
                  (invalid ++ rejected (before_bad_year entries))).
Proof.
  cbn [parse_bib_from payload reader_errors]. rewrite parse_bib_entries_spec.
  unfold kept, rejected. destruct (existsb bad_year entries).
  - reflexivity.
  - rewrite ui_bind_ok. simpl. now destruct (parse_bib_from rest _ _).
Qed.

(** X1.  Whenever [filter_records] returns, it has split its input without
    losing, repeating or reordering a record: the rejected records are
    the incomplete records of the input in their order, the rows are the
    rows of the complete ones in their order, and the two lengths add up
    to the length of the input. *)
Theorem filter_records_partitions (records : list RawRecord)
    (valid : list Row) (invalid : list RawRecord) :
  filter_records records = Ok (valid, invalid) ->
  valid = map to_row (List.filter complete records)
  /\ invalid = List.filter (fun r => negb (complete r)) records
  /\ sublist invalid records
  /\ (length valid + length invalid = length records)%nat.
Proof.
  intros H. pose proof (filter_records_counts records valid invalid H) as Hlen.
  rewrite filter_records_spec in H.
  destruct (existsb bad_year records); [discriminate|].
  inversion H; subst. repeat split; try reflexivity; try assumption.
  apply filter_sublist.
Qed.

Lemma filter_records_partitions_witness :
  let records := [entry "Deep hedging" "We hedge a portfolio." "2021";
                  <["title" := "No abstract"]> ∅;
                  entry "Robust control" "An optimization view." " 2019 "] in
  filter_records records
  = Ok ([new_row "Deep hedging" "We hedge a portfolio." 2021;
         new_row "Robust control" "An optimization view." 2019],
        [<["title" := "No abstract"]> ∅])
  /\ (2 + 1 = length records)%nat.
Proof.
  intros records.
  assert (H : filter_records records
              = Ok ([new_row "Deep hedging" "We hedge a portfolio." 2021;
                     new_row "Robust control" "An optimization view." 2019],
                    [<["title" := "No abstract"]> ∅])) by reflexivity.
  split; [exact H|].
  exact (proj2 (proj2 (proj2 (filter_records_partitions records _ _ H)))).
Defined.

(** X2.  A year that [int] refuses in a .bib file stops the reading of
    that file where it stands: the complete entries before the first such
    entry are kept, the incomplete ones before it are tallied, and that
    entry and all the entries after it are neither kept nor tallied; the
    error is shown exactly when there is such an entry. *)
Theorem parse_bib_keeps_entries_before_bad_year (nm : string)
    (entries : list RawRecord) :
  parse_bib [ {| name := nm; payload := Parsed entries |} ]
  = ((if existsb bad_year entries then [st_error bib_error ValueError] else []),
     Ok (pd_DataFrame (map to_row (List.filter complete (before_bad_year entries))),
         length (List.filter (fun r => negb (complete r)) (before_bad_year entries))))
  /\ exists rest,
       entries = before_bad_year entries ++ rest
       /\ existsb bad_year (before_bad_year entries) = false
       /\ match rest with
          | [] => existsb bad_year entries = false
          | e :: _ => bad_year e = true
          end.
Proof.
  split; [|apply before_bad_year_split].
  unfold parse_bib. rewrite parse_bib_from_parsed. cbn [reader_errors payload].
  unfold kept, rejected. now destruct (existsb bad_year entries).
Qed.

Lemma parse_ris_from_decodable (files : list UploadedFile) :
  forallb decodable files = true ->
  forall valid invalid,
    parse_ris_from files valid invalid
    = (flat_map (reader_errors ris_error) files,
       Ok (valid ++ flat_map (fun f => kept (read_as_ris f)) files,
           invalid ++ flat_map (fun f => rejected (read_as_ris f)) files)).
Proof.
  induction files as [|[nm p] rest IH]; intros Hdec valid invalid.
  - simpl. now rewrite !app_nil_r.
  - simpl in Hdec. apply andb_prop in Hdec as [Hf Hrest].
    destruct p as [| |records].
    + discriminate.
    + cbn [parse_ris_from payload]. rewrite ui_bind_emit, (IH Hrest).
      cbn [fst snd flat_map reader_errors payload].
      unfold read_as_ris, kept, rejected. simpl. reflexivity.
    + rewrite parse_ris_from_parsed.
      cbn [flat_map reader_errors payload].
      unfold read_as_ris at 1 3. cbn [parsed_records payload].
      destruct (existsb bad_year records).
      * rewrite ui_bind_emit, (IH Hrest). reflexivity.
      * rewrite (IH Hrest). unfold kept, rejected. now rewrite <- !app_assoc.
Qed.

Lemma parse_bib_from_decodable (files : list UploadedFile) :
  forallb decodable files = true ->
  forall valid invalid,
    parse_bib_from files valid invalid
    = (flat_map (reader_errors bib_error) files,
       Ok (valid ++ flat_map (fun f => kept (read_as_bib f)) files,
           invalid ++ flat_map (fun f => rejected (read_as_bib f)) files)).
Proof.
  induction files as [|[nm p] rest IH]; intros Hdec valid invalid.
  - simpl. now rewrite !app_nil_r.
  - simpl in Hdec. apply andb_prop in Hdec as [Hf Hrest].
    destruct p as [| |entries].
    + discriminate.
    + cbn [parse_bib_from payload]. rewrite ui_bind_emit, (IH Hrest).
      cbn [fst snd flat_map reader_errors payload].
      unfold read_as_bib, kept, rejected. simpl. reflexivity.
    + rewrite parse_bib_from_parsed, ui_bind_ok, (IH Hrest).
      cbn [fst snd flat_map]. unfold read_as_bib at 1 3.
      cbn [parsed_records payload]. now rewrite <- !app_assoc.
Qed.

(** X3.  Given several files at once, as the first version of the page
    gives them, each reader goes through the decodable files in the
    order of the list and returns one frame: the rows that every file
    yields on its own, file after file, labelled from 0, with the sum of
    the tallies.  A file that the parser refuses, or a .ris file with a
    year that [int] refuses, adds its error message and nothing else; it
    does not stop the files after it. *)
Theorem readers_concatenate_in_list_order (files : list UploadedFile) :
  forallb decodable files = true ->
  parse_ris files
  = (flat_map (reader_errors ris_error) files,
     Ok (pd_DataFrame (flat_map (fun f => kept (read_as_ris f)) files),
         length (flat_map (fun f => rejected (read_as_ris f)) files)))
  /\ parse_bib files
     = (flat_map (reader_errors bib_error) files,
        Ok (pd_DataFrame (flat_map (fun f => kept (read_as_bib f)) files),
            length (flat_map (fun f => rejected (read_as_bib f)) files))).
Proof.
  intros Hdec. split.
  - unfold parse_ris. rewrite (parse_ris_from_decodable files Hdec), ui_bind_ok.
    cbn [fst snd ui_ret]. now rewrite app_nil_r.
  - unfold parse_bib. rewrite (parse_bib_from_decodable files Hdec), ui_bind_ok.
    cbn [fst snd ui_ret]. now rewrite app_nil_r.
Qed.

Lemma readers_concatenate_in_list_order_witness :
  let files :=
    [ {| name := "a.ris";
         payload := Parsed [entry "Deep hedging" "We hedge a portfolio." "2021"] |};
      {| name := "broken.ris"; payload := Malformed |};
      {| name := "c.ris";
         payload := Parsed [entry "Robust control" "An optimization view." "2019";
                            <["title" := "No abstract"]> ∅] |} ] in
  forallb decodable files = true
  /\ parse_ris files
     = ([st_error ris_error ParserError],
        Ok (pd_DataFrame [new_row "Deep hedging" "We hedge a portfolio." 2021;
                          new_row "Robust control" "An optimization view." 2019],
            1%nat)).
Proof.
  intros files. split; [reflexivity|].
  exact (proj1 (readers_concatenate_in_list_order files eq_refl)).
Defined.

Lemma parse_ris_from_undecodable (before after : list UploadedFile) (nm : string) :
  forallb decodable before = true ->
  forall valid invalid,
    parse_ris_from (before ++ {| name := nm; payload := Undecodable |} :: after)
      valid invalid
    = (flat_map (reader_errors ris_error) before, Raise UnicodeDecodeError).
Proof.
  induction before as [|[nm' p] before IH]; intros Hdec valid invalid; [reflexivity|].
  simpl in Hdec. apply andb_prop in Hdec as [Hf Hrest]. specialize (IH Hrest).
  destruct p as [| |records]; [discriminate| |].
  - cbn [app parse_ris_from payload]. now rewrite ui_bind_emit, IH.
  - cbn [app]. rewrite parse_ris_from_parsed. cbn [flat_map reader_errors payload].
    destruct (existsb bad_year records); [now rewrite ui_bind_emit, IH | now rewrite IH].
Qed.

Lemma parse_bib_from_undecodable (before after : list UploadedFile) (nm : string) :
  forallb decodable before = true ->
  forall valid invalid,
    parse_bib_from (before ++ {| name := nm; payload := Undecodable |} :: after)
      valid invalid
    = (flat_map (reader_errors bib_error) before, Raise UnicodeDecodeError).
Proof.
  induction before as [|[nm' p] before IH]; intros Hdec valid invalid; [reflexivity|].
  simpl in Hdec. apply andb_prop in Hdec as [Hf Hrest]. specialize (IH Hrest).
  destruct p as [| |entries]; [discriminate| |].
  - cbn [app parse_bib_from payload]. now rewrite ui_bind_emit, IH.
  - cbn [app]. rewrite parse_bib_from_parsed, ui_bind_ok, IH. reflexivity.
Qed.

(** X4.  The decoding of the bytes stands outside the [try] of both
    readers: a file that is not UTF-8 ends the call with
    [UnicodeDecodeError].  The messages of the files before it have been
    shown, but no frame and no tally is returned, so the records already
    read from the earlier files are lost, and the files after it are
    never opened. *)
Theorem undecodable_file_aborts_reader (before after : list UploadedFile)
    (nm : string) :
  forallb decodable before = true ->
  parse_ris (before ++ {| name := nm; payload := Undecodable |} :: after)
  = (flat_map (reader_errors ris_error) before, Raise UnicodeDecodeError)
  /\ parse_bib (before ++ {| name := nm; payload := Undecodable |} :: after)
     = (flat_map (reader_errors bib_error) before, Raise UnicodeDecodeError).
Proof.
  intros Hdec. unfold parse_ris, parse_bib.
  rewrite (parse_ris_from_undecodable before after nm Hdec).
  rewrite (parse_bib_from_undecodable before after nm Hdec).
  split; reflexivity.
Qed.

Lemma undecodable_file_aborts_reader_witness :
  let before :=
    [ {| name := "a.ris";
         payload := Parsed [entry "Deep hedging" "We hedge a portfolio." "2021"] |} ] in
  let after :=
    [ {| name := "c.ris";
         payload := Parsed [entry "Robust control" "An optimization view." "2019"] |} ] in
  forallb decodable before = true
  /\ parse_ris (before ++ {| name := "latin1.ris"; payload := Undecodable |} :: after)
     = ([], Raise UnicodeDecodeError).
Proof.
  intros before after. split; [reflexivity|].
  exact (proj1 (undecodable_file_aborts_reader before after "latin1.ris" eq_refl)).
Defined.

(** ** The loop over the uploads *)

Lemma ui_bind_ext {A B} (m : ui A) (f g : A -> ui B) :
  (forall a, f a = g a) -> ui_bind m f = ui_bind m g.
Proof. intros H. destruct m as [log [a|e]]; simpl; [now rewrite H | reflexivity]. Qed.

Lemma ui_bind_raise {A B} (log : list ui_event) (e : exn) (f : A -> ui B) :
  ui_bind (log, Raise e) f = (log, Raise e).
Proof. reflexivity. Qed.

Lemma upload_loop_app (l1 l2 : list UploadedFile) :
  forall valid_ris_df valid_bib_df total_invalid,
    upload_loop (l1 ++ l2) valid_ris_df valid_bib_df total_invalid
    = ui_bind (upload_loop l1 valid_ris_df valid_bib_df total_invalid)
        (fun s => upload_loop l2 (fst (fst s)) (snd (fst s)) (snd s)).
Proof.
  induction l1 as [|f rest IH]; intros r b n.
  - cbn [app upload_loop]. unfold ui_ret. rewrite ui_bind_ok. cbn [fst snd app].
    now destruct (upload_loop l2 r b n).
  - cbn [app upload_loop].
    destruct (endswith (name f) ".ris"); [|destruct (endswith (name f) ".bib")].
    + rewrite ui_bind_assoc. apply ui_bind_ext. intros parsed. apply IH.
    + rewrite ui_bind_assoc. apply ui_bind_ext. intros parsed. apply IH.
    + apply IH.
Qed.

Lemma upload_loop_known (files : list UploadedFile) :
  forall valid_ris_df valid_bib_df total_invalid,
    upload_loop files valid_ris_df valid_bib_df total_invalid
    = upload_loop (List.filter known_format files) valid_ris_df valid_bib_df
        total_invalid.
Proof.
  induction files as [|f rest IH]; intros r b n; [reflexivity|].
  cbn [List.filter]. unfold known_format at 1, is_bib, is_ris.
  cbn [upload_loop].
  destruct (endswith (name f) ".ris") eqn:Hris; cbn [negb andb orb].
  - cbn [upload_loop]. rewrite Hris. apply ui_bind_ext. intros parsed. apply IH.
  - destruct (endswith (name f) ".bib") eqn:Hbib.
    + cbn [upload_loop]. rewrite Hris, Hbib. apply ui_bind_ext. intros parsed. apply IH.
    + apply IH.
Qed.

(** X5.  A file whose name ends neither in ".ris" nor in ".bib", the
    case of the letters counting, is passed over in silence: it is not
    decoded, it gives no record, no tally and no message, and the frame
    and the invalid count are those of the batch without it. *)
Theorem other_extensions_are_ignored (files : list UploadedFile) :
  ingest files = ingest (List.filter known_format files)
  /\ forall f, known_format f = false ->
       contribution f = [] /\ tally f = 0%nat /\ file_errors f = [].
Proof.
  split.
  - unfold ingest. now rewrite upload_loop_known.
  - intros f Hf. unfold known_format in Hf.
    apply orb_false_elim in Hf as [Hris Hbib].
    unfold contribution, tally, counted, file_errors.
    now rewrite Hris, Hbib.
Qed.

Lemma ingest_undecodable (before after : list UploadedFile) (f : UploadedFile) :
  forallb readable before = true ->
  known_format f = true ->
  payload f = Undecodable ->
  ingest (before ++ f :: after)
  = (flat_map file_errors before, Raise UnicodeDecodeError).
Proof.
  intros Hread Hknown Hpay. unfold ingest. rewrite upload_loop_app.
  destruct (upload_loop_spec before Hread [] [] (pd_DataFrame []) (pd_DataFrame []) 0%nat
              (frame_of_new []) (frame_of_new []))
    as (r & b & Heq & _ & _).
  rewrite Heq, ui_bind_ok. cbn [fst snd].
  assert (Hrun : upload_loop (f :: after) r b (0 + list_sum (map tally before))
                 = ([], Raise UnicodeDecodeError)).
  { cbn [upload_loop]. unfold known_format, is_bib, is_ris in Hknown.
    destruct f as [nm p]. simpl in Hpay. subst p. cbn [name] in *.
    destruct (endswith nm ".ris").
    - reflexivity.
    - simpl in Hknown. rewrite Hknown. reflexivity. }
  rewrite Hrun. cbn [fst snd]. rewrite app_nil_r. reflexivity.
Qed.

(** X6.  On the page, an uploaded .ris or .bib file that is not UTF-8
    ends the run with [UnicodeDecodeError] before any counter is written:
    only the error messages of the files before it have been shown, and
    what was read from those files is lost. *)
Theorem undecodable_upload_aborts_page (stop_words : list string)
    (np_log : float -> float) (before after : list UploadedFile)
    (f : UploadedFile) :
  forallb readable before = true ->
  known_format f = true ->
  payload f = Undecodable ->
  main_flow stop_words np_log (before ++ f :: after)
  = (flat_map file_errors before, Raise UnicodeDecodeError)
  /\ counters (fst (main_flow stop_words np_log (before ++ f :: after))) = [].
Proof.
  intros Hread Hknown Hpay.
  pose proof (ingest_undecodable before after f Hread Hknown Hpay) as Hing.
  assert (Hrun : main_flow stop_words np_log (before ++ f :: after)
                 = (flat_map file_errors before, Raise UnicodeDecodeError)).
  { unfold main_flow. destruct (before ++ f :: after) as [|u l] eqn:Hfiles.
    - destruct before; discriminate Hfiles.
    - rewrite Hing. reflexivity. }
  split; [exact Hrun|]. rewrite Hrun. cbn [fst].
  clear. induction before as [|u before IH]; [reflexivity|].
  cbn [flat_map]. unfold counters in *. rewrite flat_map_app, IH, app_nil_r.
  unfold file_errors. destruct (is_ris u || is_bib u); [|reflexivity].
  destruct (payload u) as [| |records]; try reflexivity.
  now destruct (existsb bad_year records).
Qed.

Lemma undecodable_upload_aborts_page_witness :
  let before :=
    [ {| name := "a.ris";
         payload := Parsed [entry "Deep hedging" "We hedge a portfolio." "2021"] |} ] in
  let f := {| name := "latin1.bib"; payload := Undecodable |} in
  forallb readable before = true /\ known_format f = true
  /\ payload f = Undecodable
  /\ main_flow some_stop_words np_log_of_pair (before ++ [f])
     = ([], Raise UnicodeDecodeError).
Proof.
  intros before f. split; [reflexivity|]. split; [reflexivity|].
  split; [reflexivity|].
  exact (proj1 (undecodable_upload_aborts_page some_stop_words np_log_of_pair
                  before [] f eq_refl eq_refl eq_refl)).
Defined.

Lemma shape0_pd_DataFrame (l : list Row) : shape0 (pd_DataFrame l) = length l.
Proof.
  unfold shape0, pd_DataFrame. cbn [rows].
  rewrite length_combine, length_seq. lia.
Qed.

Lemma filter_complete_length (records : list RawRecord) :
  (length (List.filter complete records)
   + length (List.filter (fun r => negb (complete r)) records)
   = length records)%nat.
Proof.
  induction records as [|r l IH]; simpl; [reflexivity|].
  destruct (complete r); simpl; lia.
Qed.

Lemma collected_length (files : list UploadedFile) :
  (length (collected files) + list_sum (map tally files)
   = length (flat_map counted files))%nat.
Proof.
  unfold collected. rewrite length_app.
  induction files as [|f rest IH]; [reflexivity|].
  cbn [List.filter flat_map map]. rewrite length_app.
  change (list_sum (tally f :: map tally rest))
    with (tally f + list_sum (map tally rest))%nat.
  assert (Hf : (length (contribution f) + tally f = length (counted f))%nat).
  { unfold contribution, tally. rewrite length_map. apply filter_complete_length. }
  assert (Hnone : is_ris f = false -> is_bib f = false -> counted f = []).
  { intros Hr Hb. unfold counted. now rewrite Hr, Hb. }
  unfold is_bib in *.
  destruct (is_ris f) eqn:Hris; cbn [negb andb] in *.
  - cbn [flat_map]. rewrite length_app. lia.
  - destruct (endswith (name f) ".bib") eqn:Hbib.
    + cbn [flat_map]. rewrite length_app. lia.
    + rewrite (Hnone eq_refl eq_refl) in *. simpl in *. lia.
Qed.

Lemma before_bad_year_length (entries : list RawRecord) :
  (length (before_bad_year entries) <= length entries)%nat.
Proof.
  induction entries as [|e l IH]; simpl; [lia|].
  destruct (bad_year e); simpl; lia.
Qed.

Lemma counted_length (files : list UploadedFile) :
  (length (flat_map counted files) <= length (flat_map parsed_records files))%nat.
Proof.
  induction files as [|f rest IH]; [reflexivity|].
  cbn [flat_map]. rewrite !length_app.
  assert (Hf : (length (counted f) <= length (parsed_records f))%nat).
  { unfold counted. destruct (is_ris f).
    - destruct (existsb bad_year (parsed_records f)); simpl; lia.
    - destruct (is_bib f); [apply before_bad_year_length | simpl; lia]. }
  lia.
Qed.

(** X7.  The three counters that open the page are consistent with each
    other but not with the upload: for a batch of decodable files the
    page writes, after the error messages, a total that is the number of
    valid records plus the number of invalid ones, and that total counts
    only the records that the readers went through.  The records of a
    file that the parser refused, all the records of a .ris file with a
    year that [int] refuses, and the entries of a .bib file from such a
    year on are missing from it. *)
Theorem total_counts_what_was_read (stop_words : list string)
    (np_log : float -> float) (files : list UploadedFile) :
  files <> [] ->
  forallb readable files = true ->
  (exists rest,
     fst (main_flow stop_words np_log files)
     = flat_map file_errors files
       ++ st_write_count "Total de registros subidos" (length (flat_map counted files))
       :: st_write_count "Registros sin Título, Resumen o Fecha" (list_sum (map tally files))
       :: st_write_count "Registros con Título, Resumen y Fecha" (length (collected files))
       :: rest)
  /\ (length (collected files) + list_sum (map tally files)
      = length (flat_map counted files))%nat
  /\ (length (flat_map counted files) <= length (flat_map parsed_records files))%nat.
Proof.
  intros Hne Hread. split; [|split; [apply collected_length | apply counted_length]].
  unfold main_flow. destruct files as [|f rest]; [congruence|].
  rewrite (ingest_spec _ Hread), ui_bind_ok. cbn [fst].
  rewrite !ui_bind_emit. cbn [fst].
  rewrite shape0_pd_DataFrame, collected_length.
  eexists. reflexivity.
Qed.

Lemma total_counts_what_was_read_witness :
  let files :=
    [ {| name := "a.ris";
         payload := Parsed [entry "Deep hedging" "We hedge a portfolio." "2021";
                            entry "Robust control" "An optimization view." "2021/05/01/"] |};
      {| name := "b.bib";
         payload := Parsed [entry "Late entry" "Another portfolio." "2022";
                            <["title" := "No abstract"]> ∅] |} ] in
  files <> [] /\ forallb readable files = true
  /\ length (flat_map parsed_records files) = 4%nat
  /\ exists rest,
       fst (main_flow some_stop_words np_log_of_pair files)
       = st_error ris_error ValueError
         :: st_write_count "Total de registros subidos" 2
         :: st_write_count "Registros sin Título, Resumen o Fecha" 1
         :: st_write_count "Registros con Título, Resumen y Fecha" 1
         :: rest.
Proof.
  intros files. assert (Hne : files <> []) by discriminate.
  split; [exact Hne|]. split; [reflexivity|]. split; [reflexivity|].
  destruct (proj1 (total_counts_what_was_read some_stop_words np_log_of_pair
                     files Hne eq_refl)) as [rest Hrest].
  exists rest. exact Hrest.
Defined.

(** ** The Duplicate Resolver, further *)

Lemma times_among_duplicates (l l' : list (nat * Row)) (k : string * string) :
  (1 < times k l)%nat ->
  times k (List.filter (fun ir => (1 <? times (row_key ir) l)%nat) l') = times k l'.
Proof.
  intros Hk. apply Nat.ltb_lt in Hk.
  set (P := fun ir : nat * Row => (1 <? times (row_key ir) l)%nat).
  assert (HP : forall x, row_key x = k -> P x = true)
    by (intros x <-; exact Hk).
  clearbody P. unfold times. induction l' as [|x l' IH]; [reflexivity|].
  cbn [List.filter]. destruct (key_dec (row_key x) k) as [Heq|Hne].
  - rewrite (HP x Heq). cbn [map].
    rewrite !(count_occ_cons_eq key_dec _ Heq). now rewrite IH.
  - cbn [map]. rewrite (count_occ_cons_neq key_dec _ Hne).
    destruct (P x); [|exact IH].
    cbn [map]. now rewrite (count_occ_cons_neq key_dec _ Hne).
Qed.

(** X8.  The frame that [find_duplicates] returns never holds a lone
    row: every row in it has its key as often in that frame as in the
    input, which is at least twice.  The number of duplicates that the
    page reports is therefore never 1. *)
Theorem duplicates_come_in_groups (df : DataFrame) :
  keyed df = true ->
  exists duplicates,
    find_duplicates df = Ok duplicates
    /\ (forall ir, In ir (rows duplicates) ->
          times (row_key ir) (rows duplicates) = times (row_key ir) (rows df)
          /\ (2 <= times (row_key ir) (rows duplicates))%nat)
    /\ shape0 duplicates <> 1%nat.
Proof.
  intros Hk. eexists. split; [apply (find_duplicates_spec df Hk)|].
  cbn [rows].
  assert (Hrow : forall ir,
            In ir (List.filter (fun ir => (1 <? times (row_key ir) (rows df))%nat) (rows df)) ->
            times (row_key ir)
              (List.filter (fun ir => (1 <? times (row_key ir) (rows df))%nat) (rows df))
            = times (row_key ir) (rows df)
            /\ (2 <= times (row_key ir)
                       (List.filter (fun ir => (1 <? times (row_key ir) (rows df))%nat)
                                    (rows df)))%nat).
  { intros ir Hin. apply filter_In in Hin as [_ Hlt]. apply Nat.ltb_lt in Hlt.
    rewrite (times_among_duplicates (rows df) (rows df) _ Hlt). split; [reflexivity | lia]. }
  split; [exact Hrow|].
  unfold shape0. cbn [rows].
  destruct (List.filter _ (rows df)) as [|x [|y l]] eqn:Hf; simpl; try discriminate.
  destruct (Hrow x (or_introl eq_refl)) as [_ Htwo].
  unfold times in Htwo. cbn [map] in Htwo.
  rewrite (count_occ_cons_eq key_dec _ eq_refl) in Htwo. simpl in Htwo. lia.
Qed.

Lemma duplicates_come_in_groups_witness :
  let df := pd_DataFrame [new_row "Deep hedging" "We hedge a portfolio." 2021;
                          new_row "Robust control" "An optimization view." 2019;
                          new_row "Deep hedging" "We hedge a portfolio." 2020] in
  keyed df = true
  /\ exists duplicates,
       find_duplicates df = Ok duplicates
       /\ map fst (rows duplicates) = [0; 2]%nat
       /\ shape0 duplicates <> 1%nat.
Proof.
  intros df. split; [reflexivity|].
  destruct (duplicates_come_in_groups df eq_refl) as (d & Heq & _ & Hone).
  exists d. split; [exact Heq|]. split; [|exact Hone].
  vm_compute in Heq. injection Heq as <-. reflexivity.
Defined.

Lemma times_split (k : string * string) (pre post : list (nat * Row)) (ir : nat * Row) :
  times k (pre ++ ir :: post)
  = (times k pre + times k [ir] + times k post)%nat.
Proof.
  unfold times. rewrite map_app, count_occ_app. cbn [map].
  change (row_key ir :: map row_key post) with ([row_key ir] ++ map row_key post).
  rewrite count_occ_app. lia.
Qed.

(** X9.  Lines 173-181 lose no record without showing it: every row of
    the input is either in the deduplicated frame or in the frame of
    duplicates that the page displays.  The deduplicated frame is the
    input itself exactly when no duplicate was found, and it never has
    more rows than the input. *)
Theorem every_row_is_kept_or_reported (df : DataFrame) :
  keyed df = true ->
  exists duplicateGroup deduplicated,
    snd (resolve_duplicates df) = Ok (duplicateGroup, deduplicated)
    /\ (forall ir, In ir (rows df) ->
          In ir (rows deduplicated) \/ In ir (rows duplicateGroup))
    /\ (rows duplicateGroup = [] <-> deduplicated = df)
    /\ (shape0 deduplicated <= shape0 df)%nat.
Proof.
  intros Hk. eexists _, _. split; [apply (resolve_duplicates_spec df Hk)|].
  cbn [rows]. split; [|split].
  - intros ir Hin.
    destruct (1 <? times (row_key ir) (rows df))%nat eqn:Hlt.
    + right. apply filter_In. now split.
    + left. apply first_occurrences_In.
      destruct (in_split _ _ Hin) as (pre & post & Hsplit).
      exists pre, post. split; [assumption|]. split; [intros []|].
      intros ir' Hin' Hkey. apply Nat.ltb_ge in Hlt.
      rewrite Hsplit, times_split in Hlt.
      assert (Hself : times (row_key ir) [ir] = 1%nat).
      { unfold times. cbn [map]. now rewrite (count_occ_cons_eq key_dec _ eq_refl). }
      assert (Hpre : (1 <= times (row_key ir) pre)%nat).
      { unfold times. apply (count_occ_In key_dec). rewrite <- Hkey.
        now apply in_map. }
      lia.
  - split.
    + intros Hnone. destruct df as [cols rs]. cbn [rows columns] in *. f_equal.
      apply NoDup_first_occurrences; [|tauto]. now apply few_occurrences_NoDup.
    + intros Heq. apply NoDup_few_occurrences.
      assert (Hrows : first_occurrences [] (rows df) = rows df)
        by (rewrite <- Heq at 2; reflexivity).
      rewrite <- Hrows. apply first_occurrences_NoDup.
  - unfold shape0. cbn [rows]. apply sublist_length, first_occurrences_sublist.
Qed.

Lemma every_row_is_kept_or_reported_witness :
  let df := pd_DataFrame [new_row "Deep hedging" "We hedge a portfolio." 2021;
                          new_row "Robust control" "An optimization view." 2019;
                          new_row "Deep hedging" "We hedge a portfolio." 2020] in
  keyed df = true
  /\ exists duplicateGroup deduplicated,
       snd (resolve_duplicates df) = Ok (duplicateGroup, deduplicated)
       /\ map fst (rows deduplicated) = [0; 1]%nat
       /\ (shape0 deduplicated <= shape0 df)%nat.
Proof.
  intros df. split; [reflexivity|].
  destruct (every_row_is_kept_or_reported df eq_refl) as (d & dd & Heq & _ & _ & Hle).
  exists d, dd. split; [exact Heq|]. split; [|exact Hle].
  vm_compute in Heq. injection Heq as _ <-. reflexivity.
Defined.

(** X10.  The index labels that the page shows are positions in the
    collection: in the frame of duplicates and in the deduplicated frame
    of a collection built by [pd.DataFrame], the row labelled [i] is the
    record at position [i] of the collection, so after a removal the
    labels keep their gaps and are not renumbered. *)
Theorem labels_are_positions (l : list Row) :
  exists duplicateGroup deduplicated,
    snd (resolve_duplicates (pd_DataFrame l)) = Ok (duplicateGroup, deduplicated)
    /\ forall i r, In (i, r) (rows duplicateGroup) \/ In (i, r) (rows deduplicated) ->
         nth_error l i = Some r.
Proof.
  assert (Hpos : forall i r, In (i, r) (rows (pd_DataFrame l)) -> nth_error l i = Some r).
  { intros i r Hin. cbn [pd_DataFrame rows] in Hin.
    apply enumerate_from in Hin as [_ Hnth]. now rewrite Nat.sub_0_r in Hnth. }
  destruct l as [|r0 l].
  - eexists _, _. split; [reflexivity|]. intros i r [[]|[]].
  - assert (Hk : keyed (pd_DataFrame (r0 :: l)) = true) by reflexivity.
    eexists _, _. split; [apply (resolve_duplicates_spec _ Hk)|].
    intros i r [Hin|Hin]; apply Hpos.
    + cbn [rows] in Hin. now apply filter_In in Hin as [Hin _].
    + cbn [rows] in Hin. apply first_occurrences_In in Hin as (pre & post & Heq & _).
      rewrite Heq. apply in_elt.
Qed.

(** ** The Selection Filter, further *)

(** X11.  Selecting twice selects nothing else: the frame that
    [apply_selection_criteria] returns is a fixed point of it. *)
Theorem selection_is_idempotent (df : DataFrame) :
  selectable df = true ->
  exists selected,
    apply_selection_criteria df = Ok selected
    /\ apply_selection_criteria selected = Ok selected.
Proof.
  intros Hs. eexists. split; [apply (apply_selection_criteria_spec df Hs)|].
  rewrite apply_selection_criteria_spec by exact Hs.
  cbn [columns rows]. rewrite filter_filter. do 2 f_equal.
  apply filter_ext. intros ir. now rewrite andb_diag.
Qed.

Lemma selection_is_idempotent_witness :
  let df := pd_DataFrame [new_row "Deep hedging" "We hedge a PORTFOLIO." 2021;
                          new_row "Old hedging" "We hedge a portfolio." 2016;
                          new_row "Cooking" "A recipe." 2020] in
  selectable df = true
  /\ exists selected,
       apply_selection_criteria df = Ok selected
       /\ apply_selection_criteria selected = Ok selected.
Proof.
  intros df. split; [reflexivity|]. apply (selection_is_idempotent df). reflexivity.
Defined.

(** ** The Coherence Scorer, further *)

Lemma score_cases (stop_words : list string) (np_log : float -> float)
    (ir : nat * Row) :
  if has_terms stop_words ir
  then exists s, score stop_words np_log ir = Ok s
  else score stop_words np_log ir = Raise ValueError.
Proof.
  destruct (has_terms stop_words ir) eqn:Hterms.
  - destruct (has_terms_scored stop_words np_log [ir]) as [sims Hs].
    { simpl. now rewrite Hterms. }
    simpl in Hs. destruct (score stop_words np_log ir) as [s|e]; [eauto | discriminate].
  - apply record_similarity_raises. unfold has_terms in Hterms.
    destruct (analyze stop_words (Titulo (snd ir))); [|discriminate].
    destruct (analyze stop_words (Resumen (snd ir))); [now split | discriminate].
Qed.

Lemma map_result_score (stop_words : list string) (np_log : float -> float)
    (l : list (nat * Row)) :
  match map_result (score stop_words np_log) l with
  | Ok _ => forallb (has_terms stop_words) l = true
  | Raise e => e = ValueError /\ forallb (has_terms stop_words) l = false
  end.
Proof.
  induction l as [|ir l IH]; [reflexivity|].
  cbn [map_result forallb]. pose proof (score_cases stop_words np_log ir) as Hir.
  destruct (has_terms stop_words ir).
  - destruct Hir as [s Hs]. rewrite Hs. cbn [bind andb].
    destruct (map_result (score stop_words np_log) l); exact IH.
  - rewrite Hir. now split.
Qed.

(** X12.  On a collection, [check_similarity] fails in one way only:
    with the [ValueError] of the vectorizer, and exactly when some row
    has no term in its title nor in its abstract.  The threshold plays
    no part in it. *)
Theorem scoring_fails_only_on_termless_rows (stop_words : list string)
    (np_log : float -> float) (df : DataFrame) (threshold : float) :
  keyed df = true ->
  match check_similarity stop_words np_log df threshold with
  | Ok _ => forallb (has_terms stop_words) (rows df) = true
  | Raise e => e = ValueError /\ forallb (has_terms stop_words) (rows df) = false
  end.
Proof.
  intros Hk. rewrite (check_similarity_spec _ _ _ _ Hk).
  pose proof (map_result_score stop_words np_log (rows df)) as H.
  destruct (map_result (score stop_words np_log) (rows df)); exact H.
Qed.

Lemma scoring_fails_only_on_termless_rows_witness :
  let df := pd_DataFrame [new_row "Deep hedging" "We hedge a portfolio." 2021;
                          new_row "Q&A" "N/A" 2020] in
  keyed df = true
  /\ check_similarity some_stop_words np_log_of_pair df threshold_02
     = Raise ValueError
  /\ forallb (has_terms some_stop_words) (rows df) = false.
Proof.
  intros df. split; [reflexivity|].
  pose proof (scoring_fails_only_on_termless_rows some_stop_words np_log_of_pair
                df threshold_02 eq_refl) as H.
  destruct (check_similarity some_stop_words np_log_of_pair df threshold_02)
    as [r|e] eqn:Hrun.
  - vm_compute in Hrun. discriminate Hrun.
  - destruct H as [-> Hterms]. split; [reflexivity | exact Hterms].
Defined.

Lemma with_Similitud_core (df : DataFrame) (sims : list float) :
  length sims = length (rows df) ->
  map (fun ir => (fst ir, Titulo (snd ir), Resumen (snd ir), Fecha (snd ir)))
      (rows (with_Similitud df sims))
  = map (fun ir => (fst ir, Titulo (snd ir), Resumen (snd ir), Fecha (snd ir)))
        (rows df).
Proof.
  cbn [with_Similitud rows]. rewrite map_map. cbn [fst snd set_Similitud Titulo Resumen Fecha].
  revert sims. induction (rows df) as [|x l IH]; intros [|s sims] Hlen;
    simpl in *; try reflexivity; try discriminate.
  f_equal. apply IH. now inversion Hlen.
Qed.

(** X13.  Scoring changes nothing but the similarity column.  On a
    collection in which every record has a term, the frame that
    [check_similarity] leaves has the same rows in the same order, with
    the same labels, titles, abstracts and years, and a similarity in
    every row; its columns are those of the input, followed by
    "Similitud" when the input did not have it; and the two outputs have
    these same columns. *)
Theorem scoring_only_adds_a_column (stop_words : list string)
    (np_log : float -> float) (df : DataFrame) (threshold : float) :
  keyed df = true ->
  forallb (has_terms stop_words) (rows df) = true ->
  exists df' incoherent coherent,
    check_similarity stop_words np_log df threshold = Ok (df', incoherent, coherent)
    /\ map (fun ir => (fst ir, Titulo (snd ir), Resumen (snd ir), Fecha (snd ir)))
           (rows df')
       = map (fun ir => (fst ir, Titulo (snd ir), Resumen (snd ir), Fecha (snd ir)))
             (rows df)
    /\ (forall ir, In ir (rows df') -> exists s, Similitud (snd ir) = Some s)
    /\ columns df' = (if has_column col_Similitud df then columns df
                      else columns df ++ [col_Similitud])
    /\ columns incoherent = columns df'
    /\ columns coherent = columns df'.
Proof.
  intros Hk Hterms.
  destruct (has_terms_scored stop_words np_log (rows df) Hterms) as [sims Hsims].
  rewrite (check_similarity_spec _ _ _ _ Hk), Hsims. cbn [bind].
  eexists _, _, _. split; [reflexivity|]. split.
  - apply with_Similitud_core. apply (map_result_length _ _ _ Hsims).
  - split; [apply with_Similitud_rows|]. now repeat split.
Qed.

Lemma scoring_only_adds_a_column_witness :
  let df := pd_DataFrame [new_row "Deep hedging" "We hedge a portfolio." 2021;
                          new_row "Robust control" "An optimization view." 2019] in
  keyed df = true
  /\ forallb (has_terms some_stop_words) (rows df) = true
  /\ exists df' incoherent coherent,
       check_similarity some_stop_words np_log_of_pair df threshold_02
       = Ok (df', incoherent, coherent)
       /\ columns df' = [col_Titulo; col_Resumen; col_Fecha; col_Similitud].
Proof.
  intros df. split; [reflexivity|]. split; [reflexivity|].
  destruct (scoring_only_adds_a_column some_stop_words np_log_of_pair df threshold_02
              eq_refl eq_refl)
    as (df' & inc & coh & Heq & _ & _ & Hcols & _).
  exists df', inc, coh. split; [exact Heq|]. rewrite Hcols. reflexivity.
Defined.

Lemma map_result_rescored (stop_words : list string) (np_log : float -> float)
    (l : list (nat * Row)) :
  forall sims,
    map_result (score stop_words np_log) l = Ok sims ->
    map_result (score stop_words np_log)
      (map (fun irs : nat * Row * float =>
              (fst (fst irs), set_Similitud (snd (fst irs)) (snd irs)))
           (combine l sims))
    = Ok sims.
Proof.
  induction l as [|x l IH]; intros sims; simpl.
  - intros H. now inversion H.
  - destruct (score stop_words np_log x) as [s|e] eqn:Hx; [|discriminate]. simpl.
    destruct (map_result (score stop_words np_log) l) as [ys|e] eqn:Hl; [|discriminate].
    simpl. intros H. inversion H; subst. simpl.
    change (score stop_words np_log (fst x, set_Similitud (snd x) s))
      with (score stop_words np_log x).
    rewrite Hx. simpl. now rewrite (IH ys eq_refl).
Qed.

Lemma with_Similitud_again (df : DataFrame) (sims : list float) :
  length sims = length (rows df) ->
  with_Similitud (with_Similitud df sims) sims = with_Similitud df sims.
Proof.
  intros Hlen. unfold with_Similitud at 1. rewrite has_Similitud.
  assert (Hrows : map (fun irs : nat * Row * float =>
                         (fst (fst irs), set_Similitud (snd (fst irs)) (snd irs)))
                      (combine (rows (with_Similitud df sims)) sims)
                  = rows (with_Similitud df sims)).
  { cbn [with_Similitud rows]. revert sims Hlen.
    induction (rows df) as [|x l IH]; intros [|s sims] Hlen; simpl in *;
      try reflexivity; try discriminate.
    f_equal. apply IH. now inversion Hlen. }
  rewrite Hrows. now destruct (with_Similitud df sims).
Qed.

Lemma keyed_with_Similitud (df : DataFrame) (sims : list float) :
  keyed df = true -> keyed (with_Similitud df sims) = true.
Proof.
  unfold keyed, with_Similitud. intros H.
  destruct (has_column col_Similitud df); [exact H|].
  unfold has_column in *. cbn [columns].
  apply andb_prop in H as [Ht Hr]. rewrite !existsb_app, Ht, Hr. reflexivity.
Qed.

(** X14.  Scoring a scored frame again gives the same frame and the
    same two outputs: the column is overwritten with the values that it
    holds, because the score of a row is computed from its title and
    abstract only. *)
Theorem rescoring_changes_nothing (stop_words : list string)
    (np_log : float -> float) (df : DataFrame) (threshold : float) :
  keyed df = true ->
  forallb (has_terms stop_words) (rows df) = true ->
  exists df' incoherent coherent,
    check_similarity stop_words np_log df threshold = Ok (df', incoherent, coherent)
    /\ check_similarity stop_words np_log df' threshold
       = Ok (df', incoherent, coherent).
Proof.
  intros Hk Hterms.
  destruct (has_terms_scored stop_words np_log (rows df) Hterms) as [sims Hsims].
  pose proof (map_result_length _ _ _ Hsims) as Hlen.
  rewrite (check_similarity_spec _ _ _ _ Hk), Hsims. cbn [bind].
  eexists _, _, _. split; [reflexivity|].
  rewrite (check_similarity_spec _ _ _ _ (keyed_with_Similitud df sims Hk)).
  assert (Hagain : map_result (score stop_words np_log)
                     (rows (with_Similitud df sims)) = Ok sims)
    by exact (map_result_rescored _ _ _ _ Hsims).
  rewrite Hagain. cbn [bind].
  now rewrite (with_Similitud_again df sims Hlen).
Qed.

Lemma rescoring_changes_nothing_witness :
  let df := pd_DataFrame [new_row "Deep hedging" "We hedge a portfolio." 2021;
                          new_row "Robust control" "An optimization view." 2019] in
  keyed df = true
  /\ forallb (has_terms some_stop_words) (rows df) = true
  /\ exists df' incoherent coherent,
       check_similarity some_stop_words np_log_of_pair df threshold_02
       = Ok (df', incoherent, coherent)
       /\ check_similarity some_stop_words np_log_of_pair df' threshold_02
          = Ok (df', incoherent, coherent).
Proof.
  intros df. split; [reflexivity|]. split; [reflexivity|].
  apply (rescoring_changes_nothing some_stop_words np_log_of_pair df threshold_02);
    reflexivity.
Defined.

(** ** The page as a whole *)

Lemma snd_bind {A B} (m : ui A) (a : A) (f : A -> ui B) :
  snd m = Ok a -> snd (ui_bind m f) = snd (f a).
Proof. destruct m as [log r]. simpl. intros ->. now destruct (f a). Qed.

Lemma snd_emit {A} (ev : ui_event) (k : ui A) : snd (emit ev ;;; k) = snd k.
Proof. now rewrite ui_bind_emit. Qed.

Lemma select_and_show_ends (df : DataFrame) :
  selectable df = true -> snd (select_and_show df) = Ok tt.
Proof.
  intros Hs. unfold select_and_show. rewrite !snd_emit.
  rewrite (apply_selection_criteria_spec df Hs). unfold lift.
  rewrite snd_bind_ok, snd_emit.
  now destruct (negb (empty _)); [rewrite snd_emit|].
Qed.

Lemma score_and_select_ends (stop_words : list string) (np_log : float -> float)
    (df : DataFrame) :
  columns df = [col_Titulo; col_Resumen; col_Fecha] ->
  snd (score_and_select stop_words np_log df)
  = if forallb (has_terms stop_words) (rows df) then Ok tt else Raise ValueError.
Proof.
  intros Hcols.
  assert (Hk : keyed df = true) by (unfold keyed, has_column; now rewrite Hcols).
  unfold score_and_select. rewrite !snd_emit.
  rewrite (check_similarity_spec _ _ _ _ Hk).
  pose proof (map_result_score stop_words np_log (rows df)) as Hscore.
  destruct (map_result (score stop_words np_log) (rows df)) as [sims|e].
  - rewrite Hscore. cbn [bind]. unfold lift. rewrite snd_bind_ok, snd_emit.
    rewrite (snd_bind _ tt).
    2:{ destruct (negb (empty _)); [now rewrite !snd_emit | reflexivity]. }
    rewrite snd_emit.
    destruct (negb (empty _)); [|reflexivity].
    rewrite !snd_emit. apply select_and_show_ends.
    unfold selectable, with_Similitud.
    destruct (has_column col_Similitud df); unfold has_column; cbn [columns];
      rewrite Hcols; reflexivity.
  - destruct Hscore as [-> Hterms]. rewrite Hterms. reflexivity.
Qed.

(** X15.  For a batch of decodable files the page ends in one of two
    ways: normally, or with the [ValueError] of the vectorizer, and the
    second exactly when one of the records that are left after the
    removal of duplicates has no term in its title nor in its abstract.
    No other exception can end it, and an empty batch or a batch without
    a valid record always ends normally. *)
Theorem page_ends_normally_or_on_a_termless_record (stop_words : list string)
    (np_log : float -> float) (files : list UploadedFile) :
  forallb readable files = true ->
  snd (main_flow stop_words np_log files)
  = if forallb (has_terms stop_words)
         (first_occurrences [] (rows (pd_DataFrame (collected files))))
    then Ok tt else Raise ValueError.
Proof.
  intros Hread. unfold main_flow. destruct files as [|f rest]; [reflexivity|].
  rewrite (ingest_spec _ Hread), snd_bind_ok, !snd_emit.
  destruct (collected (f :: rest)) as [|r0 l] eqn:Hcollected; [reflexivity|].
  assert (Hk : keyed (pd_DataFrame (r0 :: l)) = true) by reflexivity.
  rewrite (snd_bind _ _ _ (resolve_duplicates_spec _ Hk)).
  cbn [snd]. rewrite snd_emit.
  set (dd := {| columns := columns (pd_DataFrame (r0 :: l));
                rows := first_occurrences [] (rows (pd_DataFrame (r0 :: l))) |}).
  assert (Hne : empty dd = false) by reflexivity.
  rewrite Hne. cbn [negb].
  now rewrite (score_and_select_ends stop_words np_log dd eq_refl).
Qed.

Lemma page_ends_normally_or_on_a_termless_record_witness :
  let files :=
    [ {| name := "a.ris";
         payload := Parsed [entry "Deep hedging" "We hedge a portfolio." "2021";
                            entry "Q&A" "N/A" "2020"] |} ] in
  forallb readable files = true
  /\ snd (main_flow some_stop_words np_log_of_pair files) = Raise ValueError.
Proof.
  intros files. split; [reflexivity|].
  rewrite (page_ends_normally_or_on_a_termless_record some_stop_words
             np_log_of_pair files eq_refl).
  reflexivity.
Defined.

(** ** The year view *)

Lemma insert_sorted_In (x y : Z) (l : list Z) :
  In y (insert_sorted x l) <-> y = x \/ In y l.
Proof.
  induction l as [|z l IH]; simpl.
  - intuition.
  - destruct (x <=? z)%Z; simpl; [intuition|]. rewrite IH. intuition.
Qed.

Lemma sorted_In (y : Z) (l : list Z) : In y (sorted l) <-> In y l.
Proof.
  unfold sorted. induction l as [|x l IH]; simpl; [reflexivity|].
  rewrite insert_sorted_In, IH. intuition.
Qed.

Lemma insert_sorted_increasing (x : Z) (l : list Z) :
  StronglySorted Z.lt l -> ~ In x l -> StronglySorted Z.lt (insert_sorted x l).
Proof.
  induction l as [|z l IH]; intros Hs Hx; simpl.
  - repeat constructor.
  - inversion Hs as [|? ? Hl Hz]; subst.
    destruct (x <=? z)%Z eqn:Hle.
    + apply Z.leb_le in Hle.
      assert (Hlt : (x < z)%Z) by (assert (x <> z) by (intros ->; apply Hx; now left); lia).
      constructor; [assumption|]. constructor; [assumption|].
      rewrite List.Forall_forall in *. intros w Hw. specialize (Hz w Hw). lia.
    + apply Z.leb_gt in Hle. constructor.
      * apply IH; [assumption | intros Hin; apply Hx; now right].
      * rewrite List.Forall_forall in *. intros w Hw.
        apply insert_sorted_In in Hw as [->|Hw]; [lia | now apply Hz].
Qed.

Lemma sorted_increasing (l : list Z) :
  List.NoDup l -> StronglySorted Z.lt (sorted l).
Proof.
  unfold sorted. induction l as [|x l IH]; intros Hnd; simpl; [constructor|].
  inversion Hnd; subst. apply insert_sorted_increasing; [now apply IH|].
  fold (sorted l). now rewrite sorted_In.
Qed.

Lemma unique_In (y : Z) (l : list Z) : In y (unique l) <-> In y l.
Proof.
  induction l as [|x l IH]; simpl; [reflexivity|].
  rewrite filter_In, IH. destruct (Z.eq_dec y x) as [->|Hne].
  - intuition.
  - assert (Hneq : negb (y =? x)%Z = true) by (apply negb_true_iff, Z.eqb_neq; exact Hne).
    rewrite Hneq. intuition.
Qed.

Lemma unique_NoDup (l : list Z) : List.NoDup (unique l).
Proof.
  induction l as [|x l IH]; simpl; [constructor|]. constructor.
  - intros Hin. apply filter_In in Hin as [_ Hne].
    rewrite Z.eqb_refl in Hne. discriminate.
  - now apply List.NoDup_filter.
Qed.

Lemma increasing_in_range (b : Z) (l : list Z) :
  forall a, (a <= b + 1)%Z ->
    StronglySorted Z.lt l -> Forall (fun y => (a <= y <= b)%Z) l ->
    (Z.of_nat (length l) <= b - a + 1)%Z.
Proof.
  induction l as [|y l IH]; intros a Hab Hs Hr; simpl length; [simpl; lia|].
  inversion Hs as [|? ? Hl Hy]; subst. inversion Hr as [|? ? Hy' Hr']; subst.
  assert (Hrest : (Z.of_nat (length l) <= b - (y + 1) + 1)%Z).
  { apply IH; [lia | assumption|].
    rewrite List.Forall_forall in *. intros w Hw.
    specialize (Hy w Hw). specialize (Hr' w Hw). lia. }
  lia.
Qed.

(** X16.  The years offered for filtering are the years of the selected
    records, each once, in increasing order; as the selected records
    have their year between 2017 and 2024, the list never has more than
    8 entries. *)
Theorem offered_years_are_the_selected_years (df : DataFrame) :
  selectable df = true ->
  exists selected_df years,
    apply_selection_criteria df = Ok selected_df
    /\ unique_years selected_df = Ok years
    /\ StronglySorted Z.lt years
    /\ (forall y, In y years <-> exists ir, In ir (rows selected_df) /\ Fecha (snd ir) = y)
    /\ Forall (fun y => (2017 <= y <= 2024)%Z) years
    /\ (length years <= 8)%nat.
Proof.
  intros Hs. eexists _, _. split; [apply (apply_selection_criteria_spec df Hs)|].
  unfold unique_years.
  assert (Hf : has_column col_Fecha
                 {| columns := columns df;
                    rows := List.filter (fun ir => keyword_match (snd ir) && date_match (snd ir))
                                        (rows df) |} = true).
  { unfold selectable in Hs. now apply andb_prop in Hs as [_ Hf]. }
  rewrite Hf. split; [reflexivity|]. cbn [rows].
  set (sel := List.filter _ (rows df)).
  assert (Hmem : forall y, In y (sorted (unique (map (fun ir => Fecha (snd ir)) sel)))
                           <-> exists ir, In ir sel /\ Fecha (snd ir) = y).
  { intros y. rewrite sorted_In, unique_In, in_map_iff.
    split; intros (ir & H1 & H2); exists ir; split; assumption. }
  assert (Hrange : Forall (fun y => (2017 <= y <= 2024)%Z)
                     (sorted (unique (map (fun ir => Fecha (snd ir)) sel)))).
  { apply List.Forall_forall. intros y Hy. apply Hmem in Hy as (ir & Hin & <-).
    apply filter_In in Hin as [_ Hmatch]. apply andb_prop in Hmatch as [_ Hd].
    unfold date_match in Hd. apply andb_prop in Hd as [H1 H2].
    apply Z.leb_le in H1, H2. lia. }
  assert (Hinc : StronglySorted Z.lt (sorted (unique (map (fun ir => Fecha (snd ir)) sel))))
    by apply sorted_increasing, unique_NoDup.
  split; [exact Hinc|]. split; [exact Hmem|]. split; [exact Hrange|].
  pose proof (increasing_in_range 2024 _ 2017 ltac:(lia) Hinc Hrange). lia.
Qed.

Lemma offered_years_are_the_selected_years_witness :
  let df := pd_DataFrame [new_row "Deep hedging" "We hedge a portfolio." 2021;
                          new_row "Robust control" "An optimization view." 2019;
                          new_row "Old hedging" "We hedge a portfolio." 2016;
                          new_row "Late entry" "Another portfolio." 2021] in
  selectable df = true
  /\ exists selected_df years,
       apply_selection_criteria df = Ok selected_df
       /\ unique_years selected_df = Ok years
       /\ years = [2019; 2021]%Z.
Proof.
  intros df. split; [reflexivity|].
  destruct (offered_years_are_the_selected_years df eq_refl)
    as (sel & ys & Hsel & Hys & _).
  exists sel, ys. split; [exact Hsel|]. split; [exact Hys|].
  vm_compute in Hsel. injection Hsel as <-.
  vm_compute in Hys. injection Hys as <-. reflexivity.
Defined.

Lemma filter_by_year_rows (df : DataFrame) (y : Z) :
  has_column col_Fecha df = true ->
  filter_by_year df (Some y)
  = Ok {| columns := columns df;
          rows := List.filter (fun ir => (Fecha (snd ir) =? y)%Z) (rows df) |}.
Proof.
  intros Hf. unfold filter_by_year, column_mask. rewrite Hf. cbn [bind].
  exact (getitem_mask_rows df (year_is (Some y))).
Qed.

Lemma unique_years_inv (df : DataFrame) (years : list Z) :
  unique_years df = Ok years ->
  has_column col_Fecha df = true
  /\ years = sorted (unique (map (fun ir => Fecha (snd ir)) (rows df))).
Proof.
  unfold unique_years. destruct (has_column col_Fecha df); [|discriminate].
  intros H. injection H as <-. split; reflexivity.
Qed.

(** X17.  Whichever of the offered years the user picks, the records
    shown for it are the selected records of that year, in their order,
    and there is at least one: the view of a year is never empty. *)
Theorem every_offered_year_has_records (selected_df : DataFrame)
    (years : list Z) (picked : nat) :
  unique_years selected_df = Ok years ->
  (picked < length years)%nat ->
  exists selected_year filtered_df,
    selectbox years picked = Some selected_year
    /\ filter_by_year selected_df (Some selected_year) = Ok filtered_df
    /\ columns filtered_df = columns selected_df
    /\ rows filtered_df
       = List.filter (fun ir => (Fecha (snd ir) =? selected_year)%Z) (rows selected_df)
    /\ empty filtered_df = false.
Proof.
  intros Hys Hp. apply unique_years_inv in Hys as [Hf ->].
  unfold selectbox.
  destruct (nth_error _ picked) as [y|] eqn:Hy;
    [|apply nth_error_None in Hy; lia].
  exists y. eexists. split; [reflexivity|].
  split; [apply (filter_by_year_rows _ _ Hf)|].
  split; [reflexivity|]. split; [reflexivity|].
  apply nth_error_In in Hy. rewrite sorted_In, unique_In, in_map_iff in Hy.
  destruct Hy as (ir & Hyear & Hin).
  assert (Hshown : In ir (List.filter (fun ir => (Fecha (snd ir) =? y)%Z) (rows selected_df))).
  { apply filter_In. split; [exact Hin | now apply Z.eqb_eq]. }
  unfold empty. cbn [rows columns].
  destruct (List.filter _ (rows selected_df)); [destruct Hshown|].
  unfold has_column in Hf. destruct (columns selected_df); [discriminate | reflexivity].
Qed.

Lemma every_offered_year_has_records_witness :
  let selected_df := pd_DataFrame [new_row "Deep hedging" "We hedge a portfolio." 2021;
                                   new_row "Robust control" "An optimization view." 2019;
                                   new_row "Late entry" "Another portfolio." 2021] in
  unique_years selected_df = Ok [2019; 2021]%Z
  /\ exists filtered_df,
       filter_by_year selected_df (Some 2021%Z) = Ok filtered_df
       /\ map fst (rows filtered_df) = [0; 2]%nat.
Proof.
  intros selected_df. split; [reflexivity|].
  destruct (every_offered_year_has_records selected_df [2019; 2021]%Z 1 eq_refl
              ltac:(simpl; lia))
    as (y & f & Hy & Hf & _ & Hrows & _).
  injection Hy as <-. exists f. split; [exact Hf|]. rewrite Hrows. reflexivity.
Defined.

Lemma increasing_NoDup (l : list Z) : StronglySorted Z.lt l -> List.NoDup l.
Proof.
  induction 1 as [|y l Hs IH Hy]; constructor; [|exact IH].
  intros Hin. rewrite List.Forall_forall in Hy. specialize (Hy y Hin). lia.
Qed.

Lemma map_result_all_ok {A B} (f : A -> result B) (g : A -> B) (l : list A) :
  (forall x, f x = Ok (g x)) -> map_result f l = Ok (map g l).
Proof.
  intros Hfg. induction l as [|x l IH]; simpl; [reflexivity|].
  now rewrite Hfg, IH.
Qed.

Lemma one_year_of_many (k : Z) (ys : list Z) :
  List.NoDup ys -> In k ys ->
  list_sum (map (fun y => if (k =? y)%Z then 1 else 0)%nat ys) = 1%nat.
Proof.
  induction 1 as [|y ys Hy Hnd IH]; intros Hin; [destruct Hin|].
  cbn [map]. change (list_sum (?a :: ?l)) with (a + list_sum l)%nat.
  destruct (Z.eq_dec k y) as [->|Hne].
  - assert (Hnone : forall l, ~ In y l ->
              list_sum (map (fun y' => if (y =? y')%Z then 1 else 0)%nat l) = 0%nat).
    { induction l as [|z l IHl]; intros Hz; [reflexivity|].
      cbn [map]. change (list_sum (?a :: ?l')) with (a + list_sum l')%nat.
      rewrite IHl by (intros H'; apply Hz; now right).
      destruct (Z.eqb_spec y z) as [->|_]; [exfalso; apply Hz; now left | reflexivity]. }
    now rewrite (Hnone ys Hy), Z.eqb_refl.
  - destruct Hin as [->|Hin]; [congruence|].
    apply Z.eqb_neq in Hne. now rewrite (IH Hin), Hne.
Qed.

Lemma rows_by_year (l : list (nat * Row)) (ys : list Z) :
  List.NoDup ys ->
  (forall ir, In ir l -> In (Fecha (snd ir)) ys) ->
  list_sum (map (fun y => length (List.filter (fun ir => (Fecha (snd ir) =? y)%Z) l)) ys)
  = length l.
Proof.
  intros Hnd. induction l as [|r l IH]; intros Hall.
  - cbn [List.filter length]. induction ys as [|y ys IHys]; [reflexivity|].
    inversion Hnd; subst. simpl. now apply IHys.
  - assert (Hstep : forall ys',
      list_sum (map (fun y => length (List.filter (fun ir => (Fecha (snd ir) =? y)%Z) (r :: l))) ys')
      = (list_sum (map (fun y => if (Fecha (snd r) =? y)%Z then 1 else 0)%nat ys')
         + list_sum (map (fun y => length (List.filter (fun ir => (Fecha (snd ir) =? y)%Z) l)) ys'))%nat).
    { induction ys' as [|y ys' IHys]; [reflexivity|].
      cbn [map]. change (list_sum (?a :: ?l')) with (a + list_sum l')%nat.
      rewrite IHys. cbn [List.filter].
      destruct (Fecha (snd r) =? y)%Z; cbn [length]; lia. }
    rewrite Hstep, IH by (intros ir Hin; apply Hall; now right).
    rewrite (one_year_of_many _ _ Hnd (Hall r (or_introl eq_refl))). reflexivity.
Qed.

(** X18.  The views of the offered years, taken together, show every
    selected record exactly once: their sizes add up to the number of
    selected records. *)
Theorem year_views_partition_the_selection (selected_df : DataFrame)
    (years : list Z) :
  unique_years selected_df = Ok years ->
  exists views,
    map_result (fun y => filter_by_year selected_df (Some y)) years = Ok views
    /\ Forall (fun v => forall ir, In ir (rows v) -> In ir (rows selected_df)) views
    /\ list_sum (map shape0 views) = shape0 selected_df.
Proof.
  intros Hys. apply unique_years_inv in Hys as [Hf ->].
  set (years := sorted _).
  set (view := fun y : Z =>
         {| columns := columns selected_df;
            rows := List.filter (fun ir => (Fecha (snd ir) =? y)%Z) (rows selected_df) |}).
  exists (map view years). split; [|split].
  - apply map_result_all_ok. intros y. apply (filter_by_year_rows _ _ Hf).
  - apply List.Forall_forall. intros v Hv. apply in_map_iff in Hv as (y & <- & _).
    intros ir Hin. cbn [view rows] in Hin. now apply filter_In in Hin as [Hin _].
  - rewrite map_map. unfold shape0 at 1. cbn [view rows].
    apply rows_by_year.
    + apply increasing_NoDup, sorted_increasing, unique_NoDup.
    + intros ir Hin. subst years. rewrite sorted_In, unique_In, in_map_iff.
      exists ir. split; [reflexivity | exact Hin].
Qed.

Lemma year_views_partition_the_selection_witness :
  let selected_df := pd_DataFrame [new_row "Deep hedging" "We hedge a portfolio." 2021;
                                   new_row "Robust control" "An optimization view." 2019;
                                   new_row "Late entry" "Another portfolio." 2021] in
  unique_years selected_df = Ok [2019; 2021]%Z
  /\ exists views,
       map_result (fun y => filter_by_year selected_df (Some y)) [2019; 2021]%Z = Ok views
       /\ map shape0 views = [1; 2]%nat.
Proof.
  intros selected_df. split; [reflexivity|].
  destruct (year_views_partition_the_selection selected_df [2019; 2021]%Z eq_refl)
    as (views & Hviews & _).
  exists views. split; [exact Hviews|].
  vm_compute in Hviews. injection Hviews as <-. reflexivity.
Defined.
